(** * Video Caption Suite: progress store and processing manager

    The front end keeps one progress object per browser session
    ([frontend/src/stores/progressStore.ts], typed by
    [frontend/src/types/progress.ts]) and drives the back end through
    [frontend/src/composables/useApi.ts].  The first part embeds the store
    and the two processing calls and proves what the specification says
    about them.  The second part, [Manager], is the Processing Manager of
    the specification, whose Python implementation is not among the
    sources.

    Conventions of the embedding:
    - a JavaScript [number] is an exact rational ([Q]); the inputs used in
      the examples are dyadic, so the IEEE double result is the same; where
      a getter takes [Math.floor] of a computed quotient and product
      ([estimatedTimeRemaining]) every operation is rounded to the nearest
      double ([round_double]);
    - a JavaScript object is a finite map from field name to JSON value
      ([gmap string Value]); object spread is map union;
    - [string | null] is [option string];
    - the fields of [WorkerProgress] that [ProgressState] has too carry the
      prefix [w_]. *)

From Stdlib Require Import QArith Qminmax Lia Lqa List.
From stdpp Require Import gmap strings list fin_maps.

Local Open Scope Q_scope.

(** ** types/progress.ts *)

Inductive ProcessingStage :=
| idle | loading_model | processing | complete | error.

Inductive ProcessingSubstage :=
| sub_idle | extracting_frames | encoding | generating.

Record WorkerProgress := {
  worker_id : Q;
  device : string;
  w_current_video : option string;
  w_substage : ProcessingSubstage;
  w_substage_progress : Q
}.

Record ProgressState := {
  stage : ProcessingStage;
  current_video : option string;
  video_index : Q;
  total_videos : Q;
  tokens_generated : Q;
  tokens_per_sec : Q;
  model_loaded : bool;
  vram_used_gb : Q;
  substage : ProcessingSubstage;
  substage_progress : Q;
  error_message : option string;
  elapsed_time : Q;
  batch_size : Q;
  workers : list WorkerProgress;
  completed_videos : Q
}.

Definition initialProgressState : ProgressState := {|
  stage := idle;
  current_video := None;
  video_index := 0;
  total_videos := 0;
  tokens_generated := 0;
  tokens_per_sec := 0;
  model_loaded := false;
  vram_used_gb := 0;
  substage := sub_idle;
  substage_progress := 0;
  error_message := None;
  elapsed_time := 0;
  batch_size := 1;
  workers := [];
  completed_videos := 0
|}.

(** ** JavaScript primitives used by the store *)

(** Truthiness of a [string | null]: [null] and the empty string are falsy. *)
Definition truthy (v : option string) : bool :=
  match v with
  | Some s => negb (String.eqb s "")
  | None => false
  end.

(** [a / b] with the division made observable: [None] records that the
    divisor was zero (JavaScript would produce [NaN] or an infinity). *)
Definition js_div (a b : Q) : option Q :=
  if Qeq_bool b 0 then None else Some (a / b).

(** [arr.reduce((sum, w) => sum + w.substage_progress, 0)] *)
Definition reduce_substage_progress (ws : list WorkerProgress) : Q :=
  fold_left (fun sum w => sum + w_substage_progress w) ws 0.

(** ** stores/progressStore.ts: getters *)

Definition isIdle (s : ProgressState) : bool :=
  match stage s with idle => true | _ => false end.
Definition isLoadingModel (s : ProgressState) : bool :=
  match stage s with loading_model => true | _ => false end.
Definition isProcessing (s : ProgressState) : bool :=
  match stage s with processing => true | _ => false end.
Definition isComplete (s : ProgressState) : bool :=
  match stage s with complete => true | _ => false end.
Definition hasError (s : ProgressState) : bool :=
  match stage s with error => true | _ => false end.

(** The [overallProgress] getter.  [workers] is an array by its type, so
    the guard [state.value.workers && ...] only tests its length; a worker
    counts when its [current_video] is truthy. *)
Definition overallProgress (s : ProgressState) : option Q :=
  if Qeq_bool (total_videos s) 0 then Some 0
  else
    completedProgress ← js_div (completed_videos s) (total_videos s);
    activeProgress ←
      (if (0 <? length (workers s))%nat
       then
         let activeWorkers :=
           List.filter (fun w => truthy (w_current_video w)) (workers s) in
         js_div (reduce_substage_progress activeWorkers) (total_videos s)
       else js_div (substage_progress s) (total_videos s));
    Some (Qmin 100 ((completedProgress + activeProgress) * 100)).

(** ** JSON values and the store's state object *)

(** What [JSON.parse] can put into a WebSocket message. *)
#[local] Set Warnings "-register-all".
Inductive Value :=
| VNull
| VBool (b : bool)
| VNum (q : Q)
| VStr (s : string)
| VArr (vs : list Value)
| VObj (fields : gmap string Value).
#[local] Set Warnings "+register-all".

Definition stage_name (st : ProcessingStage) : string :=
  match st with
  | idle => "idle"
  | loading_model => "loading_model"
  | processing => "processing"
  | complete => "complete"
  | error => "error"
  end.

Definition substage_name (st : ProcessingSubstage) : string :=
  match st with
  | sub_idle => "idle"
  | extracting_frames => "extracting_frames"
  | encoding => "encoding"
  | generating => "generating"
  end.

Definition nullable (v : option string) : Value :=
  match v with Some s => VStr s | None => VNull end.

Definition worker_object (w : WorkerProgress) : Value :=
  VObj (list_to_map [
    ("worker_id", VNum (worker_id w));
    ("device", VStr (device w));
    ("current_video", nullable (w_current_video w));
    ("substage", VStr (substage_name (w_substage w)));
    ("substage_progress", VNum (w_substage_progress w))
  ]).

(** The object a typed [ProgressState] is at run time. *)
Definition state_object (s : ProgressState) : gmap string Value :=
  list_to_map [
    ("stage", VStr (stage_name (stage s)));
    ("current_video", nullable (current_video s));
    ("video_index", VNum (video_index s));
    ("total_videos", VNum (total_videos s));
    ("tokens_generated", VNum (tokens_generated s));
    ("tokens_per_sec", VNum (tokens_per_sec s));
    ("model_loaded", VBool (model_loaded s));
    ("vram_used_gb", VNum (vram_used_gb s));
    ("substage", VStr (substage_name (substage s)));
    ("substage_progress", VNum (substage_progress s));
    ("error_message", nullable (error_message s));
    ("elapsed_time", VNum (elapsed_time s));
    ("batch_size", VNum (batch_size s));
    ("workers", VArr (map worker_object (workers s)));
    ("completed_videos", VNum (completed_videos s))
  ].

(** ** stores/progressStore.ts: state and actions *)

Record Store := {
  state : gmap string Value;
  wsConnected : bool
}.

(** [ref({ ...initialProgressState })] and [ref(false)] *)
Definition useProgressStore : Store :=
  {| state := state_object initialProgressState ∪ ∅; wsConnected := false |}.

(** [state.value = { ...state.value, ...data }]: later spreads win, so the
    message is the left operand of the left-biased union. *)
Definition updateFromWebSocket (data : gmap string Value) (st : Store) : Store :=
  {| state := data ∪ state st; wsConnected := wsConnected st |}.

Definition setWsConnected (connected : bool) (st : Store) : Store :=
  {| state := state st; wsConnected := connected |}.

Definition reset (st : Store) : Store :=
  {| state := state_object initialProgressState ∪ ∅;
     wsConnected := wsConnected st |}.

(** ** Reading an object at its declared type *)

Definition stage_of_string (s : string) : option ProcessingStage :=
  if String.eqb s "idle" then Some idle
  else if String.eqb s "loading_model" then Some loading_model
  else if String.eqb s "processing" then Some processing
  else if String.eqb s "complete" then Some complete
  else if String.eqb s "error" then Some error
  else None.

Definition substage_of_string (s : string) : option ProcessingSubstage :=
  if String.eqb s "idle" then Some sub_idle
  else if String.eqb s "extracting_frames" then Some extracting_frames
  else if String.eqb s "encoding" then Some encoding
  else if String.eqb s "generating" then Some generating
  else None.

Definition as_number (v : option Value) : option Q :=
  match v with Some (VNum q) => Some q | _ => None end.
Definition as_boolean (v : option Value) : option bool :=
  match v with Some (VBool b) => Some b | _ => None end.
Definition as_string (v : option Value) : option string :=
  match v with Some (VStr s) => Some s | _ => None end.
Definition as_nullable (v : option Value) : option (option string) :=
  match v with
  | Some (VStr s) => Some (Some s)
  | Some VNull => Some None
  | _ => None
  end.
Definition as_array (v : option Value) : option (list Value) :=
  match v with Some (VArr vs) => Some vs | _ => None end.

(** [WorkerProgress]: an object with the five declared fields. *)
Definition as_worker (v : Value) : option WorkerProgress :=
  match v with
  | VObj o =>
      id ← as_number (o !! "worker_id");
      dev ← as_string (o !! "device");
      cur ← as_nullable (o !! "current_video");
      sub ← as_string (o !! "substage") ≫= substage_of_string;
      prog ← as_number (o !! "substage_progress");
      Some {| worker_id := id; device := dev; w_current_video := cur;
              w_substage := sub; w_substage_progress := prog |}
  | _ => None
  end.

(** [ProgressState]: an object with the fifteen declared fields, each of its
    declared type; [None] when the object is not a [ProgressState]. *)
Definition as_ProgressState (o : gmap string Value) : option ProgressState :=
  stg ← as_string (o !! "stage") ≫= stage_of_string;
  cur ← as_nullable (o !! "current_video");
  idx ← as_number (o !! "video_index");
  tot ← as_number (o !! "total_videos");
  tok ← as_number (o !! "tokens_generated");
  tps ← as_number (o !! "tokens_per_sec");
  ml ← as_boolean (o !! "model_loaded");
  vram ← as_number (o !! "vram_used_gb");
  sub ← as_string (o !! "substage") ≫= substage_of_string;
  prog ← as_number (o !! "substage_progress");
  err ← as_nullable (o !! "error_message");
  el ← as_number (o !! "elapsed_time");
  bs ← as_number (o !! "batch_size");
  ws ← as_array (o !! "workers") ≫= mapM as_worker;
  cmp ← as_number (o !! "completed_videos");
  Some {| stage := stg; current_video := cur; video_index := idx;
          total_videos := tot; tokens_generated := tok; tokens_per_sec := tps;
          model_loaded := ml; vram_used_gb := vram; substage := sub;
          substage_progress := prog; error_message := err;
          elapsed_time := el; batch_size := bs; workers := ws;
          completed_videos := cmp |}.

(** The getter as the components read it: [store.overallProgress]. *)
Definition store_overallProgress (st : Store) : option Q :=
  as_ProgressState (state st) ≫= overallProgress.

(** The field names of the [ProgressState] interface. *)
Definition ProgressState_fields : list string :=
  ["stage"; "current_video"; "video_index"; "total_videos";
   "tokens_generated"; "tokens_per_sec"; "model_loaded"; "vram_used_gb";
   "substage"; "substage_progress"; "error_message"; "elapsed_time";
   "batch_size"; "workers"; "completed_videos"].

(** ** The specification's reading of the aggregation formula *)

(** Clamp to the unit interval. *)
Definition clamp01 (x : Q) : Q := Qmax 0 (Qmin 1 x).

Fixpoint sum_progress (ws : list WorkerProgress) : Q :=
  match ws with
  | [] => 0
  | w :: ws' => w_substage_progress w + sum_progress ws'
  end.

(** Σ active_worker.substage_progress: the workers with a current video,
    or the single [substage_progress] when no worker is listed. *)
Definition spec_active_sum (s : ProgressState) : Q :=
  match workers s with
  | [] => substage_progress s
  | _ => sum_progress (List.filter (fun w => truthy (w_current_video w)) (workers s))
  end.

(** (completed / total) + (Σ active_worker.substage_progress / total) *)
Definition spec_fraction (s : ProgressState) : Q :=
  completed_videos s / total_videos s + spec_active_sum s / total_videos s.

(** The formula of the specification, clamped to [0, 1]. *)
Definition spec_overall (s : ProgressState) : Q := clamp01 (spec_fraction s).

(** The stage values the specification lists. *)
Definition spec_stage_values : list string :=
  ["idle"; "loading_model"; "processing"; "complete"; "error"; "stopped"].

(** ** composables/useApi.ts: the two processing calls *)

(** What [fetch] resolved to: the [ok] flag and the body as
    [response.json()] reads it ([None]: the body is not JSON). *)
Record HttpResponse := {
  ok : bool;
  json : option Value
}.

(** The value [request] returns: the parsed body of an [ok] response, and
    [null] when the fetch rejects, the response is not [ok] (the thrown
    error is caught), or the body does not parse. *)
Definition request (r : option HttpResponse) : option Value :=
  match r with
  | Some resp => if ok resp then json resp else None
  | None => None
  end.

(** [request('/api/process/start', ...)]: the body, or [null]. *)
Definition startProcessing (r : option HttpResponse) : option Value :=
  request r.

(** [result?.success ?? false] *)
Definition stopProcessing (r : option HttpResponse) : Value :=
  match request r with
  | Some (VObj o) =>
      match o !! "success" with
      | Some VNull | None => VBool false
      | Some v => v
      end
  | _ => VBool false
  end.

(** * The Processing Manager

    The manager runs in the Python back end ([backend/processing.py],
    [backend/api.py]), which is not part of the sources at hand; the front
    end above is its only client here.  The definitions of this module
    follow the specification's sections 3 to 7. *)

Module Manager.

(** Modelled from the spec: the Job stage of section 3 (the back end's
    [ProcessingStage] schema is missing). *)
Inductive Stage := Idle | LoadingModel | Processing | Complete | Error | Stopped.

(** Modelled from the spec: the Task status of section 3. *)
Inductive TaskStatus :=
| Queued | Assigned | Extracting | Encoding | Generating | Done | Failed.

(** Modelled from the spec: the Worker substage of section 3. *)
Inductive Substage := SubIdle | ExtractingFrames | SubEncoding | SubGenerating.

#[export] Instance TaskStatus_eq_dec : EqDecision TaskStatus.
Proof. solve_decision. Defined.

#[export] Instance Stage_eq_dec : EqDecision Stage.
Proof. solve_decision. Defined.

(** Modelled from the spec: a Task (section 3); [assigned_worker] is the
    back-reference to the worker's id, [task_error] the captured message. *)
Record Task := mkTask {
  video_name : string;
  status : TaskStatus;
  assigned_worker : option nat;
  task_error : option string
}.

(** Modelled from the spec: a Worker (section 3); its [worker_id] is its
    position in the pool and [current_task] refers to a task by its position
    in the Job's task list. *)
Record Worker := mkWorker {
  device_identifier : string;
  current_task : option nat;
  substage : Substage;
  exited : bool
}.

(** Modelled from the spec: the manager instance of section 9, holding the
    Work Queue (the tasks and their status), the worker pool, the current
    Job's stage and the shared cancellation flag. *)
Record Manager := mkManager {
  stage : Stage;
  tasks : list Task;
  workers : list Worker;
  cancel : bool;
  error_message : option string
}.

(** Modelled from the spec: what a collaborator of section 6 returns, a
    result or a raised error. *)
Inductive Outcome := Ok | Raises (msg : string).

(** Modelled from the spec: the two stop policies section 4.4 allows. *)
Inductive StopPolicy := FinishCurrent | AbortCurrent.

(** Modelled from the spec: the StartRequest of section 6, with the video
    list and the selected devices resolved. *)
Record StartRequest := {
  video_names : list string;
  prompt : option string;
  devices : list string
}.

Inductive RejectReason := JobConflict | NotRunning.

(** Modelled from the spec: what the manager answers (section 6); [Pulled]
    is what [pull()] hands to the calling worker. *)
Inductive Response :=
| StartResponse (accepted : bool) (total_videos : nat)
| StopResponse (videos_completed videos_remaining : nat)
| Rejected (reason : RejectReason)
| Pulled (task : option nat)
| Ack.

(** Modelled from the spec: the events the manager serialises (section 5):
    caller requests, model readiness, and the workers' loop steps. *)
Inductive Event :=
| Start (req : StartRequest)
| ModelsReady
| Fatal (msg : string)
| Stop
| Pull (w : nat)
| Advance (w : nat).

(** Modelled from the spec: a Job is active while it loads its models or
    processes (section 3, the single run slot). *)
Definition is_active (s : Stage) : bool :=
  match s with LoadingModel | Processing => true | _ => false end.

(** Modelled from the spec: the terminal stages of section 4.3. *)
Definition is_terminal (s : Stage) : bool :=
  match s with Complete | Error | Stopped => true | _ => false end.

(** Modelled from the spec: a task that is [Done] or [Failed] is finished
    for good (section 3). *)
Definition is_final (s : TaskStatus) : bool :=
  match s with Done | Failed => true | _ => false end.

Definition is_done (s : TaskStatus) : bool :=
  match s with Done => true | _ => false end.

Definition is_failed (s : TaskStatus) : bool :=
  match s with Failed => true | _ => false end.

(** Modelled from the spec: the statuses of a task in a worker's hands,
    from [Assigned] through the pipeline stages. *)
Definition is_held (s : TaskStatus) : bool :=
  match s with
  | Assigned | Extracting | Encoding | Generating => true
  | _ => false
  end.

(** *** Counters of the snapshot *)

Definition count_tasks (p : TaskStatus -> bool) (ts : list Task) : nat :=
  length (List.filter (fun t => p (status t)) ts).

(** Modelled from the spec: the counts of the ProgressSnapshot (section 3):
    [total] the requested tasks, [completed] those [Done], [failed] those
    [Failed], [remaining] those neither [Done] nor [Failed]. *)
Definition total (m : Manager) : nat := length (tasks m).
Definition completed (m : Manager) : nat := count_tasks is_done (tasks m).
Definition failed (m : Manager) : nat := count_tasks is_failed (tasks m).
Definition remaining (m : Manager) : nat :=
  count_tasks (fun s => negb (is_final s)) (tasks m).

(** *** Field updates *)

Definition set_stage (s : Stage) (m : Manager) : Manager :=
  mkManager s (tasks m) (workers m) (cancel m) (error_message m).
Definition set_cancel (m : Manager) : Manager :=
  mkManager (stage m) (tasks m) (workers m) true (error_message m).
Definition set_pool (ts : list Task) (ws : list Worker) (m : Manager) : Manager :=
  mkManager (stage m) ts ws (cancel m) (error_message m).

Definition set_status (s : TaskStatus) (t : Task) : Task :=
  mkTask (video_name t) s (assigned_worker t) (task_error t).
(** Modelled from the spec: a task marked [Failed] with the captured error
    (section 4.2 (d)). *)
Definition fail_task (msg : string) (t : Task) : Task :=
  mkTask (video_name t) Failed (assigned_worker t) (Some msg).
(** Modelled from the spec: a task marked [Assigned] to worker [w]. *)
Definition assign (w : nat) (t : Task) : Task :=
  mkTask (video_name t) Assigned (Some w) (task_error t).

(** Modelled from the spec: the worker takes task [i]; its substage starts
    over (section 3). *)
Definition hold (i : nat) (w : Worker) : Worker :=
  mkWorker (device_identifier w) (Some i) SubIdle false.
(** Modelled from the spec: the worker lets its finished task go and stays
    in its loop. *)
Definition release (w : Worker) : Worker :=
  mkWorker (device_identifier w) None SubIdle (exited w).
(** Modelled from the spec: the worker exits its loop (section 4.2 (a)). *)
Definition leave (w : Worker) : Worker :=
  mkWorker (device_identifier w) None SubIdle true.
Definition substage_of (s : TaskStatus) : Substage :=
  match s with
  | Extracting => ExtractingFrames
  | Encoding => SubEncoding
  | Generating => SubGenerating
  | _ => SubIdle
  end.
(** Modelled from the spec: the worker reports the substage of its task. *)
Definition report (s : TaskStatus) (w : Worker) : Worker :=
  mkWorker (device_identifier w) (current_task w) (substage_of s) (exited w).

(** *** Work Queue (section 4.1) *)

(** Modelled from the spec: [enqueue(tasks)], every task [Queued], in the
    order of the request. *)
Definition enqueue (videos : list string) : list Task :=
  map (fun v => mkTask v Queued None None) videos.

(** Modelled from the spec: [pull()], the first [Queued] task in input
    order, marked [Assigned] to the caller in the same step, or "empty". *)
Definition pull (w : nat) (ts : list Task) : option nat * list Task :=
  match list_find (fun t => status t = Queued) ts with
  | Some (i, t) => (Some i, <[i := assign w t]> ts)
  | None => (None, ts)
  end.

(** *** Aggregator transitions (section 4.3) *)

(** Modelled from the spec: a worker is active when it has a current task
    (section 3). *)
Definition is_free (w : Worker) : bool :=
  match current_task w with None => true | Some _ => false end.
Definition no_worker_active (m : Manager) : bool :=
  forallb is_free (workers m).
Definition all_workers_exited (m : Manager) : bool :=
  forallb exited (workers m).

(** Modelled from the spec: the transitions out of [Processing] that the
    Aggregator takes after applying an event: [Complete] when nothing
    remains and no worker is active, [Stopped] when the stop request is
    acknowledged by every worker. *)
Definition settle (m : Manager) : Manager :=
  match stage m with
  | Processing =>
      if (remaining m =? 0)%nat && no_worker_active m then set_stage Complete m
      else if cancel m && all_workers_exited m then set_stage Stopped m
      else m
  | _ => m
  end.

(** Modelled from the spec: the answer to an accepted [stop()] (section
    4.4).  The request only sets the flag; the answer is computed from the
    final counters, so there is none while a worker is still in its loop:
    it is given once the flag is set and the Job has reached a terminal
    stage, from the counters of that state. *)
Definition stop_response (m : Manager) : option Response :=
  if cancel m && is_terminal (stage m)
  then Some (StopResponse (completed m) (remaining m))
  else None.

Section Pipeline.

(** The collaborators of section 6, by video name. *)
Variables extract_frames generate_caption persist_caption : string -> Outcome.
Variable policy : StopPolicy.

(** Modelled from the spec: a task advanced over one pipeline stage
    boundary (section 4.2): extraction, encoding, generation and persisting
    in this order; a raised error marks the task [Failed] with the message. *)
Definition pipeline_step (t : Task) : Task :=
  match status t with
  | Assigned => set_status Extracting t
  | Extracting =>
      match extract_frames (video_name t) with
      | Ok => set_status Encoding t
      | Raises msg => fail_task msg t
      end
  | Encoding => set_status Generating t
  | Generating =>
      match generate_caption (video_name t) with
      | Ok =>
          match persist_caption (video_name t) with
          | Ok => set_status Done t
          | Raises msg => fail_task msg t
          end
      | Raises msg => fail_task msg t
      end
  | _ => t
  end.

(** Modelled from the spec: the stage boundary under the cancellation flag
    (section 4.4), by the chosen policy. *)
Definition boundary (flag : bool) (t : Task) : Task :=
  match policy with
  | AbortCurrent => if flag then fail_task "stopped" t else pipeline_step t
  | FinishCurrent => pipeline_step t
  end.

(** Modelled from the spec: a [StartRequest] accepted: the Job's tasks are
    enqueued, one worker per selected device is created, and the stage is
    [LoadingModel]. *)
Definition new_job (req : StartRequest) : Manager :=
  mkManager LoadingModel (enqueue (video_names req))
    (map (fun d => mkWorker d None SubIdle false) (devices req)) false None.

(** Modelled from the spec: step (a) of the worker loop (section 4.2): check
    the flag, then pull; an empty queue or a set flag ends the loop. *)
Definition do_pull (w : nat) (m : Manager) : Manager * Response :=
  match workers m !! w with
  | Some wk =>
      if exited wk || negb (is_free wk) then (m, Ack)
      else if cancel m
      then (settle (set_pool (tasks m) (<[w := leave wk]> (workers m)) m), Ack)
      else
        match pull w (tasks m) with
        | (Some i, ts) =>
            (set_pool ts (<[w := hold i wk]> (workers m)) m, Pulled (Some i))
        | (None, ts) =>
            (settle (set_pool ts (<[w := leave wk]> (workers m)) m), Pulled None)
        end
  | None => (m, Ack)
  end.

(** Modelled from the spec: steps (b) to (d) of the worker loop: the held
    task crosses one stage boundary and the worker reports it; a task that
    became [Done] or [Failed] is let go and the loop continues. *)
Definition do_advance (w : nat) (m : Manager) : Manager :=
  match workers m !! w with
  | Some wk =>
      match current_task wk with
      | Some i =>
          match tasks m !! i with
          | Some t =>
              let t' := boundary (cancel m) t in
              let wk' :=
                if is_final (status t') then release wk
                else report (status t') wk in
              settle (set_pool (<[i := t']> (tasks m))
                               (<[w := wk']> (workers m)) m)
          | None => m
          end
      | None => m
      end
  | None => m
  end.

(** Modelled from the spec: one event applied by the manager (sections 4.3,
    4.4, 6, 7).  An accepted [Stop] is acknowledged at once; what the stop
    call answers is [stop_response]. *)
Definition step (m : Manager) (e : Event) : Manager * Response :=
  match e with
  | Start req =>
      if is_active (stage m) then (m, Rejected JobConflict)
      else (new_job req, StartResponse true (length (video_names req)))
  | ModelsReady =>
      match stage m with
      | LoadingModel => (settle (set_stage Processing m), Ack)
      | _ => (m, Ack)
      end
  | Fatal msg =>
      if is_active (stage m)
      then (mkManager Error (tasks m) (workers m) true (Some msg), Ack)
      else (m, Ack)
  | Stop =>
      if is_active (stage m)
      then (settle (set_cancel m), Ack)
      else (m, Rejected NotRunning)
  | Pull w =>
      match stage m with
      | Processing => do_pull w m
      | _ => (m, Ack)
      end
  | Advance w =>
      match stage m with
      | Processing => (do_advance w m, Ack)
      | _ => (m, Ack)
      end
  end.

(** Modelled from the spec: a run of the manager, the events applied one
    after the other (section 5: all events are applied serially), with the
    responses. *)
Fixpoint run (m : Manager) (evs : list Event) : Manager * list Response :=
  match evs with
  | [] => (m, [])
  | e :: evs' =>
      let '(m1, r) := step m e in
      let '(m2, rs) := run m1 evs' in
      (m2, r :: rs)
  end.

End Pipeline.

(** The tasks handed out by [pull()] in a run, in order. *)
Definition pulled_tasks (rs : list Response) : list nat :=
  omap (fun r => match r with Pulled (Some i) => Some i | _ => None end) rs.

(** Modelled from the spec: the manager before any Job, in [Idle]. *)
Definition init : Manager := mkManager Idle [] [] false None.

End Manager.

(** * Properties of the progress store *)

Section ProgressStore.

Local Open Scope Q_scope.

(** ** Arithmetic of the getter *)

Lemma js_div_defined (a b : Q) : ~ b == 0 -> js_div a b = Some (a / b).
Proof.
  intros Hb. unfold js_div.
  destruct (Qeq_bool b 0) eqn:E; [|reflexivity].
  apply Qeq_bool_iff in E. contradiction.
Qed.

Lemma reduce_from (ws : list WorkerProgress) (acc : Q) :
  fold_left (fun sum w => sum + w_substage_progress w) ws acc
  == acc + sum_progress ws.
Proof.
  revert acc. induction ws as [|w ws IH]; intros acc; simpl.
  - ring.
  - rewrite IH. ring.
Qed.

Lemma reduce_is_sum (ws : list WorkerProgress) :
  reduce_substage_progress ws == sum_progress ws.
Proof. unfold reduce_substage_progress. rewrite reduce_from. ring. Qed.

Lemma sum_progress_nonneg (ws : list WorkerProgress) :
  (forall w, In w ws -> 0 <= w_substage_progress w) -> 0 <= sum_progress ws.
Proof.
  induction ws as [|w ws IH]; intros Hall; simpl.
  - apply Qle_refl.
  - assert (0 <= w_substage_progress w) by (apply Hall; now left).
    assert (0 <= sum_progress ws) by (apply IH; intros; apply Hall; now right).
    lra.
Qed.

Lemma cap_percent (x : Q) : Qmin 100 (x * 100) == 100 * Qmin 1 x.
Proof.
  destruct (Q.min_spec 100 (x * 100)) as [[H1 ->]|[H1 ->]];
    destruct (Q.min_spec 1 x) as [[H2 ->]|[H2 ->]]; lra.
Qed.

(** The getter unfolded for a non-zero total: the percentage of the
    specification's fraction, capped at 100. *)
Lemma overallProgress_nonzero (s : ProgressState) :
  ~ total_videos s == 0 ->
  exists q, overallProgress s = Some q /\ q == 100 * Qmin 1 (spec_fraction s).
Proof.
  intros Ht. unfold overallProgress.
  destruct (Qeq_bool (total_videos s) 0) eqn:E.
  { apply Qeq_bool_iff in E. contradiction. }
  unfold spec_fraction, spec_active_sum.
  destruct (workers s) as [|w ws] eqn:Ew; simpl length; cbn [Nat.ltb Nat.leb];
    rewrite !js_div_defined by assumption; cbn [mbind option_bind];
    (eexists; split; [reflexivity|]).
  - apply cap_percent.
  - rewrite cap_percent, reduce_is_sum. reflexivity.
Qed.

(** ** Overall progress *)

(** A run of two videos, the first finished, no worker listed. *)
Definition half_done : ProgressState := {|
  stage := processing;
  current_video := Some "b.mp4";
  video_index := 1;
  total_videos := 2;
  tokens_generated := 0;
  tokens_per_sec := 0;
  model_loaded := true;
  vram_used_gb := 0;
  substage := extracting_frames;
  substage_progress := 0;
  error_message := None;
  elapsed_time := 0;
  batch_size := 1;
  workers := [];
  completed_videos := 1
|}.

(** The aggregation claim as the specification words it, at one state: the
    getter returns the clamped fraction. *)
Definition returns_clamped_fraction (s : ProgressState) : Prop :=
  0 < total_videos s ->
  exists q, overallProgress s = Some q /\ q == spec_overall s.

(** C1, counterexample: with one of two videos finished the getter returns
    50 where the specification's clamped fraction is 1/2. *)
Lemma overallProgress_is_percentage :
  ~ returns_clamped_fraction half_done.
Proof.
  intros H. destruct H as [q [Hq Heq]]; [reflexivity|].
  vm_compute in Hq. injection Hq as <-.
  vm_compute in Heq. discriminate Heq.
Qed.

(** C1 (amended): for a positive total the overall progress is the
    percentage 100 * (completed / total + sum of the active workers'
    substage_progress / total), capped above at 100 and not clamped below;
    when the fraction is not negative this is 100 times the specification's
    value clamped to [0, 1], a number of [0, 100]. *)
Theorem overallProgress_formula (s : ProgressState) :
  0 < total_videos s ->
  exists q,
    overallProgress s = Some q /\
    q == 100 * Qmin 1 (spec_fraction s) /\
    q <= 100 /\
    (0 <= spec_fraction s -> q == 100 * spec_overall s /\ 0 <= q).
Proof.
  intros Hpos.
  destruct (overallProgress_nonzero s) as [q [Hq Heq]]; [lra|].
  exists q. split; [exact Hq|]. split; [exact Heq|].
  unfold spec_overall, clamp01.
  destruct (Q.min_spec 1 (spec_fraction s)) as [[H1 E1]|[H1 E1]];
    rewrite E1 in Heq.
  - split; [lra|]. intros _.
    destruct (Q.max_spec 0 (Qmin 1 (spec_fraction s))) as [[H2 E2]|[H2 E2]];
      rewrite E2; rewrite ?E1 in *; lra.
  - split; [lra|]. intros H0.
    destruct (Q.max_spec 0 (Qmin 1 (spec_fraction s))) as [[H2 E2]|[H2 E2]];
      rewrite E2; rewrite ?E1 in *; lra.
Qed.

Lemma overallProgress_formula_witness :
  0 < total_videos half_done /\
  exists q,
    overallProgress half_done = Some q /\
    q == 100 * Qmin 1 (spec_fraction half_done) /\
    q <= 100 /\
    (0 <= spec_fraction half_done -> q == 100 * spec_overall half_done /\ 0 <= q).
Proof.
  split; [reflexivity|].
  apply (overallProgress_formula half_done). reflexivity.
Defined.

(** C9: with [total_videos] zero the getter returns 0 and performs no
    division; for every state it returns a number, so no division by zero
    is ever evaluated. *)
Theorem overallProgress_total (s : ProgressState) :
  (total_videos s == 0 -> overallProgress s = Some 0) /\
  (exists q, overallProgress s = Some q).
Proof.
  split.
  - intros H0. unfold overallProgress.
    apply Qeq_bool_iff in H0. rewrite H0. reflexivity.
  - destruct (Qeq_dec (total_videos s) 0) as [H0|H0].
    + exists 0. unfold overallProgress.
      apply Qeq_bool_iff in H0. rewrite H0. reflexivity.
    + destruct (overallProgress_nonzero s H0) as [q [Hq _]]. eauto.
Qed.

Lemma overallProgress_total_witness :
  total_videos initialProgressState == 0 /\
  overallProgress initialProgressState = Some 0.
Proof.
  split; [reflexivity|].
  apply (overallProgress_total initialProgressState). reflexivity.
Defined.

(** What the guard on [total_videos] avoids. *)
Lemma js_div_by_zero (a b : Q) : b == 0 -> js_div a b = None.
Proof.
  intros Hb. unfold js_div. apply Qeq_bool_iff in Hb. rewrite Hb. reflexivity.
Qed.

(** ** The completed floor *)

(** Every substage progress of the state is a fraction of [0, 1]: the
    workers' and the single-worker field. *)
Definition progress_in_unit (s : ProgressState) : Prop :=
  (forall w, In w (workers s) ->
     0 <= w_substage_progress w /\ w_substage_progress w <= 1) /\
  0 <= substage_progress s /\ substage_progress s <= 1.

(** The same run seen later: only [completed_videos] differs. *)
Definition same_run (s s' : ProgressState) : Prop :=
  total_videos s' == total_videos s /\
  workers s' = workers s /\
  substage_progress s' == substage_progress s.

Lemma spec_active_sum_nonneg (s : ProgressState) :
  progress_in_unit s -> 0 <= spec_active_sum s.
Proof.
  intros [Hw [Hs _]]. unfold spec_active_sum.
  destruct (workers s) as [|w ws] eqn:Ew; [exact Hs|].
  apply sum_progress_nonneg. intros x Hx.
  apply filter_In in Hx. destruct Hx as [Hx _].
  destruct (Hw x Hx) as [H0 _]. exact H0.
Qed.

Lemma spec_active_sum_same_run (s s' : ProgressState) :
  same_run s s' -> spec_active_sum s' == spec_active_sum s.
Proof.
  intros [_ [Hw Hs]]. unfold spec_active_sum. rewrite Hw.
  destruct (workers s); [exact Hs|reflexivity].
Qed.

Lemma Qmin_mono_r (a x y : Q) : x <= y -> Qmin a x <= Qmin a y.
Proof.
  intros Hxy.
  destruct (Q.min_spec a x) as [[H1 ->]|[H1 ->]];
    destruct (Q.min_spec a y) as [[H2 ->]|[H2 ->]]; lra.
Qed.

Lemma div_le_div (a b t : Q) : 0 < t -> a <= b -> a / t <= b / t.
Proof.
  intros Ht Hab. unfold Qdiv.
  apply Qmult_le_compat_r; [exact Hab|].
  apply Qlt_le_weak, Qinv_lt_0_compat, Ht.
Qed.

Lemma div_unit (c t : Q) : 0 < t -> 0 <= c -> c <= t -> 0 <= c / t /\ c / t <= 1.
Proof.
  intros Ht H0 H1. split.
  - apply Qle_shift_div_l; [exact Ht|]. lra.
  - apply Qle_shift_div_r; [exact Ht|]. lra.
Qed.

(** C4: with every substage progress in [0, 1] and the counters of a run
    (0 <= completed <= total, total > 0) the overall progress is at least
    the completed floor completed / total, also when the floor is read as a
    percentage, and for the same total and the same worker progress it does
    not decrease when [completed_videos] increases. *)
Theorem overallProgress_completed_floor (s : ProgressState) :
  0 < total_videos s ->
  0 <= completed_videos s ->
  completed_videos s <= total_videos s ->
  progress_in_unit s ->
  exists q,
    overallProgress s = Some q /\
    completed_videos s / total_videos s <= q /\
    100 * (completed_videos s / total_videos s) <= q /\
    forall s',
      same_run s s' ->
      completed_videos s <= completed_videos s' ->
      exists q', overallProgress s' = Some q' /\ q <= q'.
Proof.
  intros Ht Hc0 Hct Hunit.
  destruct (overallProgress_nonzero s) as [q [Hq Heq]]; [lra|].
  exists q. split; [exact Hq|].
  pose proof (spec_active_sum_nonneg s Hunit) as Ha.
  destruct (div_unit _ _ Ht Hc0 Hct) as [Hf0 Hf1].
  assert (Hat : 0 <= spec_active_sum s / total_videos s).
  { apply Qle_shift_div_l; [exact Ht|]. lra. }
  assert (Hfloor : 100 * (completed_videos s / total_videos s) <= q).
  { rewrite Heq. unfold spec_fraction.
    destruct (Q.min_spec 1 (completed_videos s / total_videos s
                            + spec_active_sum s / total_videos s))
      as [[H1 ->]|[H1 ->]]; lra. }
  split; [lra|]. split; [exact Hfloor|].
  intros s' Hsame Hle.
  pose proof Hsame as [Htot _].
  assert (Ht' : 0 < total_videos s') by (rewrite Htot; exact Ht).
  destruct (overallProgress_nonzero s') as [q' [Hq' Heq']]; [lra|].
  exists q'. split; [exact Hq'|].
  rewrite Heq, Heq'.
  assert (Hfrac : spec_fraction s <= spec_fraction s').
  { unfold spec_fraction.
    rewrite (spec_active_sum_same_run s s' Hsame). rewrite Htot.
    pose proof (div_le_div _ _ _ Ht Hle). lra. }
  pose proof (Qmin_mono_r 1 _ _ Hfrac). lra.
Qed.

(** The same run with both videos finished. *)
Definition both_done : ProgressState := {|
  stage := processing;
  current_video := Some "b.mp4";
  video_index := 1;
  total_videos := 2;
  tokens_generated := 0;
  tokens_per_sec := 0;
  model_loaded := true;
  vram_used_gb := 0;
  substage := extracting_frames;
  substage_progress := 0;
  error_message := None;
  elapsed_time := 0;
  batch_size := 1;
  workers := [];
  completed_videos := 2
|}.

Lemma progress_in_unit_half_done : progress_in_unit half_done.
Proof.
  split; [intros w []|]. split; [apply Qle_refl|]. unfold Qle; simpl; lia.
Defined.

Lemma overallProgress_completed_floor_witness :
  exists q,
    overallProgress half_done = Some q /\
    completed_videos half_done / total_videos half_done <= q /\
    100 * (completed_videos half_done / total_videos half_done) <= q /\
    forall s',
      same_run half_done s' ->
      completed_videos half_done <= completed_videos s' ->
      exists q', overallProgress s' = Some q' /\ q <= q'.
Proof.
  apply (overallProgress_completed_floor half_done).
  - reflexivity.
  - unfold Qle; simpl; lia.
  - unfold Qle; simpl; lia.
  - exact progress_in_unit_half_done.
Defined.

Example both_done_after_half_done :
  same_run half_done both_done /\
  overallProgress half_done = Some (Qmin 100 ((1 / 2 + 0 / 2) * 100)) /\
  overallProgress both_done = Some (Qmin 100 ((2 / 2 + 0 / 2) * 100)).
Proof. repeat split. Qed.

(** ** Objects and their typed reading *)

Lemma stage_of_string_name (st : ProcessingStage) :
  stage_of_string (stage_name st) = Some st.
Proof. destruct st; reflexivity. Qed.

Lemma substage_of_string_name (st : ProcessingSubstage) :
  substage_of_string (substage_name st) = Some st.
Proof. destruct st; reflexivity. Qed.

Lemma stage_of_string_Some (v : string) (st : ProcessingStage) :
  stage_of_string v = Some st -> stage_name st = v.
Proof.
  unfold stage_of_string.
  repeat match goal with
         | |- context [String.eqb v ?c] =>
             destruct (String.eqb_spec v c) as [->|_];
             [intros [= <-]; reflexivity|]
         end.
  discriminate.
Qed.

Lemma as_nullable_nullable (v : option string) :
  as_nullable (Some (nullable v)) = Some v.
Proof. destruct v; reflexivity. Qed.

Lemma as_worker_object (w : WorkerProgress) :
  as_worker (worker_object w) = Some w.
Proof.
  destruct w as [i d c sub p]. unfold as_worker, worker_object.
  cbn [worker_id device w_current_video w_substage w_substage_progress].
  replace (_ !! "worker_id") with (Some (VNum i)) by reflexivity.
  replace (_ !! "device") with (Some (VStr d)) by reflexivity.
  replace (_ !! "current_video") with (Some (nullable c)) by reflexivity.
  replace (_ !! "substage") with (Some (VStr (substage_name sub)))
    by reflexivity.
  replace (_ !! "substage_progress") with (Some (VNum p)) by reflexivity.
  cbn [as_number as_string mbind option_bind].
  rewrite as_nullable_nullable, substage_of_string_name. reflexivity.
Qed.

Lemma as_workers_objects (ws : list WorkerProgress) :
  mapM as_worker (map worker_object ws) = Some ws.
Proof.
  induction ws as [|w ws IH]; [reflexivity|].
  cbn [map mapM]. rewrite as_worker_object. cbn [mbind option_bind].
  rewrite IH. reflexivity.
Qed.

(** A typed state is read back from its object unchanged. *)
Lemma as_ProgressState_object (s : ProgressState) :
  as_ProgressState (state_object s) = Some s.
Proof.
  destruct s as [stg cur idx tot tok tps ml vram sub prog err el bs ws cmp].
  unfold as_ProgressState, state_object.
  cbn [stage current_video video_index total_videos tokens_generated
       tokens_per_sec model_loaded vram_used_gb substage substage_progress
       error_message elapsed_time batch_size workers completed_videos].
  replace (_ !! "stage") with (Some (VStr (stage_name stg))) by reflexivity.
  replace (_ !! "current_video") with (Some (nullable cur)) by reflexivity.
  replace (_ !! "video_index") with (Some (VNum idx)) by reflexivity.
  replace (_ !! "total_videos") with (Some (VNum tot)) by reflexivity.
  replace (_ !! "tokens_generated") with (Some (VNum tok)) by reflexivity.
  replace (_ !! "tokens_per_sec") with (Some (VNum tps)) by reflexivity.
  replace (_ !! "model_loaded") with (Some (VBool ml)) by reflexivity.
  replace (_ !! "vram_used_gb") with (Some (VNum vram)) by reflexivity.
  replace (_ !! "substage") with (Some (VStr (substage_name sub)))
    by reflexivity.
  replace (_ !! "substage_progress") with (Some (VNum prog)) by reflexivity.
  replace (_ !! "error_message") with (Some (nullable err)) by reflexivity.
  replace (_ !! "elapsed_time") with (Some (VNum el)) by reflexivity.
  replace (_ !! "batch_size") with (Some (VNum bs)) by reflexivity.
  replace (_ !! "workers") with (Some (VArr (map worker_object ws)))
    by reflexivity.
  replace (_ !! "completed_videos") with (Some (VNum cmp)) by reflexivity.
  cbn [as_number as_string as_boolean as_array mbind option_bind].
  rewrite !as_nullable_nullable, stage_of_string_name,
    substage_of_string_name, as_workers_objects.
  reflexivity.
Qed.

Lemma state_object_dom (s : ProgressState) :
  dom (state_object s) = list_to_set ProgressState_fields.
Proof. unfold state_object. rewrite dom_list_to_map_L. reflexivity. Qed.

(** The getter of a store whose state is a typed state is the getter of
    that state. *)
Lemma store_overallProgress_typed (s : ProgressState) (connected : bool) :
  store_overallProgress {| state := state_object s; wsConnected := connected |}
  = overallProgress s.
Proof.
  unfold store_overallProgress. cbn [state].
  rewrite as_ProgressState_object. reflexivity.
Qed.

(** ** Stage values *)

(** The stage claim as the specification words it: the six listed names are
    the values of the stage. *)
Definition stage_values_are (names : list string) : Prop :=
  forall v, In v names <-> exists st, stage_name st = v.

(** C2, counterexample: 'stopped' is among the six names of the
    specification and is the name of no [ProcessingStage]. *)
Lemma stopped_is_no_stage : ~ stage_values_are spec_stage_values.
Proof.
  intros H. destruct (proj1 (H "stopped")) as [st Hst].
  - unfold spec_stage_values. simpl. tauto.
  - destruct st; discriminate Hst.
Qed.

(** C2 (amended): the stage ranges over exactly the five values idle,
    loading_model, processing, complete and error; 'stopped' is not one of
    them, a snapshot with that stage is not a [ProgressState], and the only
    ending stages the store tells apart are complete and error. *)
Theorem stage_values_five :
  stage_values_are ["idle"; "loading_model"; "processing"; "complete"; "error"]
  /\ stage_of_string "stopped" = None
  /\ (forall s : ProgressState,
        as_ProgressState (<["stage" := VStr "stopped"]> (state_object s)) = None)
  /\ (forall s : ProgressState,
        isIdle s || isLoadingModel s || isProcessing s
        || isComplete s || hasError s = true).
Proof.
  split; [|split; [reflexivity|split]].
  - intros v. split.
    + simpl. intros [<-|[<-|[<-|[<-|[<-|[]]]]]];
        [exists idle|exists loading_model|exists processing
        |exists complete|exists error]; reflexivity.
    + intros [st <-]. destruct st; simpl; tauto.
  - intros s. unfold as_ProgressState.
    rewrite lookup_insert_eq. reflexivity.
  - intros s. unfold isIdle, isLoadingModel, isProcessing, isComplete, hasError.
    destruct (stage s); reflexivity.
Qed.

(** ** Counters of a snapshot *)

(** The counters claim as the specification words it, at one snapshot
    object: the three counters are carried and balance. *)
Definition carries_balanced_counters (o : gmap string Value) : Prop :=
  exists c f t,
    as_number (o !! "completed_videos") = Some c /\
    as_number (o !! "failed_videos") = Some f /\
    as_number (o !! "total_videos") = Some t /\
    c + f == t.

(** A finished run of two videos. *)
Definition finished : ProgressState := {|
  stage := complete;
  current_video := None;
  video_index := 1;
  total_videos := 2;
  tokens_generated := 0;
  tokens_per_sec := 0;
  model_loaded := true;
  vram_used_gb := 0;
  substage := sub_idle;
  substage_progress := 0;
  error_message := None;
  elapsed_time := 0;
  batch_size := 1;
  workers := [];
  completed_videos := 2
|}.

(** C3, counterexample: the snapshot of a finished run carries no
    [failed_videos] counter, so the terminal equation has nothing to read. *)
Lemma finished_has_no_failed_counter :
  isComplete finished = true /\
  ~ carries_balanced_counters (state_object finished).
Proof.
  split; [reflexivity|].
  intros [c [f [t [_ [Hf _]]]]]. vm_compute in Hf. discriminate Hf.
Qed.

(** C3 (amended): every [ProgressState] carries the two counters
    [total_videos] and [completed_videos] and no [failed_videos]: its fields
    are the fifteen of the interface, and the object reads back as the same
    state whatever the two counters are. *)
Theorem snapshot_counters (s : ProgressState) :
  as_number (state_object s !! "total_videos") = Some (total_videos s) /\
  as_number (state_object s !! "completed_videos") = Some (completed_videos s) /\
  state_object s !! "failed_videos" = None /\
  dom (state_object s) = list_to_set ProgressState_fields /\
  as_ProgressState (state_object s) = Some s.
Proof.
  split; [reflexivity|]. split; [reflexivity|]. split; [reflexivity|].
  split; [apply state_object_dom|apply as_ProgressState_object].
Qed.

(** ** Actions of the store *)

Lemma store_initial_state :
  state useProgressStore = state_object initialProgressState.
Proof. unfold useProgressStore. cbn [state]. apply (right_id_L ∅ (∪)). Qed.

(** A message carrying a stage and one counter only. *)
Definition stage_message : gmap string Value :=
  {[ "stage" := VStr "processing"; "total_videos" := VNum 2 ]}.

(** C10: after [updateFromWebSocket] every field present in the message has
    the incoming value, every other field of the state keeps its value and
    no field appears that neither had; [wsConnected] is unchanged; [reset]
    puts back exactly the initial progress state and leaves [wsConnected]. *)
Theorem updateFromWebSocket_frame
    (data : gmap string Value) (st : Store) :
  (forall k v, data !! k = Some v ->
     state (updateFromWebSocket data st) !! k = Some v) /\
  (forall k, data !! k = None ->
     state (updateFromWebSocket data st) !! k = state st !! k) /\
  wsConnected (updateFromWebSocket data st) = wsConnected st /\
  state (reset st) = state useProgressStore /\
  as_ProgressState (state (reset st)) = Some initialProgressState /\
  wsConnected (reset st) = wsConnected st.
Proof.
  unfold updateFromWebSocket, reset. cbn [state wsConnected].
  split; [|split; [|split; [|split; [|split]]]].
  - intros k v Hk. apply lookup_union_Some_l. exact Hk.
  - intros k Hk. apply lookup_union_r. exact Hk.
  - reflexivity.
  - reflexivity.
  - rewrite (right_id_L ∅ (∪)). apply as_ProgressState_object.
  - reflexivity.
Qed.

Lemma updateFromWebSocket_frame_witness :
  state (updateFromWebSocket stage_message useProgressStore) !! "stage"
    = Some (VStr "processing") /\
  state (updateFromWebSocket stage_message useProgressStore) !! "batch_size"
    = state useProgressStore !! "batch_size".
Proof.
  destruct (updateFromWebSocket_frame stage_message useProgressStore)
    as [Hin [Hout _]].
  split; [apply Hin|apply Hout]; reflexivity.
Defined.

(** A partial message applied to a typed state gives the typed state with
    those fields replaced: here the stage and the total. *)
Example update_initial_with_stage_message :
  as_ProgressState (state (updateFromWebSocket stage_message useProgressStore))
  = Some {|
      stage := processing;
      current_video := None;
      video_index := 0;
      total_videos := 2;
      tokens_generated := 0;
      tokens_per_sec := 0;
      model_loaded := false;
      vram_used_gb := 0;
      substage := sub_idle;
      substage_progress := 0;
      error_message := None;
      elapsed_time := 0;
      batch_size := 1;
      workers := [];
      completed_videos := 0
    |}.
Proof. vm_compute. reflexivity. Qed.

(** [setWsConnected] is the only action that writes the flag, and it leaves
    the progress state alone. *)
Lemma setWsConnected_frame (b : bool) (st : Store) :
  wsConnected (setWsConnected b st) = b /\
  state (setWsConnected b st) = state st.
Proof. split; reflexivity. Qed.

(** ** The processing calls of the client *)

(** The stop call reads the [success] field only: the answer documented
    with the two counters and no [success] field yields [false]. *)
Example stopProcessing_reads_success_only :
  stopProcessing (Some {| ok := true; json := Some (VObj {[
      "message" := VStr "Processing stopped";
      "videos_completed" := VNum 5;
      "videos_remaining" := VNum 3 ]}) |}) = VBool false /\
  stopProcessing (Some {| ok := true; json := Some (VObj {[
      "success" := VBool true;
      "message" := VStr "Processing stopped" ]}) |}) = VBool true.
Proof. split; reflexivity. Qed.

(** A start call answered with a conflict (a response that is not [ok])
    returns [null] to the caller. *)
Lemma startProcessing_conflict (body : option Value) :
  startProcessing (Some {| ok := false; json := body |}) = None.
Proof. reflexivity. Qed.

End ProgressStore.

(** * Properties of the Processing Manager *)

Module ManagerProps.

Import Manager.

Section Run.

Variables extract_frames generate_caption persist_caption : string -> Outcome.
Variable policy : StopPolicy.

Local Abbreviation step :=
  (Manager.step extract_frames generate_caption persist_caption policy).
Local Abbreviation run :=
  (Manager.run extract_frames generate_caption persist_caption policy).
Local Abbreviation do_pull := (Manager.do_pull).
Local Abbreviation do_advance :=
  (Manager.do_advance extract_frames generate_caption persist_caption policy).
Local Abbreviation pipeline_step :=
  (Manager.pipeline_step extract_frames generate_caption persist_caption).
Local Abbreviation boundary :=
  (Manager.boundary extract_frames generate_caption persist_caption policy).

(** ** Counters *)

Lemma count_partition (ts : list Task) :
  (count_tasks is_done ts
   + count_tasks (fun s => negb (is_final s)) ts
   + count_tasks is_failed ts = length ts)%nat.
Proof.
  unfold count_tasks. induction ts as [|t ts IH]; [reflexivity|].
  cbn [List.filter]. destruct (status t); cbn; lia.
Qed.

Lemma counters_sum (m : Manager) :
  (completed m + remaining m + failed m = total m)%nat.
Proof. apply count_partition. Qed.

(** ** The Aggregator's transitions keep the pool *)

Lemma settle_tasks (m : Manager) : tasks (settle m) = tasks m.
Proof.
  unfold settle. destruct (stage m); try reflexivity.
  destruct (_ && _); [reflexivity|]. destruct (_ && _); reflexivity.
Qed.

Lemma settle_workers (m : Manager) : workers (settle m) = workers m.
Proof.
  unfold settle. destruct (stage m); try reflexivity.
  destruct (_ && _); [reflexivity|]. destruct (_ && _); reflexivity.
Qed.

Lemma settle_cancel (m : Manager) : cancel (settle m) = cancel m.
Proof.
  unfold settle. destruct (stage m); try reflexivity.
  destruct (_ && _); [reflexivity|]. destruct (_ && _); reflexivity.
Qed.

Lemma settle_counters (m : Manager) :
  completed (settle m) = completed m /\
  remaining (settle m) = remaining m /\
  failed (settle m) = failed m /\
  total (settle m) = total m.
Proof. unfold completed, remaining, failed, total. rewrite settle_tasks. tauto. Qed.

(** ** Start while a Job is active *)

(** C6: a StartRequest received while a Job is loading its models or
    processing is answered with a job conflict and leaves the manager as it
    was; nothing of the request is kept, so every later run is the run the
    manager would have made without it. *)
Theorem start_while_active_rejected (m : Manager) (req : StartRequest) :
  is_active (stage m) = true ->
  step m (Start req) = (m, Rejected JobConflict) /\
  forall evs, run (fst (step m (Start req))) evs = run m evs.
Proof.
  intros Hact. assert (H : step m (Start req) = (m, Rejected JobConflict)).
  { cbn [Manager.step]. rewrite Hact. reflexivity. }
  split; [exact H|]. intros evs. rewrite H. reflexivity.
Qed.

(** Outside an active Job the request is accepted and replaces the Job. *)
Lemma start_accepted (m : Manager) (req : StartRequest) :
  is_active (stage m) = false ->
  step m (Start req)
  = (new_job req, StartResponse true (length (video_names req))).
Proof. intros Hact. cbn [Manager.step]. rewrite Hact. reflexivity. Qed.

(** ** Stop *)

(** Stopping when no Job is active is rejected with no change. *)
Lemma stop_when_idle_rejected (m : Manager) :
  is_active (stage m) = false -> step m Stop = (m, Rejected NotRunning).
Proof. intros Hact. cbn [Manager.step]. rewrite Hact. reflexivity. Qed.

(** ** Queue exclusivity *)

(** Worker [w] holds the task at position [i]. *)
Definition holder (ws : list Worker) (w i : nat) : Prop :=
  exists wk, ws !! w = Some wk /\ current_task wk = Some i.

(** No task is held by two workers. *)
Definition exclusive (m : Manager) : Prop :=
  forall w1 w2 i,
    holder (workers m) w1 i -> holder (workers m) w2 i -> w1 = w2.

(** The pool invariant: what a worker holds is a task in a held status
    assigned to that worker, and every task in a held status has a holder. *)
Definition pool_ok (ts : list Task) (ws : list Worker) : Prop :=
  (forall w i, holder ws w i ->
     exists t, ts !! i = Some t /\ is_held (status t) = true
               /\ assigned_worker t = Some w) /\
  (forall i t, ts !! i = Some t -> is_held (status t) = true ->
     exists w, holder ws w i).

Lemma held_not_final (s : TaskStatus) : is_held s = true -> is_final s = false.
Proof. destruct s; simpl; congruence. Qed.

Lemma holder_insert_eq (ws : list Worker) (w i : nat) (wk : Worker) :
  holder (<[w := wk]> ws) w i -> current_task wk = Some i.
Proof.
  intros [wk' [Hl Hc]]. apply list_lookup_insert_Some in Hl.
  destruct Hl as [(_ & <- & _)|[Hne _]]; [exact Hc|congruence].
Qed.

Lemma holder_insert_ne (ws : list Worker) (w w' i : nat) (wk : Worker) :
  w <> w' -> holder (<[w := wk]> ws) w' i <-> holder ws w' i.
Proof.
  intros Hne. unfold holder. rewrite list_lookup_insert_ne by exact Hne.
  reflexivity.
Qed.

Lemma holder_insert_new (ws : list Worker) (w i : nat) (wk0 wk : Worker) :
  ws !! w = Some wk0 -> current_task wk = Some i ->
  holder (<[w := wk]> ws) w i.
Proof.
  intros Hl Hc. exists wk. split; [|exact Hc].
  apply list_lookup_insert_eq. eapply lookup_lt_Some, Hl.
Qed.

Lemma pool_ok_pull ts ws (w i : nat) (wk : Worker) (t : Task) :
  pool_ok ts ws ->
  ws !! w = Some wk -> current_task wk = None ->
  ts !! i = Some t -> status t = Queued ->
  pool_ok (<[i := assign w t]> ts) (<[w := hold i wk]> ws).
Proof.
  intros [Hheld Hhas] Hw Hfree Hi Hq. split.
  - intros w' i' Hh. destruct (decide (w = w')) as [<-|Hne].
    + apply holder_insert_eq in Hh. injection Hh as <-.
      exists (assign w t). split; [|split; reflexivity].
      apply list_lookup_insert_eq. eapply lookup_lt_Some, Hi.
    + apply holder_insert_ne in Hh; [|exact Hne].
      destruct (Hheld _ _ Hh) as (t' & Ht' & Hs & Ha).
      exists t'. split; [|split; assumption].
      rewrite list_lookup_insert_ne; [exact Ht'|].
      intros <-. rewrite Hi in Ht'. injection Ht' as <-.
      rewrite Hq in Hs. discriminate Hs.
  - intros j tj Hj Hs. destruct (decide (i = j)) as [<-|Hne].
    + exists w. eapply holder_insert_new; [exact Hw|reflexivity].
    + rewrite list_lookup_insert_ne in Hj by exact Hne.
      destruct (Hhas _ _ Hj Hs) as [w0 Hh]. exists w0.
      apply holder_insert_ne; [|exact Hh].
      intros <-. destruct Hh as (wk0 & Hl & Hc). congruence.
Qed.

Lemma pool_ok_advance ts ws (w i : nat) (wk : Worker) (t t' : Task) :
  pool_ok ts ws ->
  ws !! w = Some wk -> current_task wk = Some i -> ts !! i = Some t ->
  assigned_worker t' = assigned_worker t ->
  is_final (status t') || is_held (status t') = true ->
  pool_ok (<[i := t']> ts)
    (<[w := if is_final (status t') then release wk
            else report (status t') wk]> ws).
Proof.
  intros [Hheld Hhas] Hw Hcur Hi Hsame Hst.
  assert (Hmine : holder ws w i) by (exists wk; split; assumption).
  destruct (Hheld _ _ Hmine) as (t0 & Ht0 & _ & Ha0).
  assert (t0 = t) as -> by congruence.
  assert (Hlen : (i < length ts)%nat) by (eapply lookup_lt_Some, Hi).
  split.
  - intros w' i' Hh. destruct (decide (w = w')) as [<-|Hne].
    + apply holder_insert_eq in Hh.
      destruct (is_final (status t')) eqn:Hfin; [discriminate Hh|].
      cbn in Hh. rewrite Hcur in Hh. injection Hh as <-.
      exists t'. split; [apply list_lookup_insert_eq, Hlen|].
      split; [exact Hst|congruence].
    + apply holder_insert_ne in Hh; [|exact Hne].
      destruct (Hheld _ _ Hh) as (t1 & Ht1 & Hs1 & Ha1).
      exists t1. split; [|split; assumption].
      rewrite list_lookup_insert_ne; [exact Ht1|].
      intros <-. congruence.
  - intros j tj Hj Hs. destruct (decide (i = j)) as [<-|Hne].
    + rewrite list_lookup_insert_eq in Hj by exact Hlen. injection Hj as <-.
      rewrite (held_not_final _ Hs). exists w.
      eapply holder_insert_new; [exact Hw|exact Hcur].
    + rewrite list_lookup_insert_ne in Hj by exact Hne.
      destruct (Hhas _ _ Hj Hs) as [w0 Hh]. exists w0.
      apply holder_insert_ne; [|exact Hh].
      intros <-. destruct Hh as (wk0 & Hl & Hc). congruence.
Qed.

Lemma pool_ok_leave ts ws (w : nat) (wk : Worker) :
  pool_ok ts ws ->
  ws !! w = Some wk -> current_task wk = None ->
  pool_ok ts (<[w := leave wk]> ws).
Proof.
  intros [Hheld Hhas] Hw Hfree. split.
  - intros w' i' Hh. destruct (decide (w = w')) as [<-|Hne].
    + apply holder_insert_eq in Hh. discriminate Hh.
    + apply holder_insert_ne in Hh; [|exact Hne]. apply Hheld, Hh.
  - intros j tj Hj Hs. destruct (Hhas _ _ Hj Hs) as [w0 Hh]. exists w0.
    apply holder_insert_ne; [|exact Hh].
    intros <-. destruct Hh as (wk0 & Hl & Hc). congruence.
Qed.

(** ** What a worker event does to the pool *)

Lemma boundary_status (flag : bool) (t : Task) :
  is_held (status t) = true ->
  is_final (status (boundary flag t)) || is_held (status (boundary flag t))
  = true.
Proof.
  unfold Manager.boundary, Manager.pipeline_step.
  destruct policy, flag, (status t); simpl; try discriminate; try reflexivity;
    repeat match goal with
           | |- context [match ?f (video_name t) with _ => _ end] =>
               destruct (f (video_name t))
           end; reflexivity.
Qed.

Lemma boundary_assigned (flag : bool) (t : Task) :
  assigned_worker (boundary flag t) = assigned_worker t.
Proof.
  unfold Manager.boundary, Manager.pipeline_step.
  destruct policy, flag, (status t); simpl; try reflexivity;
    repeat match goal with
           | |- context [match ?f (video_name t) with _ => _ end] =>
               destruct (f (video_name t))
           end; reflexivity.
Qed.

Lemma boundary_name (flag : bool) (t : Task) :
  video_name (boundary flag t) = video_name t.
Proof.
  unfold Manager.boundary, Manager.pipeline_step.
  destruct policy, flag, (status t); simpl; try reflexivity;
    repeat match goal with
           | |- context [match ?f (video_name t) with _ => _ end] =>
               destruct (f (video_name t))
           end; reflexivity.
Qed.

Lemma boundary_not_queued (flag : bool) (t : Task) :
  status t <> Queued -> status (boundary flag t) <> Queued.
Proof.
  intros Hq. unfold Manager.boundary, Manager.pipeline_step.
  destruct policy, flag, (status t) eqn:Hs; simpl; try congruence;
    repeat match goal with
           | |- context [match ?f (video_name t) with _ => _ end] =>
               destruct (f (video_name t))
           end; simpl; congruence.
Qed.

(** The pool after a worker event, before the Aggregator settles the stage:
    a successful pull, a pull on an empty queue, a pull refused by the
    cancellation flag, and a stage boundary crossed. *)
Inductive effect (m : Manager) :
  Event -> list Task -> list Worker -> Response -> Prop :=
| eff_pull w wk i t :
    workers m !! w = Some wk -> exited wk = false ->
    current_task wk = None -> cancel m = false ->
    tasks m !! i = Some t -> status t = Queued ->
    (forall j tj, tasks m !! j = Some tj -> (j < i)%nat -> status tj <> Queued) ->
    effect m (Pull w) (<[i := assign w t]> (tasks m))
      (<[w := hold i wk]> (workers m)) (Pulled (Some i))
| eff_empty w wk :
    workers m !! w = Some wk -> exited wk = false ->
    current_task wk = None -> cancel m = false ->
    Forall (fun t => status t <> Queued) (tasks m) ->
    effect m (Pull w) (tasks m) (<[w := leave wk]> (workers m)) (Pulled None)
| eff_cancelled w wk :
    workers m !! w = Some wk -> exited wk = false ->
    current_task wk = None -> cancel m = true ->
    effect m (Pull w) (tasks m) (<[w := leave wk]> (workers m)) Ack
| eff_advance w wk i t :
    workers m !! w = Some wk -> current_task wk = Some i ->
    tasks m !! i = Some t ->
    effect m (Advance w) (<[i := boundary (cancel m) t]> (tasks m))
      (<[w := if is_final (status (boundary (cancel m) t)) then release wk
              else report (status (boundary (cancel m) t)) wk]> (workers m))
      Ack.

(** What [step] does to the pool: a Job replaced, nothing, or the effect
    of a worker event during [Processing]. *)
Inductive pool_step (m : Manager) (e : Event) (m' : Manager) (r : Response) :
  Prop :=
| ps_start req :
    e = Start req -> is_active (stage m) = false -> m' = new_job req ->
    r = StartResponse true (length (video_names req)) ->
    pool_step m e m' r
| ps_keep :
    tasks m' = tasks m -> workers m' = workers m ->
    (forall i, r <> Pulled (Some i)) ->
    pool_step m e m' r
| ps_worker ts ws :
    stage m = Processing -> effect m e ts ws r ->
    m' = settle (set_pool ts ws m) ->
    pool_step m e m' r.

Lemma set_pool_fields ts ws (m : Manager) :
  tasks (set_pool ts ws m) = ts /\ workers (set_pool ts ws m) = ws /\
  cancel (set_pool ts ws m) = cancel m /\ stage (set_pool ts ws m) = stage m.
Proof. repeat split. Qed.

Lemma remaining_pos (ts : list Task) (i : nat) (t : Task) :
  ts !! i = Some t -> is_final (status t) = false ->
  count_tasks (fun s => negb (is_final s)) ts <> 0%nat.
Proof.
  intros Hi Hnf. unfold count_tasks.
  assert (Hin : In t (List.filter (fun t => negb (is_final (status t))) ts)).
  { apply filter_In. split.
    - apply list_elem_of_In. eapply list_elem_of_lookup_2, Hi.
    - rewrite Hnf. reflexivity. }
  destruct (List.filter _ ts); [destruct Hin|discriminate].
Qed.

(** After a successful pull nothing is left to settle: a task is pending
    and the flag is not set. *)
Lemma settle_after_pull (m : Manager) ws (w i : nat) (t : Task) :
  cancel m = false -> tasks m !! i = Some t ->
  settle (set_pool (<[i := assign w t]> (tasks m)) ws m)
  = set_pool (<[i := assign w t]> (tasks m)) ws m.
Proof.
  intros Hc Hi. unfold settle. cbn [set_pool stage cancel].
  destruct (stage m); try reflexivity. rewrite Hc.
  destruct (Nat.eqb_spec
              (remaining (set_pool (<[i := assign w t]> (tasks m)) ws m)) 0)
    as [H0|H0]; [|reflexivity].
  exfalso. revert H0. unfold remaining. cbn [set_pool tasks].
  apply remaining_pos with (i := i) (t := assign w t); [|reflexivity].
  apply list_lookup_insert_eq. eapply lookup_lt_Some, Hi.
Qed.

(** A worker event changes nothing, or has an effect during
    [Processing] that the Aggregator then settles. *)
Definition worker_cases (m : Manager) (e : Event) (mr : Manager * Response) :
  Prop :=
  mr = (m, Ack) \/
  (stage m = Processing /\
   exists ts ws r,
     effect m e ts ws r /\ mr = (settle (set_pool ts ws m), r)).

Lemma do_pull_cases (w : nat) (m : Manager) :
  stage m = Processing -> worker_cases m (Pull w) (do_pull w m).
Proof.
  intros Hst. unfold Manager.do_pull.
  destruct (workers m !! w) as [wk|] eqn:Hw; [|now left].
  destruct (exited wk) eqn:Hex; [now left|].
  unfold is_free. destruct (current_task wk) as [i|] eqn:Hcur; [now left|].
  cbn [orb negb]. right. split; [exact Hst|].
  destruct (cancel m) eqn:Hc.
  { eexists _, _, _. split; [|reflexivity]. now apply eff_cancelled. }
  unfold Manager.pull.
  destruct (list_find _ (tasks m)) as [[i t]|] eqn:Hfind.
  - apply list_find_Some in Hfind. destruct Hfind as (Hi & Hq & Hmin).
    exists (<[i := assign w t]> (tasks m)), (<[w := hold i wk]> (workers m)),
      (Pulled (Some i)).
    split; [now apply eff_pull|].
    rewrite settle_after_pull by assumption. reflexivity.
  - apply list_find_None in Hfind.
    eexists _, _, _. split; [|reflexivity]. now apply eff_empty.
Qed.

Lemma do_advance_cases (w : nat) (m : Manager) :
  stage m = Processing -> worker_cases m (Advance w) (do_advance w m, Ack).
Proof.
  intros Hst. unfold Manager.do_advance.
  destruct (workers m !! w) as [wk|] eqn:Hw; [|now left].
  destruct (current_task wk) as [i|] eqn:Hcur; [|now left].
  destruct (tasks m !! i) as [t|] eqn:Hi; [|now left].
  right. split; [exact Hst|].
  eexists _, _, _. split; [|reflexivity]. now apply eff_advance.
Qed.

Lemma pull_cases (w : nat) (m : Manager) :
  worker_cases m (Pull w) (step m (Pull w)).
Proof.
  cbn [Manager.step]. destruct (stage m) eqn:Hst; try now left.
  apply do_pull_cases, Hst.
Qed.

Lemma advance_cases (w : nat) (m : Manager) :
  worker_cases m (Advance w) (step m (Advance w)).
Proof.
  cbn [Manager.step]. destruct (stage m) eqn:Hst; try now left.
  apply do_advance_cases, Hst.
Qed.

Lemma worker_cases_pool_step m e mr :
  worker_cases m e mr -> pool_step m e (fst mr) (snd mr).
Proof.
  intros [->|(Hst & ts & ws & r & Heff & Hm)].
  - apply ps_keep; cbn; congruence.
  - rewrite Hm. eapply ps_worker; [exact Hst|exact Heff|reflexivity].
Qed.

Lemma step_pool_step (m : Manager) (e : Event) :
  pool_step m e (fst (step m e)) (snd (step m e)).
Proof.
  destruct e as [req| |msg| |w|w].
  - cbn [Manager.step]. destruct (is_active (stage m)) eqn:Hact.
    + apply ps_keep; cbn; congruence.
    + eapply ps_start; [reflexivity|exact Hact|reflexivity|reflexivity].
  - cbn [Manager.step].
    destruct (stage m); try (apply ps_keep; cbn; congruence).
    apply ps_keep; cbn [fst snd];
      [rewrite settle_tasks|rewrite settle_workers|];
      try reflexivity; congruence.
  - cbn [Manager.step].
    destruct (is_active (stage m)); apply ps_keep; cbn; congruence.
  - cbn [Manager.step].
    destruct (is_active (stage m)); [|apply ps_keep; cbn; congruence].
    apply ps_keep; cbn [fst snd];
      [rewrite settle_tasks|rewrite settle_workers|];
      try reflexivity; congruence.
  - apply worker_cases_pool_step, pull_cases.
  - apply worker_cases_pool_step, advance_cases.
Qed.

(** ** The pool invariant along a run *)

Definition inv (m : Manager) : Prop := pool_ok (tasks m) (workers m).

Lemma new_job_inv (req : StartRequest) : inv (new_job req).
Proof.
  split; cbn [new_job tasks workers].
  - intros w i (wk & Hl & Hc). rewrite list_lookup_fmap in Hl.
    destruct (devices req !! w); [|discriminate Hl].
    injection Hl as <-. discriminate Hc.
  - intros i t Hl Hs. unfold enqueue in Hl. rewrite list_lookup_fmap in Hl.
    destruct (video_names req !! i); [|discriminate Hl].
    injection Hl as <-. discriminate Hs.
Qed.

Lemma init_inv : inv init.
Proof.
  split; cbn.
  - intros w i (wk & Hl & _). rewrite lookup_nil in Hl. discriminate Hl.
  - intros i t Hl. rewrite lookup_nil in Hl. discriminate Hl.
Qed.

Lemma effect_inv m e ts ws r : inv m -> effect m e ts ws r -> pool_ok ts ws.
Proof.
  intros Hinv Heff. destruct Heff as
    [w wk i t Hw Hex Hcur Hc Hi Hq Hmin|w wk Hw Hex Hcur Hc Hall
    |w wk Hw Hex Hcur Hc|w wk i t Hw Hcur Hi].
  - now apply pool_ok_pull.
  - now apply pool_ok_leave.
  - now apply pool_ok_leave.
  - assert (Hheld : is_held (status t) = true).
    { destruct Hinv as [Hheld _].
      destruct (Hheld w i) as (t0 & Ht0 & Hs & _); [now exists wk|].
      congruence. }
    apply pool_ok_advance with (t := t); try assumption.
    + apply boundary_assigned.
    + apply boundary_status, Hheld.
Qed.

Lemma step_inv (m : Manager) (e : Event) : inv m -> inv (fst (step m e)).
Proof.
  intros Hinv.
  destruct (step_pool_step m e) as [req _ _ -> _|Ht Hw _|ts ws _ Heff Hm].
  - apply new_job_inv.
  - unfold inv. rewrite Ht, Hw. exact Hinv.
  - unfold inv. rewrite Hm, settle_tasks, settle_workers.
    cbn [set_pool tasks workers]. eapply effect_inv; eassumption.
Qed.

Lemma run_cons (m : Manager) (e : Event) (evs : list Event) :
  run m (e :: evs)
  = (fst (run (fst (step m e)) evs),
     snd (step m e) :: snd (run (fst (step m e)) evs)).
Proof.
  cbn [Manager.run]. destruct (step m e) as [m1 r]. cbn [fst snd].
  destruct (Manager.run _ _ _ _ m1 evs) as [m2 rs]. reflexivity.
Qed.

Lemma run_inv (evs : list Event) (m : Manager) :
  inv m -> inv (fst (run m evs)).
Proof.
  revert m. induction evs as [|e evs IH]; intros m Hinv; [exact Hinv|].
  rewrite run_cons. cbn [fst]. apply IH, step_inv, Hinv.
Qed.

Lemma inv_exclusive (m : Manager) : inv m -> exclusive m.
Proof.
  intros [Hheld _] w1 w2 i H1 H2.
  destruct (Hheld _ _ H1) as (t1 & Ht1 & _ & Ha1).
  destruct (Hheld _ _ H2) as (t2 & Ht2 & _ & Ha2).
  congruence.
Qed.

(** ** No task is handed out twice *)

(** The task at position [i] has left the queue. *)
Definition taken (ts : list Task) (i : nat) : Prop :=
  exists t, ts !! i = Some t /\ status t <> Queued.

(** The events of one Job: no [Start] among them. *)
Definition within_job (evs : list Event) : Prop :=
  Forall (fun e => match e with Start _ => False | _ => True end) evs.

Lemma taken_insert ts (i j : nat) (t' : Task) :
  taken ts j -> (i = j -> status t' <> Queued) -> taken (<[i := t']> ts) j.
Proof.
  intros (t & Ht & Hs) Hnew. destruct (decide (i = j)) as [<-|Hne].
  - exists t'. split; [|auto].
    apply list_lookup_insert_eq. eapply lookup_lt_Some, Ht.
  - exists t. split; [|exact Hs]. now rewrite list_lookup_insert_ne.
Qed.

Lemma effect_taken m e ts ws r (j : nat) :
  effect m e ts ws r -> taken (tasks m) j -> taken ts j.
Proof.
  intros Heff Hj. destruct Heff as
    [w wk i t Hw Hex Hcur Hc Hi Hq Hmin|w wk Hw Hex Hcur Hc Hall
    |w wk Hw Hex Hcur Hc|w wk i t Hw Hcur Hi]; try exact Hj.
  - apply taken_insert; [exact Hj|]. intros _. discriminate.
  - apply taken_insert; [exact Hj|]. intros <-.
    apply boundary_not_queued. destruct Hj as (t0 & Ht0 & Hs). congruence.
Qed.

Lemma effect_pulled m e ts ws r (j : nat) :
  effect m e ts ws r -> r = Pulled (Some j) ->
  ~ taken (tasks m) j /\ taken ts j.
Proof.
  intros Heff Hr. destruct Heff as
    [w wk i t Hw Hex Hcur Hc Hi Hq Hmin|w wk Hw Hex Hcur Hc Hall
    |w wk Hw Hex Hcur Hc|w wk i t Hw Hcur Hi]; try discriminate Hr.
  injection Hr as <-. split.
  - intros (t0 & Ht0 & Hs). congruence.
  - exists (assign w t). split; [|discriminate].
    apply list_lookup_insert_eq. eapply lookup_lt_Some, Hi.
Qed.

Lemma step_taken (m : Manager) (e : Event) (j : nat) :
  within_job [e] -> taken (tasks m) j -> taken (tasks (fst (step m e))) j.
Proof.
  intros Hjob Hj.
  destruct (step_pool_step m e) as [req -> _ _ _|Ht _ _|ts ws _ Heff Hm].
  - apply Forall_cons in Hjob. destruct Hjob as [[] _].
  - rewrite Ht. exact Hj.
  - rewrite Hm, settle_tasks. cbn [set_pool tasks].
    eapply effect_taken; eassumption.
Qed.

Lemma step_pulled (m : Manager) (e : Event) (j : nat) :
  snd (step m e) = Pulled (Some j) ->
  ~ taken (tasks m) j /\ taken (tasks (fst (step m e))) j.
Proof.
  intros Hr.
  destruct (step_pool_step m e) as [req _ _ _ Hs|_ _ Hno|ts ws _ Heff Hm].
  - rewrite Hs in Hr. discriminate Hr.
  - destruct (Hno j Hr).
  - rewrite Hm, settle_tasks. cbn [set_pool tasks].
    eapply effect_pulled; eassumption.
Qed.

Lemma pulled_tasks_cons (r : Response) (rs : list Response) :
  pulled_tasks (r :: rs)
  = match r with
    | Pulled (Some i) => i :: pulled_tasks rs
    | _ => pulled_tasks rs
    end.
Proof. destruct r as [| | |[i|]|]; reflexivity. Qed.

Lemma run_pulls_fresh (evs : list Event) (m : Manager) :
  within_job evs ->
  NoDup (pulled_tasks (snd (run m evs))) /\
  forall j, j ∈ pulled_tasks (snd (run m evs)) -> ~ taken (tasks m) j.
Proof.
  revert m. induction evs as [|e evs IH]; intros m Hjob.
  { split; [constructor|]. intros j Hj. cbn in Hj. inversion Hj. }
  apply Forall_cons in Hjob. destruct Hjob as [He Hjob].
  rewrite run_cons. cbn [snd]. rewrite pulled_tasks_cons.
  destruct (IH (fst (step m e)) Hjob) as [Hnd Hfresh].
  assert (Hmono : forall j, j ∈ pulled_tasks (snd (run (fst (step m e)) evs))
                            -> ~ taken (tasks m) j).
  { intros j Hj Ht. apply (Hfresh j Hj).
    apply step_taken; [|exact Ht]. constructor; [exact He|constructor]. }
  destruct (snd (step m e)) as [| | |[i|]|] eqn:Hr; try (split; assumption).
  destruct (step_pulled m e i Hr) as [Hnot Hnow]. split.
  - constructor; [|exact Hnd]. intros Hin. exact (Hfresh i Hin Hnow).
  - intros j Hj. apply elem_of_cons in Hj. destruct Hj as [->|Hj]; auto.
Qed.

(** C7: whatever the number of workers and however their [pull()] calls and
    other events interleave, no two workers hold the same task at any point
    of a run, and within a Job no task is handed out by [pull()] twice. *)
Theorem queue_exclusive (req : StartRequest) (evs : list Event) :
  exclusive (fst (run init evs)) /\
  exclusive (fst (run (new_job req) evs)) /\
  (within_job evs -> NoDup (pulled_tasks (snd (run (new_job req) evs)))).
Proof.
  split; [|split].
  - apply inv_exclusive, run_inv, init_inv.
  - apply inv_exclusive, run_inv, new_job_inv.
  - intros Hjob. apply run_pulls_fresh, Hjob.
Qed.

(** ** A Job run by the scheduler alone *)

(** The events of an undisturbed Job: the models become ready and the
    workers run; nobody stops it and nothing fatal happens. *)
Definition scheduled (evs : list Event) : Prop :=
  Forall (fun e => match e with
                   | ModelsReady | Pull _ | Advance _ => True
                   | _ => False
                   end) evs.

Definition decodes (v : string) : bool :=
  match extract_frames v with Ok => true | Raises _ => false end.

(** Every stage of the pipeline succeeds on the video. *)
Definition pipeline_ok (v : string) : bool :=
  match extract_frames v, generate_caption v, persist_caption v with
  | Ok, Ok, Ok => true
  | _, _, _ => false
  end.

(** A task's status agrees with what the collaborators return for it. *)
Definition outcome_ok (t : Task) : Prop :=
  match status t with
  | Encoding | Generating => decodes (video_name t) = true
  | Done => pipeline_ok (video_name t) = true
  | Failed => pipeline_ok (video_name t) = false
  | _ => True
  end.

(** The pool of an undisturbed Job of request [req]: the flag is not set,
    the tasks are the requested videos with outcomes as the collaborators
    give them, there is one worker per device, and no worker has left while
    a task is still queued. *)
Record job_pool (req : StartRequest) (m : Manager) : Prop := {
  jp_pool : inv m;
  jp_cancel : cancel m = false;
  jp_names : map video_name (tasks m) = video_names req;
  jp_outcome : Forall outcome_ok (tasks m);
  jp_workers : length (workers m) = length (devices req);
  jp_queue :
    (exists i t, tasks m !! i = Some t /\ status t = Queued) ->
    Forall (fun wk => exited wk = false) (workers m)
}.

(** The invariant of an undisturbed Job: its pool, and a stage that is
    [Complete] exactly when nothing remains. *)
Definition job_inv (req : StartRequest) (m : Manager) : Prop :=
  job_pool req m /\
  (stage m = LoadingModel \/
   (stage m = Processing /\ remaining m <> 0%nat) \/
   (stage m = Complete /\ remaining m = 0%nat)).

Lemma inv_free_when_done (m : Manager) :
  inv m -> remaining m = 0%nat -> no_worker_active m = true.
Proof.
  intros [Hheld _] Hrem. unfold no_worker_active.
  apply forallb_forall. intros wk Hin.
  apply list_elem_of_In, list_elem_of_lookup in Hin. destruct Hin as [w Hw].
  unfold is_free. destruct (current_task wk) as [i|] eqn:Hcur; [|reflexivity].
  destruct (Hheld w i) as (t & Ht & Hs & _); [now exists wk|].
  exfalso. eapply remaining_pos; [exact Ht|apply held_not_final, Hs|exact Hrem].
Qed.

Lemma settle_undisturbed (m : Manager) :
  inv m -> cancel m = false -> stage m = Processing ->
  (remaining m = 0%nat /\ settle m = set_stage Complete m) \/
  (remaining m <> 0%nat /\ settle m = m).
Proof.
  intros Hinv Hc Hst. unfold settle. rewrite Hst, Hc.
  destruct (Nat.eqb_spec (remaining m) 0) as [H0|H0].
  - left. split; [exact H0|]. rewrite (inv_free_when_done m Hinv H0).
    reflexivity.
  - right. split; [exact H0|]. reflexivity.
Qed.

Lemma names_insert (ts : list Task) (i : nat) (t t' : Task) :
  ts !! i = Some t -> video_name t' = video_name t ->
  map video_name (<[i := t']> ts) = map video_name ts.
Proof.
  intros Hi Hn. change (video_name <$> <[i := t']> ts = video_name <$> ts).
  rewrite list_fmap_insert, Hn. apply list_insert_id.
  rewrite list_lookup_fmap, Hi. reflexivity.
Qed.

Lemma queued_before_insert (ts : list Task) (i : nat) (t' : Task) :
  status t' <> Queued ->
  (exists j t, <[i := t']> ts !! j = Some t /\ status t = Queued) ->
  exists j t, ts !! j = Some t /\ status t = Queued.
Proof.
  intros Hnq (j & t & Hj & Hq). destruct (decide (i = j)) as [<-|Hne].
  - apply list_lookup_insert_Some in Hj.
    destruct Hj as [(_ & <- & _)|[Hne _]]; congruence.
  - rewrite list_lookup_insert_ne in Hj by exact Hne. eauto.
Qed.

Lemma advance_outcome (t : Task) :
  is_held (status t) = true -> outcome_ok t ->
  outcome_ok (boundary false t).
Proof.
  unfold Manager.boundary, Manager.pipeline_step, outcome_ok,
    pipeline_ok, decodes.
  intros Hheld Hok.
  destruct policy, (status t) eqn:Hs; try discriminate Hheld;
    destruct (extract_frames (video_name t)) eqn:Ee;
    destruct (generate_caption (video_name t)) eqn:Eg;
    destruct (persist_caption (video_name t)) eqn:Ep;
    cbn; rewrite ?Ee, ?Eg, ?Ep; solve [exact I|congruence].
Qed.

Lemma job_pool_ext (req : StartRequest) (m m' : Manager) :
  tasks m' = tasks m -> workers m' = workers m -> cancel m' = cancel m ->
  job_pool req m -> job_pool req m'.
Proof.
  intros Ht Hw Hc [H1 H2 H3 H4 H5 H6].
  split; unfold inv; rewrite ?Ht, ?Hw, ?Hc; assumption.
Qed.

Lemma new_job_pool (req : StartRequest) : job_pool req (new_job req).
Proof.
  split.
  - apply new_job_inv.
  - reflexivity.
  - cbn [new_job tasks]. unfold enqueue. rewrite map_map. cbn. apply map_id.
  - cbn [new_job tasks]. unfold enqueue. apply Forall_fmap, Forall_true.
    intros v. exact I.
  - cbn [new_job workers]. apply length_map.
  - intros _. cbn [new_job workers]. apply Forall_fmap, Forall_true.
    intros d. reflexivity.
Qed.

Lemma effect_job_pool (req : StartRequest) m e ts ws r :
  job_pool req m -> effect m e ts ws r -> job_pool req (set_pool ts ws m).
Proof.
  intros Hjp Heff. pose proof Hjp as [Hinv Hc Hnames Hout Hlen Hqueue].
  assert (Hpool : pool_ok ts ws) by (eapply effect_inv; eassumption).
  destruct Heff as
    [w wk i t Hw Hex Hcur _ Hi Hq Hmin|w wk Hw Hex Hcur _ Hall
    |w wk Hw Hex Hcur Hc'|w wk i t Hw Hcur Hi].
  - split; cbn [set_pool tasks workers cancel]; try assumption.
    + rewrite <- Hnames. now apply names_insert with (t := t).
    + apply Forall_insert; [exact Hout|exact I].
    + rewrite length_insert. exact Hlen.
    + intros Hsome. apply Forall_insert; [|reflexivity].
      apply Hqueue. eapply queued_before_insert; [|exact Hsome]. discriminate.
  - split; cbn [set_pool tasks workers cancel]; try assumption.
    + rewrite length_insert. exact Hlen.
    + intros (j & tj & Hj & Hqj). exfalso.
      rewrite Forall_forall in Hall. apply (Hall tj); [|exact Hqj].
      eapply list_elem_of_lookup_2, Hj.
  - congruence.
  - assert (Hheld : is_held (status t) = true).
    { destruct Hinv as [Hheld _].
      destruct (Hheld w i) as (t0 & Ht0 & Hs & _); [now exists wk|].
      congruence. }
    rewrite Hc in *.
    split; cbn [set_pool tasks workers cancel]; try assumption.
    + rewrite <- Hnames. apply names_insert with (t := t); [exact Hi|].
      apply boundary_name.
    + apply Forall_insert; [exact Hout|].
      apply advance_outcome; [exact Hheld|].
      rewrite Forall_forall in Hout. apply Hout.
      eapply list_elem_of_lookup_2, Hi.
    + rewrite length_insert. exact Hlen.
    + intros Hsome.
      assert (Hall : Forall (fun wk => exited wk = false) (workers m)).
      { apply Hqueue. eapply queued_before_insert; [|exact Hsome].
        apply boundary_not_queued. destruct (status t); discriminate. }
      apply Forall_insert; [exact Hall|].
      rewrite Forall_forall in Hall.
      assert (exited wk = false)
        by (apply Hall; eapply list_elem_of_lookup_2, Hw).
      destruct (is_final _); assumption.
Qed.

Lemma job_pool_settle (req : StartRequest) (m : Manager) :
  job_pool req m -> stage m = Processing -> job_inv req (settle m).
Proof.
  intros Hjp Hst.
  destruct (settle_undisturbed m (jp_pool _ _ Hjp) (jp_cancel _ _ Hjp) Hst)
    as [[H0 ->]|[H0 ->]].
  - split; [now apply (job_pool_ext req m)|]. right. right. now split.
  - split; [exact Hjp|]. right. left. now split.
Qed.

Lemma new_job_job_inv (req : StartRequest) : job_inv req (new_job req).
Proof. split; [apply new_job_pool|]. left. reflexivity. Qed.

Lemma worker_cases_job_inv (req : StartRequest) m e mr :
  job_inv req m -> worker_cases m e mr -> job_inv req (fst mr).
Proof.
  intros Hji [->|(Hst & ts & ws & r & Heff & ->)]; [exact Hji|].
  cbn [fst]. apply job_pool_settle; [|exact Hst].
  eapply effect_job_pool; [apply Hji|exact Heff].
Qed.

Lemma step_job_inv (req : StartRequest) (m : Manager) (e : Event) :
  scheduled [e] -> job_inv req m -> job_inv req (fst (step m e)).
Proof.
  intros Hsch Hji. apply Forall_cons in Hsch. destruct Hsch as [He _].
  destruct e as [r| |msg| |w|w]; try destruct He.
  - cbn [Manager.step]. destruct (stage m) eqn:Hst; try exact Hji.
    cbn [fst]. apply job_pool_settle; [|reflexivity].
    apply (job_pool_ext req m); try reflexivity. apply Hji.
  - eapply worker_cases_job_inv; [exact Hji|apply pull_cases].
  - eapply worker_cases_job_inv; [exact Hji|apply advance_cases].
Qed.

Lemma run_job_inv (req : StartRequest) (evs : list Event) (m : Manager) :
  scheduled evs -> job_inv req m -> job_inv req (fst (run m evs)).
Proof.
  revert m. induction evs as [|e evs IH]; intros m Hsch Hji; [exact Hji|].
  apply Forall_cons in Hsch. destruct Hsch as [He Hsch].
  rewrite run_cons. cbn [fst]. apply IH; [exact Hsch|].
  apply step_job_inv; [|exact Hji]. constructor; [exact He|constructor].
Qed.

(** ** Counters of a finished Job *)

Lemma final_counts (ts : list Task) :
  Forall outcome_ok ts ->
  count_tasks (fun s => negb (is_final s)) ts = 0%nat ->
  count_tasks is_done ts
  = length (List.filter pipeline_ok (map video_name ts)) /\
  count_tasks is_failed ts
  = length (List.filter (fun v => negb (pipeline_ok v)) (map video_name ts)).
Proof.
  unfold count_tasks. induction ts as [|t ts IH]; intros Hout Hrem.
  { split; reflexivity. }
  apply Forall_cons in Hout. destruct Hout as [Ht Hout].
  cbn [List.filter map] in *. unfold outcome_ok in Ht.
  destruct (status t) eqn:Hs; cbn in Hrem; try discriminate Hrem;
    rewrite Ht; cbn; destruct (IH Hout Hrem) as [-> ->]; split; reflexivity.
Qed.

(** Exactly one requested video fails to decode and the pipeline succeeds on
    every other one. *)
Definition one_corrupted (vs : list string) : Prop :=
  exists i v0,
    vs !! i = Some v0 /\ decodes v0 = false /\
    forall j v, vs !! j = Some v -> j <> i -> pipeline_ok v = true.

Lemma not_decoded_not_ok (v : string) : decodes v = false -> pipeline_ok v = false.
Proof.
  unfold decodes, pipeline_ok. destruct (extract_frames v); [discriminate|].
  reflexivity.
Qed.

Lemma all_ok_counts (vs : list string) :
  (forall j v, vs !! j = Some v -> pipeline_ok v = true) ->
  length (List.filter pipeline_ok vs) = length vs /\
  length (List.filter (fun v => negb (pipeline_ok v)) vs) = 0%nat.
Proof.
  induction vs as [|v vs IH]; intros Hall; [split; reflexivity|].
  cbn [List.filter]. rewrite (Hall 0%nat v eq_refl). cbn.
  destruct IH as [-> ->]; [|split; reflexivity].
  intros j x Hj. exact (Hall (S j) x Hj).
Qed.

Lemma one_corrupted_counts (vs : list string) :
  one_corrupted vs ->
  length (List.filter pipeline_ok vs) = (length vs - 1)%nat /\
  length (List.filter (fun v => negb (pipeline_ok v)) vs) = 1%nat.
Proof.
  intros (i & v0 & Hi & Hbad & Hrest). apply not_decoded_not_ok in Hbad.
  revert i Hi Hrest. induction vs as [|v vs IH]; intros i Hi Hrest.
  { rewrite lookup_nil in Hi. discriminate Hi. }
  destruct i as [|i]; cbn [List.filter].
  - injection Hi as ->. rewrite Hbad. cbn.
    destruct (all_ok_counts vs) as [-> ->]; [|split; lia].
    intros j x Hj. apply (Hrest (S j) x Hj). discriminate.
  - rewrite (Hrest 0%nat v eq_refl) by discriminate. cbn.
    destruct (IH i Hi) as [-> ->].
    + intros j x Hj Hne. apply (Hrest (S j) x Hj). congruence.
    + apply lookup_lt_Some in Hi. cbn in Hi. split; lia.
Qed.

(** ** The work left in a Job *)

(** The stage boundaries a task still has to cross. *)
Definition weight (s : TaskStatus) : nat :=
  match s with
  | Queued => 5
  | Assigned => 4
  | Extracting => 3
  | Encoding => 2
  | Generating => 1
  | Done | Failed => 0
  end.

Definition pending (ts : list Task) : nat :=
  sum_list_with (fun t => weight (status t)) ts.

(** The workers still in their loop. *)
Definition staying (ws : list Worker) : nat :=
  sum_list_with (fun wk => if exited wk then 0%nat else 1%nat) ws.

(** The work left: stage boundaries to cross, workers to leave, and the
    models to load. *)
Definition work_left (m : Manager) : nat :=
  (pending (tasks m) + staying (workers m)
   + match stage m with LoadingModel => 1 | _ => 0 end)%nat.

Lemma sum_insert {A} (f : A -> nat) (l : list A) (i : nat) (x x' : A) :
  l !! i = Some x ->
  (sum_list_with f (<[i := x']> l) + f x = sum_list_with f l + f x')%nat.
Proof.
  revert i. induction l as [|y l IH]; intros i Hi.
  { rewrite lookup_nil in Hi. discriminate Hi. }
  destruct i as [|i]; cbn in Hi.
  - injection Hi as ->. clear IH. cbn. lia.
  - pose proof (IH i Hi) as IH'. clear IH.
    change (f y + sum_list_with f (<[i := x']> l) + f x
            = f y + sum_list_with f l + f x')%nat.
    lia.
Qed.

Lemma pending_insert (ts : list Task) (i : nat) (t t' : Task) :
  ts !! i = Some t ->
  (weight (status t') < weight (status t))%nat ->
  (pending (<[i := t']> ts) < pending ts)%nat.
Proof.
  intros Hi Hlt. unfold pending.
  pose proof (sum_insert (fun t => weight (status t)) ts i t t' Hi). lia.
Qed.

Lemma staying_insert (ws : list Worker) (w : nat) (wk wk' : Worker) :
  ws !! w = Some wk -> exited wk' = exited wk ->
  staying (<[w := wk']> ws) = staying ws.
Proof.
  intros Hw Hex. unfold staying.
  pose proof (sum_insert (fun wk => if exited wk then 0%nat else 1%nat)
                ws w wk wk' Hw) as H.
  cbn beta in H. rewrite Hex in H. lia.
Qed.

Lemma staying_leave (ws : list Worker) (w : nat) (wk : Worker) :
  ws !! w = Some wk -> exited wk = false ->
  (staying (<[w := leave wk]> ws) < staying ws)%nat.
Proof.
  intros Hw Hex. unfold staying.
  pose proof (sum_insert (fun wk => if exited wk then 0%nat else 1%nat)
                ws w wk (leave wk) Hw) as H.
  cbn beta in H. rewrite Hex in H. cbn in H. lia.
Qed.

Lemma boundary_weight (t : Task) :
  is_held (status t) = true ->
  (weight (status (boundary false t)) < weight (status t))%nat.
Proof.
  unfold Manager.boundary, Manager.pipeline_step. intros Hheld.
  destruct policy, (status t) eqn:Hs; try discriminate Hheld;
    destruct (extract_frames (video_name t));
    destruct (generate_caption (video_name t));
    destruct (persist_caption (video_name t)); cbn; lia.
Qed.

Lemma work_left_settle (m : Manager) :
  stage m = Processing ->
  work_left (settle m) = (pending (tasks m) + staying (workers m))%nat.
Proof.
  intros Hst. unfold work_left. rewrite settle_tasks, settle_workers.
  unfold settle. rewrite Hst.
  destruct (_ && _); [cbn; lia|]. destruct (_ && _); cbn; rewrite ?Hst; lia.
Qed.

Lemma work_left_processing (m : Manager) :
  stage m = Processing ->
  work_left m = (pending (tasks m) + staying (workers m))%nat.
Proof. intros Hst. unfold work_left. rewrite Hst. lia. Qed.

(** Every effect of a worker event takes work away. *)
Lemma effect_decreases (req : StartRequest) m e ts ws r :
  job_pool req m -> effect m e ts ws r ->
  (pending ts + staying ws < pending (tasks m) + staying (workers m))%nat.
Proof.
  intros Hjp Heff. pose proof Hjp as [[Hheld _] Hc _ _ _ _].
  destruct Heff as
    [w wk i t Hw Hex Hcur _ Hi Hq Hmin|w wk Hw Hex Hcur _ Hall
    |w wk Hw Hex Hcur Hc'|w wk i t Hw Hcur Hi].
  - rewrite (staying_insert _ _ wk) by (assumption || (cbn; congruence)).
    apply Nat.add_lt_mono_r. apply pending_insert with (t := t); [exact Hi|].
    rewrite Hq. cbn. lia.
  - apply Nat.add_lt_mono_l. now apply staying_leave.
  - congruence.
  - destruct (Hheld w i) as (t0 & Ht0 & Hh & _); [now exists wk|].
    assert (t0 = t) as -> by congruence.
    rewrite (staying_insert _ _ wk);
      [|exact Hw|destruct (is_final _); reflexivity].
    apply Nat.add_lt_mono_r. rewrite Hc.
    apply pending_insert with (t := t); [exact Hi|].
    apply boundary_weight, Hh.
Qed.

(** An event of an undisturbed Job changes nothing or takes work away. *)
Lemma step_decreases (req : StartRequest) (m : Manager) (e : Event) :
  scheduled [e] -> job_inv req m ->
  fst (step m e) = m \/ (work_left (fst (step m e)) < work_left m)%nat.
Proof.
  intros Hsch [Hjp _]. apply Forall_cons in Hsch. destruct Hsch as [He _].
  assert (Hworker : forall mr, worker_cases m e mr ->
            fst mr = m \/ (work_left (fst mr) < work_left m)%nat).
  { intros mr [->|(Hst & ts & ws & r & Heff & ->)]; [now left|]. right.
    cbn [fst]. rewrite work_left_settle by exact Hst.
    rewrite (work_left_processing m Hst). cbn [set_pool tasks workers].
    eapply effect_decreases; eassumption. }
  destruct e as [r| |msg| |w|w]; try destruct He.
  - cbn [Manager.step]. destruct (stage m) eqn:Hst; try now left.
    right. cbn [fst]. rewrite work_left_settle by reflexivity.
    unfold work_left. rewrite Hst. cbn [set_stage tasks workers]. lia.
  - apply Hworker, pull_cases.
  - apply Hworker, advance_cases.
Qed.

Lemma forallb_false {A} (f : A -> bool) (l : list A) :
  forallb f l = false -> exists i x, l !! i = Some x /\ f x = false.
Proof.
  induction l as [|x l IH]; [discriminate|]. cbn [forallb].
  destruct (f x) eqn:Hx.
  - intros H. destruct (IH H) as (i & y & Hi & Hy). now exists (S i), y.
  - intros _. now exists 0%nat, x.
Qed.

Lemma count_tasks_pos (p : TaskStatus -> bool) (ts : list Task) :
  count_tasks p ts <> 0%nat ->
  exists i t, ts !! i = Some t /\ p (status t) = true.
Proof.
  unfold count_tasks. induction ts as [|x ts IH]; [intros []; reflexivity|].
  cbn [List.filter]. destruct (p (status x)) eqn:Hx.
  - intros _. now exists 0%nat, x.
  - intros H. destruct (IH H) as (i & y & Hi & Hy). now exists (S i), y.
Qed.

(** ** An undisturbed Job ends in [Complete] *)

(** Unless the Job is complete some worker event or the readiness of the
    models takes work away. *)
Lemma progress (req : StartRequest) (m : Manager) :
  job_inv req m -> (0 < length (devices req))%nat -> stage m <> Complete ->
  exists e, scheduled [e] /\ (work_left (fst (step m e)) < work_left m)%nat.
Proof.
  intros [Hjp Hstage] Hdev Hnc.
  pose proof Hjp as [[Hheld Hhas] Hc Hnames Hout Hlen Hqueue].
  destruct Hstage as [Hst|[[Hst Hrem]|[Hst _]]]; [| |contradiction].
  - exists ModelsReady. split; [repeat constructor|].
    cbn [Manager.step]. rewrite Hst. cbn [fst].
    rewrite work_left_settle by reflexivity.
    unfold work_left. rewrite Hst. cbn [set_stage tasks workers]. lia.
  - destruct (no_worker_active m) eqn:Hfree.
    + unfold no_worker_active in Hfree.
      rewrite forallb_forall in Hfree.
      destruct (count_tasks_pos _ _ Hrem) as (i & t & Hi & Hnf).
      assert (Hq : status t = Queued).
      { destruct (is_held (status t)) eqn:Hh.
        - destruct (Hhas _ _ Hi Hh) as (w & wk & Hw & Hcur).
          assert (Hfr : is_free wk = true).
          { apply Hfree, list_elem_of_In. eapply list_elem_of_lookup_2, Hw. }
          unfold is_free in Hfr. rewrite Hcur in Hfr. discriminate Hfr.
        - destruct (status t); try discriminate; reflexivity. }
      destruct (list_find (fun t => status t = Queued) (tasks m))
        as [[i0 t0]|] eqn:Hfind.
      2:{ apply list_find_None in Hfind. rewrite Forall_forall in Hfind.
          exfalso. apply (Hfind t); [|exact Hq].
          eapply list_elem_of_lookup_2, Hi. }
      pose proof Hfind as Hfound.
      apply list_find_Some in Hfound. destruct Hfound as (Hi0 & Hq0 & _).
      destruct (workers m !! 0%nat) as [wk|] eqn:Hw0.
      2:{ apply lookup_ge_None in Hw0. lia. }
      assert (Hin : wk ∈ workers m) by (eapply list_elem_of_lookup_2, Hw0).
      assert (Hex : exited wk = false).
      { assert (Hall : Forall (fun wk => exited wk = false) (workers m))
          by (apply Hqueue; eauto).
        rewrite Forall_forall in Hall. apply Hall, Hin. }
      assert (Hfr : is_free wk = true) by (apply Hfree, list_elem_of_In, Hin).
      exists (Pull 0). split; [repeat constructor|].
      cbn [Manager.step]. rewrite Hst. unfold Manager.do_pull.
      rewrite Hw0, Hex, Hfr, Hc. cbn [orb negb].
      unfold Manager.pull. rewrite Hfind. cbn [fst].
      unfold work_left. cbn [set_pool tasks workers stage]. rewrite Hst.
      rewrite (staying_insert _ _ wk) by (assumption || (cbn; congruence)).
      do 2 apply Nat.add_lt_mono_r. apply pending_insert with (t := t0);
        [exact Hi0|]. rewrite Hq0. cbn. lia.
    + destruct (forallb_false _ _ Hfree) as (w & wk & Hw & Hfr).
      unfold is_free in Hfr.
      destruct (current_task wk) as [i|] eqn:Hcur; [|discriminate Hfr].
      destruct (Hheld w i) as (t & Hi & Hh & _); [now exists wk|].
      exists (Advance w). split; [repeat constructor|].
      cbn [Manager.step]. rewrite Hst. unfold Manager.do_advance.
      rewrite Hw, Hcur, Hi. cbn [fst].
      rewrite work_left_settle by exact Hst.
      rewrite (work_left_processing m Hst). cbn [set_pool tasks workers].
      rewrite (staying_insert _ _ wk);
        [|exact Hw|destruct (is_final _); reflexivity].
      apply Nat.add_lt_mono_r. rewrite Hc.
      apply pending_insert with (t := t); [exact Hi|].
      apply boundary_weight, Hh.
Qed.

Lemma reaches_complete (req : StartRequest) :
  (0 < length (devices req))%nat ->
  forall n m,
    (work_left m <= n)%nat -> job_inv req m ->
    exists evs, scheduled evs /\ stage (fst (run m evs)) = Complete.
Proof.
  intros Hdev. induction n as [|n IH]; intros m Hn Hji;
    (destruct (decide (stage m = Complete)) as [Hdone|Hnot];
     [exists []; split; [constructor|exact Hdone]|]);
    destruct (progress req m Hji Hdev Hnot) as (e & Hsch & Hlt); [lia|].
  destruct (IH (fst (step m e))) as (evs & Hevs & Hend);
    [lia|now apply step_job_inv|].
  exists (e :: evs). split.
  - apply Forall_cons. apply Forall_cons in Hsch. split; [apply Hsch|exact Hevs].
  - rewrite run_cons. exact Hend.
Qed.

Lemma complete_counts (req : StartRequest) (m : Manager) :
  job_inv req m -> stage m = Complete -> one_corrupted (video_names req) ->
  failed m = 1%nat /\ completed m = (length (video_names req) - 1)%nat.
Proof.
  intros [Hjp Hstage] Hst Hone.
  assert (Hrem : remaining m = 0%nat).
  { destruct Hstage as [H|[[H _]|[_ H]]]; congruence. }
  destruct (final_counts (tasks m) (jp_outcome _ _ Hjp) Hrem) as [Hd Hf].
  rewrite (jp_names _ _ Hjp) in Hd, Hf.
  destruct (one_corrupted_counts _ Hone) as [Hok Hbad].
  unfold failed, completed. split; congruence.
Qed.

(** C8: a Job of N requested videos on at least one device, exactly one of
    which fails to decode while the pipeline succeeds on all others, never
    enters [Error] or [Stopped] as long as nobody stops it and nothing fatal
    happens; whenever it is [Complete] the counters are failed = 1 and
    completed = N - 1; from every point of the run it does reach [Complete]
    with these counters; and it cannot run forever short of it: until it
    is [Complete] some event takes work away, and every event either
    changes nothing or takes work away. *)
Theorem single_corrupted_input (req : StartRequest) (evs : list Event) :
  (0 < length (devices req))%nat ->
  one_corrupted (video_names req) ->
  scheduled evs ->
  let m := fst (run (new_job req) evs) in
  stage m <> Error /\ stage m <> Stopped /\
  (stage m = Complete ->
   failed m = 1%nat /\ completed m = (length (video_names req) - 1)%nat) /\
  (exists evs',
     scheduled evs' /\
     stage (fst (run m evs')) = Complete /\
     failed (fst (run m evs')) = 1%nat /\
     completed (fst (run m evs')) = (length (video_names req) - 1)%nat) /\
  (stage m <> Complete ->
   exists e, scheduled [e] /\ (work_left (fst (step m e)) < work_left m)%nat) /\
  (forall e, scheduled [e] ->
     fst (step m e) = m \/ (work_left (fst (step m e)) < work_left m)%nat).
Proof.
  intros Hdev Hone Hsch m.
  assert (Hji : job_inv req m)
    by (apply run_job_inv; [exact Hsch|apply new_job_job_inv]).
  split; [|split; [|split; [|split; [|split]]]].
  - destruct Hji as [_ [H|[[H _]|[H _]]]]; congruence.
  - destruct Hji as [_ [H|[[H _]|[H _]]]]; congruence.
  - intros Hst. now apply (complete_counts req).
  - destruct (reaches_complete req Hdev (work_left m) m (le_n _) Hji)
      as (evs' & Hevs' & Hend).
    exists evs'. split; [exact Hevs'|]. split; [exact Hend|].
    apply (complete_counts req); [|exact Hend|exact Hone].
    now apply run_job_inv.
  - intros Hnot. now apply (progress req).
  - intros e He. now apply (step_decreases req).
Qed.

(** ** A Job told to stop *)

Lemma boundary_weight_flag (flag : bool) (t : Task) :
  is_held (status t) = true ->
  (weight (status (boundary flag t)) < weight (status t))%nat.
Proof.
  unfold Manager.boundary, Manager.pipeline_step. intros Hheld.
  destruct policy, flag, (status t) eqn:Hs; try discriminate Hheld;
    destruct (extract_frames (video_name t));
    destruct (generate_caption (video_name t));
    destruct (persist_caption (video_name t)); cbn; lia.
Qed.

(** The Aggregator has nothing to add to a state it has settled. *)
Definition settled (m : Manager) : Prop := settle m = m.

Lemma not_processing_settled (m : Manager) :
  stage m <> Processing -> settled m.
Proof. unfold settled, settle. destruct (stage m); congruence. Qed.

Lemma settle_settled (m : Manager) : settled (settle m).
Proof.
  assert (H : settle m = m \/ stage (settle m) <> Processing).
  { unfold settle. destruct (stage m) eqn:Hst; try (now left).
    destruct (_ && _); [right; discriminate|].
    destruct (_ && _); [right; discriminate|now left]. }
  destruct H as [H|H]; [|now apply not_processing_settled].
  unfold settled. now rewrite !H.
Qed.

Lemma step_settled (m : Manager) (e : Event) :
  settled m -> settled (fst (step m e)).
Proof.
  intros Hs.
  assert (Hworker : forall mr, worker_cases m e mr -> settled (fst mr)).
  { intros mr [->|(_ & ts & ws & r & _ & ->)]; [exact Hs|apply settle_settled]. }
  destruct e as [req| |msg| |w|w]; cbn [Manager.step].
  - destruct (is_active (stage m)); [exact Hs|].
    apply not_processing_settled. discriminate.
  - destruct (stage m); try exact Hs. apply settle_settled.
  - destruct (is_active (stage m)); [|exact Hs].
    apply not_processing_settled. discriminate.
  - destruct (is_active (stage m)); [apply settle_settled|exact Hs].
  - apply (Hworker _ (pull_cases w m)).
  - apply (Hworker _ (advance_cases w m)).
Qed.

Definition not_Start (e : Event) : Prop :=
  match e with Start _ => False | _ => True end.

(** Within a Job the flag, once set, stays set. *)
Lemma step_cancel (m : Manager) (e : Event) :
  not_Start e -> cancel m = true -> cancel (fst (step m e)) = true.
Proof.
  intros He Hc.
  assert (Hworker : forall mr, worker_cases m e mr -> cancel (fst mr) = true).
  { intros mr [->|(_ & ts & ws & r & _ & ->)]; [exact Hc|].
    cbn [fst]. rewrite settle_cancel. exact Hc. }
  destruct e as [req| |msg| |w|w]; cbn [Manager.step]; try destruct He.
  - destruct (stage m); try exact Hc. cbn [fst]. rewrite settle_cancel. exact Hc.
  - destruct (is_active (stage m)); [reflexivity|exact Hc].
  - destruct (is_active (stage m)); [|exact Hc].
    cbn [fst]. rewrite settle_cancel. reflexivity.
  - apply (Hworker _ (pull_cases w m)).
  - apply (Hworker _ (advance_cases w m)).
Qed.

(** Within a Job the list of tasks keeps its length. *)
Lemma step_total (m : Manager) (e : Event) :
  not_Start e -> total (fst (step m e)) = total m.
Proof.
  intros He. unfold total.
  destruct (step_pool_step m e) as [req -> _ _ _|Ht _ _|ts ws _ Heff ->].
  - destruct He.
  - now rewrite Ht.
  - rewrite settle_tasks. cbn [set_pool tasks].
    destruct Heff; rewrite ?length_insert; reflexivity.
Qed.

(** A Job in a terminal stage is left as it is by every event but a new
    start. *)
Lemma step_terminal (m : Manager) (e : Event) :
  not_Start e -> is_terminal (stage m) = true -> fst (step m e) = m.
Proof.
  intros He Ht.
  destruct e as [req| |msg| |w|w]; cbn [Manager.step]; try destruct He;
    destruct (stage m); try discriminate Ht; reflexivity.
Qed.

(** No event makes a Job idle. *)
Lemma step_not_idle (m : Manager) (e : Event) :
  stage m <> Idle -> stage (fst (step m e)) <> Idle.
Proof.
  intros Hni.
  assert (Hsettle : forall x, stage x <> Idle -> stage (settle x) <> Idle).
  { intros x Hx. unfold settle. destruct (stage x) eqn:Hst; rewrite ?Hst;
      try congruence.
    destruct (_ && _); [discriminate|].
    destruct (_ && _); [discriminate|]. congruence. }
  assert (Hworker : forall mr, worker_cases m e mr -> stage (fst mr) <> Idle).
  { intros mr [->|(_ & ts & ws & r & _ & ->)]; [exact Hni|].
    apply Hsettle. exact Hni. }
  destruct e as [req| |msg| |w|w]; cbn [Manager.step].
  - destruct (is_active (stage m)); [exact Hni|discriminate].
  - destruct (stage m) eqn:Hst; cbn [fst]; rewrite ?Hst; try discriminate.
    + congruence.
    + apply Hsettle. discriminate.
  - destruct (is_active (stage m)); [discriminate|exact Hni].
  - destruct (is_active (stage m)); [|exact Hni]. apply Hsettle. exact Hni.
  - apply (Hworker _ (pull_cases w m)).
  - apply (Hworker _ (advance_cases w m)).
Qed.

Lemma within_job_cons (e : Event) (evs : list Event) :
  within_job (e :: evs) <-> not_Start e /\ within_job evs.
Proof. unfold within_job. rewrite Forall_cons. reflexivity. Qed.

Lemma scheduled_within_job (evs : list Event) :
  scheduled evs -> within_job evs.
Proof.
  unfold scheduled, within_job. intros H.
  eapply Forall_impl; [exact H|]. intros []; tauto.
Qed.

(** What a run within a Job keeps. *)
Lemma run_within_job (evs : list Event) : forall m,
  within_job evs ->
  total (fst (run m evs)) = total m /\
  (settled m -> settled (fst (run m evs))) /\
  (stage m <> Idle -> stage (fst (run m evs)) <> Idle) /\
  (cancel m = true -> cancel (fst (run m evs)) = true) /\
  (is_terminal (stage m) = true -> fst (run m evs) = m).
Proof.
  induction evs as [|e evs IH]; intros m Hw; [tauto|].
  apply within_job_cons in Hw. destruct Hw as [He Hw].
  rewrite run_cons. cbn [fst].
  destruct (IH (fst (step m e)) Hw) as (Ht & Hs & Hi & Hc & Hf).
  split; [rewrite Ht; now apply step_total|].
  split; [intros H; now apply Hs, step_settled|].
  split; [intros H; now apply Hi, step_not_idle|].
  split; [intros H; now apply Hc, step_cancel|].
  intros H. rewrite (step_terminal m e He H) in *. now apply Hf.
Qed.

(** Under the flag, until the Job is terminal, some worker event (or the
    readiness of the models) takes work away: a free worker leaves at its
    next pull, a busy one crosses a stage boundary. *)
Lemma stop_progress (m : Manager) :
  inv m -> settled m -> cancel m = true -> is_active (stage m) = true ->
  exists e, scheduled [e] /\ (work_left (fst (step m e)) < work_left m)%nat.
Proof.
  intros [Hheld Hhas] Hs Hc Hact.
  destruct (stage m) eqn:Hst; try discriminate Hact.
  - exists ModelsReady. split; [repeat constructor|].
    cbn [Manager.step]. rewrite Hst. cbn [fst].
    rewrite work_left_settle by reflexivity.
    unfold work_left. rewrite Hst. cbn [set_stage tasks workers]. lia.
  - destruct (all_workers_exited m) eqn:Hall.
    { exfalso. unfold settled, settle in Hs. rewrite Hst, Hc, Hall in Hs.
      destruct (_ && _); apply (f_equal stage) in Hs; cbn in Hs;
        rewrite Hst in Hs; discriminate Hs. }
    destruct (forallb_false _ _ Hall) as (w & wk & Hw & Hex).
    destruct (current_task wk) as [i|] eqn:Hcur.
    + destruct (Hheld w i) as (t & Hi & Hh & _); [now exists wk|].
      exists (Advance w). split; [repeat constructor|].
      cbn [Manager.step]. rewrite Hst. unfold Manager.do_advance.
      rewrite Hw, Hcur, Hi. cbn [fst].
      rewrite work_left_settle by exact Hst.
      rewrite (work_left_processing m Hst). cbn [set_pool tasks workers].
      rewrite (staying_insert _ _ wk);
        [|exact Hw|destruct (is_final _); reflexivity].
      apply Nat.add_lt_mono_r.
      apply pending_insert with (t := t); [exact Hi|].
      apply boundary_weight_flag, Hh.
    + exists (Pull w). split; [repeat constructor|].
      cbn [Manager.step]. rewrite Hst. unfold Manager.do_pull, is_free.
      rewrite Hw, Hex, Hcur, Hc. cbn [orb negb fst].
      rewrite work_left_settle by exact Hst.
      rewrite (work_left_processing m Hst). cbn [set_pool tasks workers].
      apply Nat.add_lt_mono_l. now apply staying_leave.
Qed.

(** A Job that was told to stop does stop: the workers' own steps take it
    to a terminal stage. *)
Lemma reaches_terminal :
  forall n m,
    (work_left m <= n)%nat ->
    inv m -> settled m -> cancel m = true -> stage m <> Idle ->
    exists evs,
      scheduled evs /\ is_terminal (stage (fst (run m evs))) = true.
Proof.
  assert (Hdone : forall m, is_terminal (stage m) = true ->
            exists evs,
              scheduled evs /\ is_terminal (stage (fst (run m evs))) = true).
  { intros m Hterm. exists []. split; [apply List.Forall_nil|exact Hterm]. }
  induction n as [|n IH]; intros m Hn Hinv Hs Hc Hni;
    (destruct (is_terminal (stage m)) eqn:Hterm; [now apply Hdone|]);
    (assert (Hact : is_active (stage m) = true)
       by (revert Hterm Hni; destruct (stage m); cbn; congruence));
    destruct (stop_progress m Hinv Hs Hc Hact) as (e & Hsch & Hlt); [lia|].
  assert (He : not_Start e).
  { apply scheduled_within_job, within_job_cons in Hsch. apply Hsch. }
  destruct (IH (fst (step m e))) as (evs & Hevs & Hend);
    [lia|now apply step_inv|now apply step_settled|now apply step_cancel
    |now apply step_not_idle|].
  exists (e :: evs). split.
  - apply Forall_cons. apply Forall_cons in Hsch. split; [apply Hsch|exact Hevs].
  - rewrite run_cons. exact Hend.
Qed.

(** C5: when an active Job is told to stop, the workers' own steps take it
    to a terminal stage; until then the stop has no answer, and from then
    on its answer is [videos_completed] and [videos_remaining] as the
    counters of that terminal state, which no later event of the Job
    changes, and these two plus the failed count of that state are the
    number of requested tasks. *)
Theorem stop_response_counters (req : StartRequest) (before : list Event) :
  within_job before ->
  is_active (stage (fst (run (new_job req) before))) = true ->
  let stopping := fst (step (fst (run (new_job req) before)) Stop) in
  (exists after,
     scheduled after /\
     is_terminal (stage (fst (run stopping after))) = true) /\
  forall after, within_job after ->
    let final := fst (run stopping after) in
    (is_terminal (stage final) = false -> stop_response final = None) /\
    (is_terminal (stage final) = true ->
     stop_response final
     = Some (StopResponse (completed final) (remaining final)) /\
     (completed final + remaining final + failed final
      = length (video_names req))%nat /\
     forall later, within_job later ->
       fst (run final later) = final /\
       stop_response (fst (run final later)) = stop_response final).
Proof.
  intros Hbefore Hact stopping.
  set (mid := fst (run (new_job req) before)) in *.
  destruct (run_within_job before (new_job req) Hbefore)
    as (Htot & Hset & Hidle & _ & _). fold mid in Htot, Hset, Hidle.
  assert (Hstop : stopping = settle (set_cancel mid)).
  { unfold stopping. cbn [Manager.step]. rewrite Hact. reflexivity. }
  assert (Hinv : inv stopping) by (apply step_inv, run_inv, new_job_inv).
  assert (Hs : settled stopping) by (rewrite Hstop; apply settle_settled).
  assert (Hc : cancel stopping = true)
    by (rewrite Hstop, settle_cancel; reflexivity).
  assert (Hni : stage stopping <> Idle).
  { apply step_not_idle. destruct (stage mid); try discriminate Hact;
      discriminate. }
  assert (Hlen : total stopping = length (video_names req)).
  { unfold stopping. rewrite step_total by exact I. rewrite Htot.
    unfold total, new_job, enqueue. cbn [tasks]. apply length_map. }
  split.
  - exact (reaches_terminal (work_left stopping) stopping (le_n _)
             Hinv Hs Hc Hni).
  - intros after Hafter final.
    destruct (run_within_job after stopping Hafter)
      as (Htot' & _ & _ & Hc' & _).
    fold final in Htot', Hc'. specialize (Hc' Hc).
    unfold stop_response. rewrite Hc'. cbn [andb]. split.
    + intros ->. reflexivity.
    + intros Hterm. rewrite Hterm. split; [reflexivity|]. split.
      * rewrite counters_sum, Htot'. exact Hlen.
      * intros later Hlater.
        destruct (run_within_job later final Hlater) as (_ & _ & _ & _ & Hf).
        rewrite (Hf Hterm). split; [reflexivity|].
        rewrite Hc', Hterm. reflexivity.
Qed.

End Run.

(** ** Concrete runs *)

(** A decoder that fails on one video, and collaborators that never fail. *)
Definition fails_on (bad : string) (v : string) : Outcome :=
  if String.eqb v bad then Raises "decode error" else Ok.
Definition succeeds (v : string) : Outcome := Ok.

(** Three videos on one device, the second one corrupted. *)
Definition three_videos : StartRequest :=
  {| video_names := ["a.mp4"; "b.mp4"; "c.mp4"]; prompt := None;
     devices := ["cuda:0"] |}.

(** Ten videos on two devices. *)
Definition ten_videos : StartRequest :=
  {| video_names := ["v0"; "v1"; "v2"; "v3"; "v4"; "v5"; "v6"; "v7"; "v8"; "v9"];
     prompt := None; devices := ["cuda:0"; "cuda:1"] |}.

(** A Job created and still loading its models. *)
Definition loading_job : Manager := new_job three_videos.

(** One task through its four stage boundaries on worker [w]. *)
Definition whole_task (w : nat) : list Event :=
  [Pull w; Advance w; Advance w; Advance w; Advance w].

(** Two workers, three tasks finished, two more in flight. *)
Definition three_finished : list Event :=
  [ModelsReady] ++ whole_task 0 ++ whole_task 1 ++ whole_task 0
  ++ [Pull 0; Pull 1; Advance 0].

Definition mid_run : Manager :=
  fst (run succeeds succeeds succeeds FinishCurrent (new_job ten_videos)
         three_finished).

Lemma start_while_active_rejected_witness :
  is_active (stage loading_job) = true /\
  step (fails_on "b.mp4") succeeds succeeds FinishCurrent loading_job
    (Start ten_videos)
  = (loading_job, Rejected JobConflict).
Proof.
  split; [reflexivity|].
  apply (start_while_active_rejected (fails_on "b.mp4") succeeds succeeds
           FinishCurrent loading_job ten_videos).
  reflexivity.
Defined.

Lemma stop_response_counters_witness :
  within_job three_finished /\
  is_active (stage mid_run) = true /\
  exists after,
    scheduled after /\
    is_terminal
      (stage (fst (run succeeds succeeds succeeds FinishCurrent
                     (fst (step succeeds succeeds succeeds FinishCurrent
                             mid_run Stop))
                     after))) = true.
Proof.
  assert (H : within_job three_finished)
    by (unfold within_job, three_finished; repeat constructor).
  split; [exact H|]. split; [reflexivity|].
  apply (stop_response_counters succeeds succeeds succeeds FinishCurrent
           ten_videos three_finished H).
  reflexivity.
Defined.

(** Ten videos, two workers, stop after three tasks have finished and with
    two more in flight: the stop has no answer while the workers are still
    in their loops; once they have exited it is read from the final
    counters, under either policy. *)
Example stop_after_three :
  let stopping := fst (step succeeds succeeds succeeds FinishCurrent
                         mid_run Stop) in
  let m := fst (run succeeds succeeds succeeds FinishCurrent stopping
                  ([Advance 0; Advance 0; Advance 0; Pull 0]
                   ++ [Advance 1; Advance 1; Advance 1; Advance 1; Pull 1])) in
  stop_response stopping = None /\
  (completed stopping, remaining stopping) = (3%nat, 7%nat) /\
  stage m = Stopped /\
  stop_response m = Some (StopResponse 5 5) /\
  failed m = 0%nat.
Proof. vm_compute. repeat split; reflexivity. Qed.

Example stop_after_three_aborting :
  let mid := fst (run succeeds succeeds succeeds AbortCurrent
                    (new_job ten_videos) three_finished) in
  let m := fst (run succeeds succeeds succeeds AbortCurrent mid
                  [Stop; Advance 0; Advance 1; Pull 0; Pull 1]) in
  stage m = Stopped /\
  stop_response m = Some (StopResponse 3 5) /\
  failed m = 2%nat.
Proof. vm_compute. repeat split; reflexivity. Qed.

Lemma queue_exclusive_witness :
  within_job three_finished /\
  NoDup (pulled_tasks
           (snd (run succeeds succeeds succeeds FinishCurrent
                   (new_job ten_videos) three_finished))).
Proof.
  assert (H : within_job three_finished)
    by (unfold within_job, three_finished; repeat constructor).
  split; [exact H|].
  apply (queue_exclusive succeeds succeeds succeeds FinishCurrent
           ten_videos three_finished), H.
Defined.

Example pulled_in_order :
  pulled_tasks
    (snd (run succeeds succeeds succeeds FinishCurrent
            (new_job ten_videos) three_finished))
  = [0; 1; 2; 3; 4]%nat.
Proof. vm_compute. reflexivity. Qed.

Lemma b_is_the_corrupted_one :
  one_corrupted (fails_on "b.mp4") succeeds succeeds
    (video_names three_videos).
Proof.
  exists 1%nat, "b.mp4". split; [reflexivity|]. split; [reflexivity|].
  intros j v Hj Hne.
  destruct j as [|[|[|j]]]; cbn in Hj; try discriminate Hj; try congruence;
    injection Hj as <-; reflexivity.
Defined.

Lemma single_corrupted_input_witness :
  let run := run (fails_on "b.mp4") succeeds succeeds FinishCurrent in
  let step := step (fails_on "b.mp4") succeeds succeeds FinishCurrent in
  let m := fst (run (new_job three_videos) [ModelsReady; Pull 0; Advance 0]) in
  stage m <> Error /\ stage m <> Stopped /\
  (stage m = Complete ->
   failed m = 1%nat /\
   completed m = (length (video_names three_videos) - 1)%nat) /\
  (exists evs',
     scheduled evs' /\
     stage (fst (run m evs')) = Complete /\
     failed (fst (run m evs')) = 1%nat /\
     completed (fst (run m evs'))
     = (length (video_names three_videos) - 1)%nat) /\
  (stage m <> Complete ->
   exists e, scheduled [e] /\ (work_left (fst (step m e)) < work_left m)%nat) /\
  (forall e, scheduled [e] ->
     fst (step m e) = m \/ (work_left (fst (step m e)) < work_left m)%nat).
Proof.
  apply (single_corrupted_input (fails_on "b.mp4") succeeds succeeds
           FinishCurrent three_videos [ModelsReady; Pull 0; Advance 0]).
  - cbn. lia.
  - exact b_is_the_corrupted_one.
  - unfold scheduled. repeat constructor.
Defined.

(** The decode-error scenario of the specification: three videos, one
    worker, the second raises a decode error. *)
Example three_videos_one_corrupted :
  let m := fst (run (fails_on "b.mp4") succeeds succeeds FinishCurrent
                  (new_job three_videos)
                  ([ModelsReady] ++ whole_task 0 ++ whole_task 0
                   ++ whole_task 0)) in
  (stage m, completed m, failed m) = (Complete, 2%nat, 1%nat) /\
  map status (tasks m) = [Done; Failed; Done].
Proof. vm_compute. split; reflexivity. Qed.

(** After a stop the counters of a terminal Job need not add up to the
    total: the tasks never pulled stay in the queue. *)
Example stopped_with_tasks_left :
  let m := fst (run succeeds succeeds succeeds FinishCurrent mid_run
                  ([Stop] ++ [Advance 0; Advance 0; Advance 0; Pull 0]
                   ++ [Advance 1; Advance 1; Advance 1; Advance 1; Pull 1])) in
  (stage m, completed m, failed m, remaining m, total m)
  = (Stopped, 5%nat, 0%nat, 5%nat, 10%nat).
Proof. vm_compute. reflexivity. Qed.

End ManagerProps.

(** * More of the progress store

    The remaining getters of [stores/progressStore.ts], and how its actions
    compose. *)

(** [isMultiGPU]: [state.value.batch_size > 1] *)
Definition isMultiGPU (s : ProgressState) : bool :=
  negb (Qle_bool (batch_size s) 1).

(** [currentVideoProgress]: [state.value.substage_progress * 100] *)
Definition currentVideoProgress (s : ProgressState) : Q :=
  substage_progress s * 100.

(** The state with another list of workers. *)
Definition with_workers (ws : list WorkerProgress) (s : ProgressState) :
  ProgressState :=
  {| stage := stage s; current_video := current_video s;
     video_index := video_index s; total_videos := total_videos s;
     tokens_generated := tokens_generated s;
     tokens_per_sec := tokens_per_sec s; model_loaded := model_loaded s;
     vram_used_gb := vram_used_gb s; substage := substage s;
     substage_progress := substage_progress s;
     error_message := error_message s; elapsed_time := elapsed_time s;
     batch_size := batch_size s; workers := ws;
     completed_videos := completed_videos s |}.

(** A field of the interface holds a value of its declared type. *)
Definition well_typed_field (k : string) (v : option Value) : bool :=
  if String.eqb k "stage" then
    bool_decide (is_Some (as_string v ≫= stage_of_string))
  else if String.eqb k "substage" then
    bool_decide (is_Some (as_string v ≫= substage_of_string))
  else if String.eqb k "current_video" || String.eqb k "error_message" then
    bool_decide (is_Some (as_nullable v))
  else if String.eqb k "model_loaded" then
    bool_decide (is_Some (as_boolean v))
  else if String.eqb k "workers" then
    bool_decide (is_Some (as_array v ≫= mapM as_worker))
  else bool_decide (is_Some (as_number v)).

(** A message whose fields, where present, have their declared types: a
    [Partial<ProgressState>]. *)
Definition partial_state (data : gmap string Value) : Prop :=
  forall k v, In k ProgressState_fields -> data !! k = Some v ->
    well_typed_field k (Some v) = true.

Section StoreAlgebra.

Local Open Scope Q_scope.

Lemma Store_eq (a b : Store) :
  state a = state b -> wsConnected a = wsConnected b -> a = b.
Proof. destruct a, b. cbn. intros -> ->. reflexivity. Qed.

(** X1: two messages applied one after the other are the one message in
    which the later fields win; a message applied twice is the message
    applied once; the empty message changes nothing. *)
Theorem updateFromWebSocket_compose
    (d1 d2 : gmap string Value) (st : Store) :
  updateFromWebSocket d2 (updateFromWebSocket d1 st)
  = updateFromWebSocket (d2 ∪ d1) st /\
  updateFromWebSocket d1 (updateFromWebSocket d1 st)
  = updateFromWebSocket d1 st /\
  updateFromWebSocket ∅ st = st.
Proof.
  split; [|split]; apply Store_eq; cbn [updateFromWebSocket state wsConnected];
    try reflexivity.
  - apply (assoc_L (∪)).
  - rewrite (assoc_L (∪)). f_equal. apply (idemp_L (∪)).
  - apply (left_id_L ∅ (∪)).
Qed.

(** The typed reading looks at the fifteen fields only. *)
Lemma as_ProgressState_ext (o o' : gmap string Value) :
  (forall k, In k ProgressState_fields -> o !! k = o' !! k) ->
  as_ProgressState o = as_ProgressState o'.
Proof.
  intros H. unfold as_ProgressState.
  rewrite !H by (unfold ProgressState_fields; simpl; tauto).
  reflexivity.
Qed.

Lemma state_object_has_fields (s : ProgressState) (k : string) :
  In k ProgressState_fields -> is_Some (state_object s !! k).
Proof.
  intros Hk. apply elem_of_dom. rewrite state_object_dom.
  apply elem_of_list_to_set, list_elem_of_In, Hk.
Qed.

(** X2: a message that is a full snapshot makes the store read as that
    snapshot whatever it held before, extra or ill-typed fields included,
    and the progress getter is then the one of the snapshot. *)
Theorem full_snapshot_overrides (s : ProgressState) (st : Store) :
  as_ProgressState (state (updateFromWebSocket (state_object s) st)) = Some s
  /\ store_overallProgress (updateFromWebSocket (state_object s) st)
     = overallProgress s.
Proof.
  assert (H : as_ProgressState
                (state (updateFromWebSocket (state_object s) st)) = Some s).
  { rewrite <- (as_ProgressState_object s). apply as_ProgressState_ext.
    intros k Hk. cbn [updateFromWebSocket state].
    destruct (state_object_has_fields s k Hk) as [v Hv].
    rewrite Hv. apply lookup_union_Some_l, Hv. }
  split; [exact H|]. unfold store_overallProgress. rewrite H. reflexivity.
Qed.

End StoreAlgebra.

Section StoreTyping.

Local Open Scope Q_scope.

Ltac field_cases H :=
  unfold ProgressState_fields in H; simpl in H;
  repeat (destruct H as [<-|H]); [..|destruct H].

(** An object reads as a [ProgressState] exactly when each of the fifteen
    fields holds a value of its declared type. *)
Lemma as_ProgressState_typed (o : gmap string Value) :
  is_Some (as_ProgressState o) <->
  forall k, In k ProgressState_fields -> well_typed_field k (o !! k) = true.
Proof.
  unfold as_ProgressState. split.
  - intros [s Hs] k Hk.
    destruct (as_string (o !! "stage") ≫= stage_of_string) eqn:E1;
      [|discriminate Hs]; cbn [mbind option_bind] in Hs.
    destruct (as_nullable (o !! "current_video")) eqn:E2;
      [|discriminate Hs]; cbn [mbind option_bind] in Hs.
    destruct (as_number (o !! "video_index")) eqn:E3;
      [|discriminate Hs]; cbn [mbind option_bind] in Hs.
    destruct (as_number (o !! "total_videos")) eqn:E4;
      [|discriminate Hs]; cbn [mbind option_bind] in Hs.
    destruct (as_number (o !! "tokens_generated")) eqn:E5;
      [|discriminate Hs]; cbn [mbind option_bind] in Hs.
    destruct (as_number (o !! "tokens_per_sec")) eqn:E6;
      [|discriminate Hs]; cbn [mbind option_bind] in Hs.
    destruct (as_boolean (o !! "model_loaded")) eqn:E7;
      [|discriminate Hs]; cbn [mbind option_bind] in Hs.
    destruct (as_number (o !! "vram_used_gb")) eqn:E8;
      [|discriminate Hs]; cbn [mbind option_bind] in Hs.
    destruct (as_string (o !! "substage") ≫= substage_of_string) eqn:E9;
      [|discriminate Hs]; cbn [mbind option_bind] in Hs.
    destruct (as_number (o !! "substage_progress")) eqn:E10;
      [|discriminate Hs]; cbn [mbind option_bind] in Hs.
    destruct (as_nullable (o !! "error_message")) eqn:E11;
      [|discriminate Hs]; cbn [mbind option_bind] in Hs.
    destruct (as_number (o !! "elapsed_time")) eqn:E12;
      [|discriminate Hs]; cbn [mbind option_bind] in Hs.
    destruct (as_number (o !! "batch_size")) eqn:E13;
      [|discriminate Hs]; cbn [mbind option_bind] in Hs.
    destruct (as_array (o !! "workers") ≫= mapM as_worker) eqn:E14;
      [|discriminate Hs]; cbn [mbind option_bind] in Hs.
    destruct (as_number (o !! "completed_videos")) eqn:E15;
      [|discriminate Hs].
    field_cases Hk; unfold well_typed_field; simpl;
      apply bool_decide_eq_true; rewrite ?E1, ?E2, ?E3, ?E4, ?E5, ?E6, ?E7,
        ?E8, ?E9, ?E10, ?E11, ?E12, ?E13, ?E14, ?E15; eauto.
  - intros H.
    assert (Hf : forall k, In k ProgressState_fields ->
                   well_typed_field k (o !! k) = true) by exact H.
    pose proof (H "stage") as H1. pose proof (H "current_video") as H2.
    pose proof (H "video_index") as H3. pose proof (H "total_videos") as H4.
    pose proof (H "tokens_generated") as H5.
    pose proof (H "tokens_per_sec") as H6.
    pose proof (H "model_loaded") as H7. pose proof (H "vram_used_gb") as H8.
    pose proof (H "substage") as H9.
    pose proof (H "substage_progress") as H10.
    pose proof (H "error_message") as H11.
    pose proof (H "elapsed_time") as H12. pose proof (H "batch_size") as H13.
    pose proof (H "workers") as H14.
    pose proof (H "completed_videos") as H15. clear H Hf.
    unfold well_typed_field, ProgressState_fields in *. simpl in *.
    repeat match goal with
           | Hk : _ -> bool_decide _ = true |- _ =>
               let Hs := fresh "Hs" in
               assert (Hs := Hk ltac:(repeat first [left; reflexivity | right]));
               clear Hk;
               apply bool_decide_eq_true in Hs; destruct Hs as [? Hs]
           end.
    repeat match goal with
           | Hs : _ = Some _ |- _ => rewrite Hs; clear Hs
           end.
    cbn [mbind option_bind]. eauto.
Qed.

Lemma overallProgress_defined (s : ProgressState) :
  exists q, overallProgress s = Some q.
Proof.
  destruct (Qeq_dec (total_videos s) 0) as [H0|H0].
  - exists 0. unfold overallProgress.
    apply Qeq_bool_iff in H0. rewrite H0. reflexivity.
  - destruct (overallProgress_nonzero s H0) as [q [Hq _]]. eauto.
Qed.

(** X3: a message whose fields have their declared types keeps a typed
    store typed, so that the progress getter stays defined; fields that
    are not of the interface are carried along and do not matter. *)
Theorem update_keeps_typed
    (data : gmap string Value) (st : Store) (s : ProgressState) :
  as_ProgressState (state st) = Some s ->
  partial_state data ->
  exists s' q,
    as_ProgressState (state (updateFromWebSocket data st)) = Some s' /\
    store_overallProgress (updateFromWebSocket data st) = Some q.
Proof.
  intros Hs Hdata.
  assert (Htyped : is_Some (as_ProgressState
                              (state (updateFromWebSocket data st)))).
  { apply as_ProgressState_typed. intros k Hk.
    cbn [updateFromWebSocket state].
    destruct (data !! k) as [v|] eqn:Hv.
    - rewrite (lookup_union_Some_l _ _ _ _ Hv). now apply Hdata.
    - rewrite (lookup_union_r _ _ _ Hv).
      apply (proj1 (as_ProgressState_typed (state st))); [eauto|exact Hk]. }
  destruct Htyped as [s' Hs']. unfold store_overallProgress. rewrite Hs'.
  destruct (overallProgress_defined s') as [q Hq].
  exists s', q. split; [reflexivity|exact Hq].
Qed.

Lemma stage_message_partial : partial_state stage_message.
Proof.
  intros k v Hk Hv. field_cases Hk; vm_compute in Hv; try discriminate Hv;
    injection Hv as <-; vm_compute; reflexivity.
Defined.

Lemma update_keeps_typed_witness :
  exists s' q,
    as_ProgressState
      (state (updateFromWebSocket stage_message useProgressStore)) = Some s'
    /\ store_overallProgress (updateFromWebSocket stage_message useProgressStore)
       = Some q.
Proof.
  apply (update_keeps_typed stage_message useProgressStore
           initialProgressState).
  - rewrite store_initial_state. apply as_ProgressState_object.
  - exact stage_message_partial.
Defined.

End StoreTyping.

Section ProgressBar.

Local Open Scope Q_scope.

(** X4: in a run (total > 0, completed >= 0, no negative substage
    progress) the overall progress is a percentage between 0 and 100, and it
    is exactly 100 once [completed_videos] equals [total_videos], whatever
    the workers still report. *)
Theorem overallProgress_range (s : ProgressState) :
  0 < total_videos s ->
  0 <= completed_videos s ->
  progress_in_unit s ->
  exists q,
    overallProgress s = Some q /\ 0 <= q /\ q <= 100 /\
    (completed_videos s == total_videos s -> q == 100).
Proof.
  intros Ht Hc Hunit.
  destruct (overallProgress_nonzero s) as [q [Hq Heq]]; [lra|].
  exists q. split; [exact Hq|].
  pose proof (spec_active_sum_nonneg s Hunit) as Ha.
  assert (Hat : 0 <= spec_active_sum s / total_videos s).
  { apply Qle_shift_div_l; [exact Ht|]. lra. }
  assert (Hct : 0 <= completed_videos s / total_videos s).
  { apply Qle_shift_div_l; [exact Ht|]. lra. }
  unfold spec_fraction in Heq.
  destruct (Q.min_spec 1 (completed_videos s / total_videos s
                          + spec_active_sum s / total_videos s))
    as [[H1 E]|[H1 E]]; rewrite E in Heq.
  - split; [lra|]. split; [lra|]. intros _. exact Heq.
  - split; [lra|]. split; [lra|]. intros Hall.
    assert (Hone : completed_videos s / total_videos s == 1).
    { rewrite Hall. field. lra. }
    lra.
Qed.

Lemma overallProgress_range_witness :
  exists q,
    overallProgress both_done = Some q /\ 0 <= q /\ q <= 100 /\
    (completed_videos both_done == total_videos both_done -> q == 100).
Proof.
  apply (overallProgress_range both_done).
  - reflexivity.
  - unfold Qle; simpl; lia.
  - split; [intros w []|]. split; [apply Qle_refl|]. unfold Qle; simpl; lia.
Defined.

(** X5: a listed worker without a current video adds nothing, whatever its
    [substage_progress]; and once any worker is listed the state's own
    [substage_progress] is not read: with workers listed and none active
    the result is the completed share alone. *)
Theorem idle_workers_add_nothing
    (s : ProgressState) (w : WorkerProgress) (ws : list WorkerProgress) :
  truthy (w_current_video w) = false ->
  (ws <> [] ->
   overallProgress (with_workers (w :: ws) s)
   = overallProgress (with_workers ws s)) /\
  (0 < total_videos s ->
   List.forallb (fun x => negb (truthy (w_current_video x))) ws = true ->
   exists q,
     overallProgress (with_workers (w :: ws) s) = Some q /\
     q == 100 * Qmin 1 (completed_videos s / total_videos s)).
Proof.
  intros Hidle. split.
  - intros Hne. unfold overallProgress.
    cbn [with_workers total_videos completed_videos workers
         substage_progress List.filter]. rewrite Hidle.
    destruct ws as [|x ws]; [contradiction|]. reflexivity.
  - intros Ht Hall.
    destruct (overallProgress_nonzero (with_workers (w :: ws) s))
      as [q [Hq Heq]]; [cbn; lra|].
    exists q. split; [exact Hq|]. rewrite Heq.
    unfold spec_fraction, spec_active_sum.
    cbn [with_workers total_videos completed_videos workers
         substage_progress List.filter]. rewrite Hidle.
    assert (Hnone : List.filter (fun x => truthy (w_current_video x)) ws = []).
    { clear -Hall. induction ws as [|x ws IH]; [reflexivity|].
      cbn [List.forallb] in Hall. apply andb_prop in Hall.
      destruct Hall as [Hx Hall]. cbn [List.filter].
      apply negb_true_iff in Hx. rewrite Hx. apply IH, Hall. }
    rewrite Hnone. cbn [sum_progress].
    assert (Hz : 0 / total_videos s == 0) by (field; lra).
    destruct (Q.min_spec 1 (completed_videos s / total_videos s
                            + 0 / total_videos s)) as [[H1 ->]|[H1 ->]];
      destruct (Q.min_spec 1 (completed_videos s / total_videos s))
        as [[H2 ->]|[H2 ->]]; lra.
Qed.

(** A worker that reports progress but holds no video. *)
Definition idle_worker : WorkerProgress :=
  {| worker_id := 0; device := "cuda:0"; w_current_video := None;
     w_substage := sub_idle; w_substage_progress := 1 # 2 |}.

Lemma idle_workers_add_nothing_witness :
  exists q,
    overallProgress (with_workers [idle_worker] half_done) = Some q /\
    q == 100 * Qmin 1 (completed_videos half_done / total_videos half_done).
Proof.
  apply (idle_workers_add_nothing half_done idle_worker []); reflexivity.
Defined.

End ProgressBar.

(** * Clock displays

    [formattedElapsedTime] and [estimatedTimeRemaining] of the progress
    store, and [formattedDuration] of [components/video/VideoTile.vue] and
    [VideoCard.vue], all print whole seconds with the same three lines:
    [Math.floor(sec / 60)], [sec % 60] and
    [`${mins}:${secs.toString().padStart(2, '0')}`]. *)

From Stdlib Require Import Ascii Qround Qabs Qpower.
From stdpp Require Import pretty.

(** [Number.MAX_SAFE_INTEGER] *)
Definition MAX_SAFE_INTEGER : Z := 9007199254740991.

Fixpoint pad (k : nat) (c : ascii) (s : string) : string :=
  match k with
  | O => s
  | S k' => String c (pad k' c s)
  end.

(** [s.padStart(n, c)] for a pad string of one character. *)
Definition padStart (n : nat) (c : ascii) (s : string) : string :=
  pad (n - String.length s) c s.

(** The three lines on whole seconds [sec]: [/] followed by [Math.floor] is
    the floor division, [%] the remainder with the sign of [sec], and
    [toString] of an integer its decimal expansion.  [None] outside the safe
    integers, where a double is not an exact integer any more and the
    embedding does not apply. *)
Definition clock (sec : Z) : option string :=
  if (Z.abs sec <=? MAX_SAFE_INTEGER)%Z then
    let mins := (sec / 60)%Z in
    let secs := Z.rem sec 60 in
    Some (pretty mins +:+ ":" +:+ padStart 2 "0" (pretty secs))
  else None.

(** A getter's value: [null] or a string. *)
Inductive Display := Null | Text (s : string).

(** [formattedElapsedTime] *)
Definition formattedElapsedTime (s : ProgressState) : option string :=
  clock (Qfloor (elapsed_time s)).

(** ** Arithmetic on doubles *)

Definition pow2 (e : Z) : Q := 2 ^ e.

(** The exponent [e] with [2^e <= x < 2^(e+1)], for a positive [x]. *)
Definition binade (x : Q) : Z :=
  let e := (Z.log2 (Qnum x) - Z.log2 (Zpos (Qden x)))%Z in
  if Qle_bool (pow2 e) x then e else (e - 1)%Z.

(** To the nearest integer, ties to the even one. *)
Definition round_half_even (y : Q) : Z :=
  let f := Qfloor y in
  match Qcompare (y - inject_Z f) (1 # 2) with
  | Lt => f
  | Gt => (f + 1)%Z
  | Eq => if Z.even f then f else (f + 1)%Z
  end.

(** A positive number rounded to 53 significant bits, or to a multiple of
    [2^-1074] where it is subnormal. *)
Definition round_positive (x : Q) : Q :=
  let u := Z.max (binade x - 52) (-1074) in
  inject_Z (round_half_even (x / pow2 u)) * pow2 u.

(** The double nearest to [x] (round to nearest, ties to even), which is
    what an arithmetic operation on doubles returns for the exact result
    [x]; the exponent range is not bounded above, so a result beyond the
    largest double is not turned into [Infinity]. *)
Definition round_double (x : Q) : Q :=
  match Qcompare x 0 with
  | Eq => 0
  | Gt => round_positive x
  | Lt => - round_positive (- x)
  end.

(** [estimatedTimeRemaining]: the quotient, the difference and the product
    are each the double nearest to the exact result, and [Math.floor] is
    taken of the rounded product; the division reports a zero divisor as
    [js_div] does. *)
Definition estimatedTimeRemaining (s : ProgressState) : option Display :=
  let completedCount :=
    if negb (Qle_bool (completed_videos s) 0) then completed_videos s
    else video_index s in
  if Qeq_bool completedCount 0 || Qeq_bool (elapsed_time s) 0 then Some Null
  else
    avgTimePerVideo ← round_double <$> js_div (elapsed_time s) completedCount;
    let remainingVideos := round_double (total_videos s - completedCount)%Q in
    let remainingSeconds :=
      Qfloor (round_double (avgTimePerVideo * remainingVideos)%Q) in
    Text <$> clock remainingSeconds.

(** [formattedDuration] of a video tile or card: [duration_sec] is
    [number | null], and [0] is falsy like [null]. *)
Definition formattedDuration (duration_sec : option Q) : option Display :=
  match duration_sec with
  | None => Some Null
  | Some d =>
      if Qeq_bool d 0 then Some Null
      else Text <$> clock (Qfloor d)
  end.

(** Two decimal digits. *)
Definition two_digits (r : Z) : string :=
  String (pretty_N_char (Z.to_N (r / 10)))
    (String (pretty_N_char (Z.to_N (r mod 10))) "").

Section Clock.

Local Open Scope Z_scope.

Lemma append_cons (c : ascii) (a b : string) :
  String c a +:+ b = String c (a +:+ b).
Proof. reflexivity. Qed.

Lemma length_append (a b : string) :
  String.length (a +:+ b) = (String.length a + String.length b)%nat.
Proof.
  induction a as [|c a IH]; [reflexivity|].
  rewrite append_cons. cbn [String.length]. rewrite IH. reflexivity.
Qed.

Lemma append_inj_suffix (a b c d : string) :
  String.length c = String.length d ->
  a +:+ c = b +:+ d -> a = b /\ c = d.
Proof.
  revert b. induction a as [|x a IH]; intros [|y b] Hlen Heq.
  - split; [reflexivity|exact Heq].
  - exfalso. change ("" +:+ c) with c in Heq. rewrite Heq in Hlen.
    rewrite append_cons in Hlen. cbn [String.length] in Hlen.
    rewrite length_append in Hlen. lia.
  - exfalso. change ("" +:+ d) with d in Heq. rewrite <- Heq in Hlen.
    rewrite append_cons in Hlen. cbn [String.length] in Hlen.
    rewrite length_append in Hlen. lia.
  - rewrite !append_cons in Heq. injection Heq as -> Heq.
    destruct (IH b Hlen Heq) as [-> ->]. split; reflexivity.
Qed.

Lemma pad_seconds_nat (n : nat) :
  (n < 60)%nat ->
  padStart 2 "0" (pretty (Z.of_nat n)) = two_digits (Z.of_nat n).
Proof.
  intros Hn.
  do 60 (destruct n as [|n]; [vm_compute; reflexivity|]). lia.
Qed.

Lemma pad_seconds (r : Z) :
  0 <= r < 60 -> padStart 2 "0" (pretty r) = two_digits r.
Proof.
  intros Hr. rewrite <- (Z2Nat.id r) by lia. apply pad_seconds_nat. lia.
Qed.

Lemma two_digits_inj (r r' : Z) :
  0 <= r < 60 -> 0 <= r' < 60 -> two_digits r = two_digits r' -> r = r'.
Proof.
  intros Hr Hr' Heq. unfold two_digits in Heq. injection Heq as H1 H2.
  assert (Hd : 0 <= r / 10 < 10)
    by (split; [apply Z.div_pos|apply Z.div_lt_upper_bound]; lia).
  assert (Hd' : 0 <= r' / 10 < 10)
    by (split; [apply Z.div_pos|apply Z.div_lt_upper_bound]; lia).
  pose proof (Z.mod_pos_bound r 10 ltac:(lia)) as Hm.
  pose proof (Z.mod_pos_bound r' 10 ltac:(lia)) as Hm'.
  apply pretty_N_char_inj in H1; [|lia..].
  apply pretty_N_char_inj in H2; [|lia..].
  apply Z2N.inj in H1; [|lia..]. apply Z2N.inj in H2; [|lia..].
  rewrite (Z.div_mod r 10), (Z.div_mod r' 10) by lia.
  rewrite H1, H2. reflexivity.
Qed.

(** The display of whole seconds that are not negative. *)
Lemma clock_nonneg (sec : Z) :
  0 <= sec <= MAX_SAFE_INTEGER ->
  clock sec = Some (pretty (sec / 60) +:+ ":" +:+ two_digits (sec mod 60)).
Proof.
  intros Hs. unfold clock.
  rewrite Z.abs_eq by lia.
  destruct (Z.leb_spec sec MAX_SAFE_INTEGER) as [_|H]; [|lia].
  cbn zeta. rewrite Z.rem_mod_nonneg by lia.
  rewrite pad_seconds by (apply Z.mod_pos_bound; lia). reflexivity.
Qed.

Lemma clock_inj (a b : Z) :
  0 <= a <= MAX_SAFE_INTEGER -> 0 <= b <= MAX_SAFE_INTEGER ->
  clock a = clock b -> a = b.
Proof.
  intros Ha Hb Heq. rewrite !clock_nonneg in Heq by assumption.
  injection Heq as Heq.
  apply append_inj_suffix in Heq; [|reflexivity].
  destruct Heq as [Hm Hs]. apply (inj pretty) in Hm.
  apply (f_equal (fun s => match s with String _ t => t | EmptyString => s end))
    in Hs.
  change (two_digits (a mod 60) = two_digits (b mod 60)) in Hs.
  assert (Hr : a mod 60 = b mod 60).
  { apply two_digits_inj; [apply Z.mod_pos_bound; lia..|exact Hs]. }
  rewrite (Z.div_mod a 60), (Z.div_mod b 60) by lia.
  rewrite Hm, Hr. reflexivity.
Qed.

End Clock.

Section Rounding.

Local Open Scope Q_scope.

Lemma pow2_pos (e : Z) : 0 < pow2 e.
Proof. apply Qpower_0_lt. reflexivity. Qed.

Lemma pow2_plus (a b : Z) : pow2 (a + b) == pow2 a * pow2 b.
Proof. apply Qpower_plus. discriminate. Qed.

Lemma pow2_le (a b : Z) : (a <= b)%Z -> pow2 a <= pow2 b.
Proof. intros H. apply Qpower_le_compat_l; [exact H|discriminate]. Qed.

Lemma pow2_lt_inv (a b : Z) : pow2 a < pow2 b -> (a < b)%Z.
Proof. intros H. apply (Qpower_lt_compat_l_inv 2); [exact H|reflexivity]. Qed.

Lemma pow2_Z (e : Z) : (0 <= e)%Z -> pow2 e == inject_Z (2 ^ e).
Proof. intros H. unfold pow2. rewrite Zpower_Qpower by exact H. reflexivity. Qed.

Lemma pow2_half (e : Z) : (1 # 2) * pow2 e == pow2 (e - 1).
Proof.
  replace e with ((e - 1) + 1)%Z at 1 by lia. rewrite pow2_plus.
  change (pow2 1) with 2. field.
Qed.

Lemma Q_as_div (x : Q) : x == inject_Z (Qnum x) / inject_Z (Zpos (Qden x)).
Proof. destruct x as [n d]. cbn [Qnum Qden]. apply Qmake_Qdiv. Qed.

(** [binade] is the exponent of the binade of [x]. *)
Lemma binade_spec (x : Q) :
  0 < x -> pow2 (binade x) <= x /\ x < pow2 (binade x + 1).
Proof.
  intros Hx.
  assert (Hn : (0 < Qnum x)%Z).
  { destruct x as [n d]. unfold Qlt in Hx. cbn in *. lia. }
  set (n := Qnum x) in *. set (d := Zpos (Qden x)).
  assert (Hd : (0 < d)%Z) by (unfold d; lia).
  destruct (Z.log2_spec n Hn) as [Hn1 Hn2].
  destruct (Z.log2_spec d Hd) as [Hd1 Hd2].
  set (a := Z.log2 n) in *. set (b := Z.log2 d) in *.
  assert (Ha : (0 <= a)%Z) by apply Z.log2_nonneg.
  assert (Hb : (0 <= b)%Z) by apply Z.log2_nonneg.
  assert (Hxq : x == inject_Z n / inject_Z d) by apply Q_as_div.
  assert (Hdq : 0 < inject_Z d)
    by (change 0 with (inject_Z 0); rewrite <- Zlt_Qlt; exact Hd).
  assert (Hxd : x * inject_Z d == inject_Z n).
  { rewrite Hxq. field. intros H. rewrite H in Hdq. discriminate Hdq. }
  assert (Qn1 : pow2 a <= inject_Z n)
    by (rewrite pow2_Z by exact Ha; rewrite <- Zle_Qle; exact Hn1).
  assert (Qn2 : inject_Z n < pow2 (a + 1))
    by (rewrite pow2_Z by lia; rewrite <- Zlt_Qlt;
        replace (a + 1)%Z with (Z.succ a) by lia; exact Hn2).
  assert (Qd1 : pow2 b <= inject_Z d)
    by (rewrite pow2_Z by exact Hb; rewrite <- Zle_Qle; exact Hd1).
  assert (Qd2 : inject_Z d < pow2 (b + 1))
    by (rewrite pow2_Z by lia; rewrite <- Zlt_Qlt;
        replace (b + 1)%Z with (Z.succ b) by lia; exact Hd2).
  (* x lies strictly between 2^(a-b-1) and 2^(a-b+1) *)
  assert (Hlow : pow2 (a - b - 1) < x).
  { apply Qmult_lt_r with (z := pow2 (b + 1)); [apply pow2_pos|].
    rewrite <- pow2_plus. replace (a - b - 1 + (b + 1))%Z with a by lia.
    apply Qle_lt_trans with (y := inject_Z n); [exact Qn1|].
    rewrite <- Hxd. apply Qmult_lt_l; [exact Hx|exact Qd2]. }
  assert (Hhigh : x < pow2 (a - b + 1)).
  { apply Qmult_lt_r with (z := pow2 b); [apply pow2_pos|].
    rewrite <- pow2_plus. replace (a - b + 1 + b)%Z with (a + 1)%Z by lia.
    apply Qle_lt_trans with (y := inject_Z n); [|exact Qn2].
    rewrite <- Hxd. apply Qmult_le_l; [exact Hx|exact Qd1]. }
  unfold binade. fold n d a b.
  destruct (Qle_bool (pow2 (a - b)) x) eqn:E.
  - apply Qle_bool_iff in E. split; [exact E|exact Hhigh].
  - assert (Hlt : x < pow2 (a - b)).
    { apply Qnot_le_lt. intros H. apply Qle_bool_iff in H. congruence. }
    split; [apply Qlt_le_weak, Hlow|].
    replace (a - b - 1 + 1)%Z with (a - b)%Z by lia. exact Hlt.
Qed.

Lemma round_half_even_error (y : Q) :
  Qabs (inject_Z (round_half_even y) - y) <= 1 # 2.
Proof.
  unfold round_half_even.
  pose proof (Qfloor_le y) as Hlo. pose proof (Qlt_floor y) as Hhi.
  rewrite inject_Z_plus in Hhi. change (inject_Z 1) with 1 in Hhi.
  apply Qabs_Qle_condition.
  destruct (Qcompare_spec (y - inject_Z (Qfloor y)) (1 # 2)) as [H|H|H].
  - destruct (Z.even (Qfloor y));
      rewrite ?inject_Z_plus; change (inject_Z 1) with 1; lra.
  - lra.
  - rewrite inject_Z_plus. change (inject_Z 1) with 1. lra.
Qed.

Lemma round_half_even_nonneg (y : Q) :
  0 <= y -> (0 <= round_half_even y)%Z.
Proof.
  intros Hy. unfold round_half_even.
  assert (H : (0 <= Qfloor y)%Z)
    by (change 0%Z with (Qfloor 0); apply Qfloor_resp_le, Hy).
  destruct (Qcompare _ _); [destruct (Z.even _)| |]; lia.
Qed.

Lemma round_positive_nonneg (x : Q) : 0 < x -> 0 <= round_positive x.
Proof.
  intros Hx. unfold round_positive.
  apply Qmult_le_0_compat; [|apply Qlt_le_weak, pow2_pos].
  change 0 with (inject_Z 0). rewrite <- Zle_Qle.
  apply round_half_even_nonneg.
  apply Qle_shift_div_l; [apply pow2_pos|]. lra.
Qed.

(** Below [2^k] the rounding error is at most [2^(k-54)], half a unit in
    the last place. *)
Lemma round_positive_error (x : Q) (k : Z) :
  0 < x -> x < pow2 k -> (-1021 <= k)%Z ->
  Qabs (round_positive x - x) <= pow2 (k - 54).
Proof.
  intros Hx Hk Hmin. unfold round_positive.
  destruct (binade_spec x Hx) as [Hb _].
  assert (Hbk : (binade x < k)%Z).
  { apply pow2_lt_inv. eapply Qle_lt_trans; eassumption. }
  set (u := Z.max (binade x - 52) (-1074)).
  assert (Hu : (u <= k - 53)%Z) by (unfold u; lia).
  pose proof (pow2_pos u) as Hpu.
  set (y := x / pow2 u).
  assert (Hy : x == y * pow2 u).
  { unfold y. field. intros H. rewrite H in Hpu. discriminate Hpu. }
  pose proof (round_half_even_error y) as Herr.
  set (r := inject_Z (round_half_even y)) in *.
  assert (Heq : r * pow2 u - x == (r - y) * pow2 u) by (rewrite Hy at 1; ring).
  rewrite Heq, Qabs_Qmult, (Qabs_pos (pow2 u)) by (apply Qlt_le_weak, Hpu).
  apply Qle_trans with (y := (1 # 2) * pow2 u).
  - apply Qmult_le_compat_r; [exact Herr|apply Qlt_le_weak, Hpu].
  - rewrite pow2_half. apply pow2_le. lia.
Qed.

Lemma round_double_zero (x : Q) : x == 0 -> round_double x = 0.
Proof. intros H. unfold round_double. apply Qeq_alt in H. now rewrite H. Qed.

Lemma round_double_pos (x : Q) : 0 < x -> round_double x = round_positive x.
Proof.
  intros H. unfold round_double. apply Qgt_alt in H. now rewrite H.
Qed.

Lemma round_double_nonneg (x : Q) : 0 <= x -> 0 <= round_double x.
Proof.
  intros Hx. destruct (Qlt_le_dec 0 x) as [Hp|Hz].
  - rewrite round_double_pos by exact Hp. now apply round_positive_nonneg.
  - rewrite round_double_zero by lra. lra.
Qed.

Lemma round_double_error (x : Q) (k : Z) :
  0 <= x -> x < pow2 k -> (-1021 <= k)%Z ->
  Qabs (round_double x - x) <= pow2 (k - 54).
Proof.
  intros Hx Hk Hmin. destruct (Qlt_le_dec 0 x) as [Hp|Hz].
  - rewrite round_double_pos by exact Hp. now apply round_positive_error.
  - rewrite round_double_zero by lra.
    assert (H0 : 0 - x == 0) by lra. rewrite H0. cbn [Qabs Z.abs Qnum Qden].
    apply Qlt_le_weak, pow2_pos.
Qed.

End Rounding.

Section ClockDisplays.

Local Open Scope Q_scope.

(** Seconds as a clock shows them: minutes, a colon, two digits. *)
Definition shown_as (text : string) (sec : Z) : Prop :=
  exists m r : Z,
    text = pretty m +:+ ":" +:+ two_digits r /\
    (0 <= m)%Z /\ (0 <= r < 60)%Z /\ (60 * m + r = sec)%Z.

Lemma floor_in_range (x : Q) :
  0 <= x -> x <= inject_Z MAX_SAFE_INTEGER ->
  (0 <= Qfloor x <= MAX_SAFE_INTEGER)%Z.
Proof.
  intros H0 H1. split.
  - change 0%Z with (Qfloor 0). apply Qfloor_resp_le, H0.
  - rewrite <- (Qfloor_Z MAX_SAFE_INTEGER). apply Qfloor_resp_le, H1.
Qed.

Lemma clock_shown (sec : Z) :
  (0 <= sec <= MAX_SAFE_INTEGER)%Z ->
  exists text, clock sec = Some text /\ shown_as text sec.
Proof.
  intros Hs. rewrite clock_nonneg by exact Hs. eexists. split; [reflexivity|].
  exists (sec / 60)%Z, (sec mod 60)%Z. split; [reflexivity|].
  split; [apply Z.div_pos; lia|].
  split; [apply Z.mod_pos_bound; lia|].
  symmetry. apply Z.div_mod. lia.
Qed.

(** X6: an elapsed time that is not negative is shown as minutes, a colon
    and exactly two digits of seconds below 60, which together are the whole
    seconds elapsed. *)
Theorem formattedElapsedTime_shown (s : ProgressState) :
  0 <= elapsed_time s ->
  elapsed_time s <= inject_Z MAX_SAFE_INTEGER ->
  exists text,
    formattedElapsedTime s = Some text /\
    shown_as text (Qfloor (elapsed_time s)) /\
    inject_Z (Qfloor (elapsed_time s)) <= elapsed_time s /\
    elapsed_time s < inject_Z (Qfloor (elapsed_time s) + 1).
Proof.
  intros H0 H1. unfold formattedElapsedTime.
  destruct (clock_shown (Qfloor (elapsed_time s))) as [text [Hc Hshown]];
    [now apply floor_in_range|].
  exists text. split; [exact Hc|]. split; [exact Hshown|].
  split; [apply Qfloor_le|apply Qlt_floor].
Qed.

(** X7: two elapsed times that are not negative are shown by the same text
    exactly when they have the same whole seconds. *)
Theorem formattedElapsedTime_same (s s' : ProgressState) :
  0 <= elapsed_time s -> elapsed_time s <= inject_Z MAX_SAFE_INTEGER ->
  0 <= elapsed_time s' -> elapsed_time s' <= inject_Z MAX_SAFE_INTEGER ->
  (formattedElapsedTime s = formattedElapsedTime s' <->
   Qfloor (elapsed_time s) = Qfloor (elapsed_time s')).
Proof.
  intros H0 H1 H0' H1'. unfold formattedElapsedTime. split.
  - apply clock_inj; now apply floor_in_range.
  - intros ->. reflexivity.
Qed.

(** [completedCount] of [estimatedTimeRemaining]. *)
Definition completedCount (s : ProgressState) : Q :=
  if negb (Qle_bool (completed_videos s) 0) then completed_videos s
  else video_index s.

(** The seconds [estimatedTimeRemaining] computes. *)
Definition remainingSeconds (s : ProgressState) : Z :=
  Qfloor (round_double
            (round_double (elapsed_time s / completedCount s)
             * round_double (total_videos s - completedCount s))).

Lemma estimatedTimeRemaining_cases (s : ProgressState) :
  (completedCount s == 0 \/ elapsed_time s == 0 ->
   estimatedTimeRemaining s = Some Null) /\
  (~ (completedCount s == 0 \/ elapsed_time s == 0) ->
   estimatedTimeRemaining s = Text <$> clock (remainingSeconds s)).
Proof.
  split.
  - intros Hz. unfold estimatedTimeRemaining. fold (completedCount s).
    destruct Hz as [Hz|Hz]; apply Qeq_bool_iff in Hz; rewrite Hz;
      [reflexivity|]. rewrite orb_true_r. reflexivity.
  - intros Hn. unfold estimatedTimeRemaining. fold (completedCount s).
    destruct (Qeq_bool (completedCount s) 0) eqn:E1.
    { apply Qeq_bool_iff in E1. tauto. }
    destruct (Qeq_bool (elapsed_time s) 0) eqn:E2.
    { apply Qeq_bool_iff in E2. tauto. }
    cbn [orb]. rewrite js_div_defined; [reflexivity|].
    intros H. apply Hn. now left.
Qed.

(** X9: once everything counted as completed equals [total_videos], and
    some time has elapsed, the estimate reads 0:00. *)
Theorem estimatedTimeRemaining_done (s : ProgressState) :
  ~ completedCount s == 0 -> ~ elapsed_time s == 0 ->
  completedCount s == total_videos s ->
  estimatedTimeRemaining s = Some (Text "0:00").
Proof.
  intros Hc He Hall.
  destruct (estimatedTimeRemaining_cases s) as [_ Hnz].
  rewrite Hnz by tauto. unfold remainingSeconds.
  rewrite (round_double_zero (total_videos s - completedCount s))
    by (rewrite Hall; ring).
  rewrite (round_double_zero (_ * 0)) by ring.
  reflexivity.
Qed.

Lemma mul_abs_le (a b e m : Q) :
  - e <= a -> a <= e -> 0 <= b -> b <= m ->
  - (e * m) <= a * b /\ a * b <= e * m.
Proof.
  intros Ha1 Ha2 Hb1 Hb2.
  assert (He : 0 <= e) by lra.
  assert (Hem : 0 <= e * m) by (apply Qmult_le_0_compat; lra).
  destruct (Qlt_le_dec a 0) as [Hn|Hp].
  - assert (H0 : 0 <= (- a) * b) by (apply Qmult_le_0_compat; lra).
    assert (H1 : (- a) * b <= e * m)
      by (apply Qmult_le_compat_nonneg; split; lra).
    assert (Heq : a * b == - ((- a) * b)) by ring.
    rewrite Heq. split; lra.
  - assert (H0 : 0 <= a * b) by (apply Qmult_le_0_compat; lra).
    assert (H1 : a * b <= e * m)
      by (apply Qmult_le_compat_nonneg; split; lra).
    split; lra.
Qed.

(** The error of a product of two rounded factors. *)
Lemma rounded_product_error (x y x' y' : Q) :
  0 <= x -> x < 1048576 -> 0 <= y -> y < 1048576 ->
  0 <= x' -> 0 <= y' ->
  Qabs (x' - x) <= pow2 (-34) -> Qabs (y' - y) <= pow2 (-34) ->
  0 <= x' * y' /\ x' * y' < pow2 42 /\
  Qabs (x' * y' - x * y) <= (1 # 8192) + (1 # 16384).
Proof.
  intros Hx0 Hx1 Hy0 Hy1 Hx' Hy' Ex Ey.
  assert (E34 : pow2 (-34) == 1 # 17179869184) by reflexivity.
  assert (E42 : pow2 42 == 4398046511104) by reflexivity.
  rewrite E34 in Ex, Ey. rewrite E42.
  apply Qabs_Qle_condition in Ex. apply Qabs_Qle_condition in Ey.
  destruct Ex as [Ex1 Ex2]. destruct Ey as [Ey1 Ey2].
  assert (Hx2 : x' <= 1048577) by lra.
  assert (Hy2 : y' <= 1048577) by lra.
  split; [now apply Qmult_le_0_compat|]. split.
  - apply Qle_lt_trans with (y := 1048577 * 1048577); [|reflexivity].
    apply Qmult_le_compat_nonneg; split; assumption.
  - assert (Hd : x' * y' - x * y == (x' - x) * y' + (y' - y) * x) by ring.
    rewrite Hd. apply Qabs_Qle_condition.
    assert (A : - ((1 # 17179869184) * 2097152) <= (x' - x) * y' /\
                (x' - x) * y' <= (1 # 17179869184) * 2097152)
      by (apply mul_abs_le; lra).
    assert (B : - ((1 # 17179869184) * 1048576) <= (y' - y) * x /\
                (y' - y) * x <= (1 # 17179869184) * 1048576)
      by (apply mul_abs_le; lra).
    assert (C1 : (1 # 17179869184) * 2097152 == 1 # 8192) by reflexivity.
    assert (C2 : (1 # 17179869184) * 1048576 == 1 # 16384) by reflexivity.
    rewrite C1 in A. rewrite C2 in B. destruct A, B. split; lra.
Qed.

(** X10: in a run (something counted as completed, not more than the
    total, time elapsed; below 2^20 seconds per video and 2^20 videos) the
    estimate is a clock text of seconds that are not negative, and these
    are the exact estimate [elapsed / count * (total - count)] rounded
    down, up to the rounding of the three operations: never more than
    1/2048 s above it and less than a second and 1/2048 s below it. *)
Theorem estimatedTimeRemaining_shown (s : ProgressState) :
  0 < completedCount s -> completedCount s <= total_videos s ->
  0 < elapsed_time s ->
  elapsed_time s / completedCount s < 1048576 ->
  total_videos s < 1048576 ->
  exists text sec,
    estimatedTimeRemaining s = Some (Text text) /\
    shown_as text sec /\ (0 <= sec)%Z /\
    inject_Z sec
    <= elapsed_time s / completedCount s
       * (total_videos s - completedCount s) + (1 # 2048) /\
    elapsed_time s / completedCount s
    * (total_videos s - completedCount s) - (1 # 2048) - 1
    < inject_Z sec.
Proof.
  intros Hc Hct He Havg Htot.
  destruct (estimatedTimeRemaining_cases s) as [_ Hnz].
  rewrite Hnz by (intros [H|H]; lra). unfold remainingSeconds.
  set (x := elapsed_time s / completedCount s) in *.
  set (y := total_videos s - completedCount s).
  assert (Hx0 : 0 <= x) by (apply Qle_shift_div_l; [exact Hc|lra]).
  assert (Hy0 : 0 <= y) by (unfold y; lra).
  assert (Hy1 : y < 1048576) by (unfold y; lra).
  assert (P20 : pow2 20 == 1048576) by reflexivity.
  pose proof (round_double_nonneg x Hx0) as Hx'.
  pose proof (round_double_nonneg y Hy0) as Hy'.
  assert (Ex : Qabs (round_double x - x) <= pow2 (-34)).
  { apply (round_double_error x 20); [exact Hx0|rewrite P20; exact Havg|lia]. }
  assert (Ey : Qabs (round_double y - y) <= pow2 (-34)).
  { apply (round_double_error y 20); [exact Hy0|rewrite P20; exact Hy1|lia]. }
  destruct (rounded_product_error x y (round_double x) (round_double y)
              Hx0 Havg Hy0 Hy1 Hx' Hy' Ex Ey) as (Hq0 & Hq1 & Eq).
  set (q := round_double x * round_double y) in *.
  pose proof (round_double_nonneg q Hq0) as Hp0.
  assert (Ep : Qabs (round_double q - q) <= pow2 (-12)).
  { apply (round_double_error q 42); [exact Hq0|exact Hq1|lia]. }
  assert (E12 : pow2 (-12) == 1 # 4096) by reflexivity.
  rewrite E12 in Ep.
  apply Qabs_Qle_condition in Ep. apply Qabs_Qle_condition in Eq.
  set (p := round_double q) in *.
  pose proof (Qfloor_le p) as Hf1. pose proof (Qlt_floor p) as Hf2.
  rewrite inject_Z_plus in Hf2. change (inject_Z 1) with 1 in Hf2.
  assert (Hxy : x * y < 1048576 * 1048576).
  { destruct (Qlt_le_dec 0 y) as [Hyp|Hyz].
    - apply Qle_lt_trans with (y := 1048576 * y).
      + apply Qmult_le_compat_r; lra.
      + apply Qmult_lt_l; [reflexivity|exact Hy1].
    - assert (Hz : y == 0) by lra.
      assert (Hxz : x * y == 0) by (rewrite Hz; ring).
      rewrite Hxz. reflexivity. }
  assert (Hmax : p <= inject_Z MAX_SAFE_INTEGER).
  { apply Qle_trans with (y := 1048576 * 1048576 + 1); [lra|discriminate]. }
  destruct (floor_in_range p Hp0 Hmax) as [Hlo Hhi].
  destruct (clock_shown _ (conj Hlo Hhi)) as [text [Hclock Hshown]].
  rewrite Hclock. exists text, (Qfloor p). split; [reflexivity|].
  split; [exact Hshown|]. split; [exact Hlo|]. split; lra.
Qed.

(** X11: a video's duration is shown as [null] exactly when it is missing
    or zero; any other duration that is not negative, fractions of a second
    included, is shown as a clock text of its whole seconds. *)
Theorem formattedDuration_shown (duration_sec : option Q) :
  (formattedDuration duration_sec = Some Null <->
   duration_sec = None \/ exists d, duration_sec = Some d /\ d == 0) /\
  (forall d, duration_sec = Some d -> 0 < d ->
     d <= inject_Z MAX_SAFE_INTEGER ->
     exists text,
       formattedDuration duration_sec = Some (Text text) /\
       shown_as text (Qfloor d)).
Proof.
  split; [split|].
  - destruct duration_sec as [d|]; [|now left]. cbn [formattedDuration].
    destruct (Qeq_bool d 0) eqn:E.
    + intros _. right. exists d. split; [reflexivity|].
      now apply Qeq_bool_iff.
    + intros H. destruct (clock _); discriminate H.
  - intros [->|[d [-> Hd]]]; [reflexivity|]. cbn [formattedDuration].
    apply Qeq_bool_iff in Hd. rewrite Hd. reflexivity.
  - intros d -> Hpos Hmax. cbn [formattedDuration].
    destruct (Qeq_bool d 0) eqn:E.
    { apply Qeq_bool_iff in E. lra. }
    destruct (clock_shown (Qfloor d)) as [text [Hc Hs]];
      [apply floor_in_range; lra|].
    rewrite Hc. exists text. split; [reflexivity|exact Hs].
Qed.

(** Two minutes, five and a half seconds into a run of two videos, the
    first one completed. *)
Definition timed : ProgressState := {|
  stage := processing;
  current_video := Some "b.mp4";
  video_index := 1;
  total_videos := 2;
  tokens_generated := 0;
  tokens_per_sec := 0;
  model_loaded := true;
  vram_used_gb := 0;
  substage := generating;
  substage_progress := 1 # 2;
  error_message := None;
  elapsed_time := 251 # 2;
  batch_size := 1;
  workers := [];
  completed_videos := 1
|}.

(** The same run at its end. *)
Definition timed_done : ProgressState := {|
  stage := complete;
  current_video := Some "b.mp4";
  video_index := 1;
  total_videos := 2;
  tokens_generated := 0;
  tokens_per_sec := 0;
  model_loaded := true;
  vram_used_gb := 0;
  substage := sub_idle;
  substage_progress := 0;
  error_message := None;
  elapsed_time := 251;
  batch_size := 1;
  workers := [];
  completed_videos := 2
|}.

Example timed_displays :
  formattedElapsedTime timed = Some "2:05" /\
  estimatedTimeRemaining timed = Some (Text "2:05") /\
  formattedElapsedTime timed_done = Some "4:11" /\
  estimatedTimeRemaining initialProgressState = Some Null /\
  formattedDuration (Some (1 # 2)) = Some (Text "0:00").
Proof. vm_compute. repeat split. Qed.

(** Seven of fourteen videos after 61 seconds: the quotient 61/7 is not a
    double, the product of the rounded quotient and 7 is just below 61,
    and the estimate reads one minute. *)
Definition seven_of_fourteen : ProgressState := {|
  stage := processing;
  current_video := Some "h.mp4";
  video_index := 7;
  total_videos := 14;
  tokens_generated := 0;
  tokens_per_sec := 0;
  model_loaded := true;
  vram_used_gb := 0;
  substage := generating;
  substage_progress := 0;
  error_message := None;
  elapsed_time := 61;
  batch_size := 1;
  workers := [];
  completed_videos := 7
|}.

Example rounded_estimate :
  estimatedTimeRemaining seven_of_fourteen = Some (Text "1:00") /\
  Qfloor (elapsed_time seven_of_fourteen / completedCount seven_of_fourteen
          * (total_videos seven_of_fourteen
             - completedCount seven_of_fourteen)) = 61%Z /\
  Qred (round_double (61 # 7)) = 4905706736957147 # 562949953421312 /\
  Qred (round_double (1 # 10)) = 3602879701896397 # 36028797018963968.
Proof. vm_compute. repeat split. Qed.

Lemma formattedElapsedTime_shown_witness :
  exists text,
    formattedElapsedTime timed = Some text /\
    shown_as text (Qfloor (elapsed_time timed)) /\
    inject_Z (Qfloor (elapsed_time timed)) <= elapsed_time timed /\
    elapsed_time timed < inject_Z (Qfloor (elapsed_time timed) + 1).
Proof.
  apply (formattedElapsedTime_shown timed); unfold Qle; vm_compute;
    discriminate.
Defined.

Lemma formattedElapsedTime_same_witness :
  formattedElapsedTime timed = formattedElapsedTime timed <->
  Qfloor (elapsed_time timed) = Qfloor (elapsed_time timed).
Proof.
  apply (formattedElapsedTime_same timed timed); unfold Qle; vm_compute;
    discriminate.
Defined.

Lemma estimatedTimeRemaining_done_witness :
  estimatedTimeRemaining timed_done = Some (Text "0:00").
Proof.
  apply (estimatedTimeRemaining_done timed_done).
  - vm_compute. discriminate.
  - vm_compute. discriminate.
  - reflexivity.
Defined.

Lemma estimatedTimeRemaining_shown_witness :
  exists text sec,
    estimatedTimeRemaining seven_of_fourteen = Some (Text text) /\
    shown_as text sec /\ (0 <= sec)%Z /\
    inject_Z sec
    <= elapsed_time seven_of_fourteen / completedCount seven_of_fourteen
       * (total_videos seven_of_fourteen
          - completedCount seven_of_fourteen) + (1 # 2048) /\
    elapsed_time seven_of_fourteen / completedCount seven_of_fourteen
    * (total_videos seven_of_fourteen - completedCount seven_of_fourteen)
    - (1 # 2048) - 1
    < inject_Z sec.
Proof.
  apply (estimatedTimeRemaining_shown seven_of_fourteen).
  - reflexivity.
  - unfold Qle. vm_compute. discriminate.
  - reflexivity.
  - reflexivity.
  - reflexivity.
Defined.

Lemma formattedDuration_shown_witness :
  exists text,
    formattedDuration (Some (1 # 2)) = Some (Text text) /\
    shown_as text (Qfloor (1 # 2)).
Proof.
  apply (proj2 (formattedDuration_shown (Some (1 # 2))) (1 # 2)).
  - reflexivity.
  - reflexivity.
  - unfold Qle. vm_compute. discriminate.
Defined.

End ClockDisplays.

(** * The API client and the Start button

    [composables/useApi.ts] with its [loading] and [error] refs,
    [updateSettings] of [stores/settingsStore.ts], and
    [handleStartProcessing] of [App.vue], which calls both. *)

(** [result?.success ?? false] behind [loadModel], [unloadModel] and
    [deletePrompt], which differ from [stopProcessing] in the URL only. *)
Definition loadModel (r : option HttpResponse) : Value := stopProcessing r.
Definition unloadModel (r : option HttpResponse) : Value := stopProcessing r.
Definition deletePrompt (r : option HttpResponse) : Value := stopProcessing r.

(** [result?.status === 'healthy'] *)
Definition checkHealth (r : option HttpResponse) : bool :=
  match request r with
  | Some (VObj o) =>
      match o !! "status" with
      | Some (VStr s) => String.eqb s "healthy"
      | _ => false
      end
  | _ => false
  end.

Module Api.

(** What [response.json()] settles to: a parsed value, or a rejection with
    the parser's message. *)
Inductive Body := Json (v : Value) | NotJson (msg : string).

(** What [fetch] settles to: a rejection with the thrown value ([Some msg]
    for an [Error] of that message, [None] for anything else), or a response
    with its [ok] flag, status and body. *)
Inductive FetchResult :=
| Rejects (e : option string)
| Resolves (ok : bool) (status : nat) (body : Body).

(** What is handed to [fetch]: the body is the value given to
    [JSON.stringify], [None] for [undefined]. *)
Record HttpRequest := {
  url : string;
  method : string;
  body : option Value
}.

Record ApiState := {
  loading : bool;
  error : option string
}.

(** Truthiness of a JSON value. *)
Definition truthy_value (v : Value) : bool :=
  match v with
  | VNull => false
  | VBool b => b
  | VNum q => negb (Qeq_bool q 0)
  | VStr s => negb (String.eqb s "")
  | VArr _ | VObj _ => true
  end.

(** The response as [request] of the first part sees it. *)
Definition response_of (f : FetchResult) : option HttpResponse :=
  match f with
  | Rejects _ => None
  | Resolves ok _ (Json v) => Some {| ok := ok; json := Some v |}
  | Resolves ok _ (NotJson _) => Some {| ok := ok; json := None |}
  end.

Section Request.

(** [String(v)] of a truthy value that is not a string, and the message of
    the [TypeError] for reading a property of [null]: both are the
    engine's. *)
Variable String_of : Value -> string.
Variable null_property_message : string.

(** The message of the error thrown for a response that is not [ok]:
    [data.detail || `HTTP ${response.status}`], where [data] is the body or
    [{}] when it does not parse; reading [detail] of [null] throws. *)
Definition not_ok_message (status : nat) (b : Body) : string :=
  let data := match b with Json v => v | NotJson _ => VObj ∅ end in
  match data with
  | VNull => null_property_message
  | VObj o =>
      match o !! "detail" with
      | Some d =>
          if truthy_value d
          then match d with VStr s => s | _ => String_of d end
          else "HTTP " +:+ pretty status
      | None => "HTTP " +:+ pretty status
      end
  | _ => "HTTP " +:+ pretty status
  end.

(** [request]: the refs are set on entry ([loading = true], [error = null]),
    the error is set in the [catch], and [loading] is reset in the
    [finally]. *)
Definition request (prev : ApiState) (f : FetchResult) :
  option Value * ApiState :=
  let entered := {| loading := true; error := None |} in
  let '(result, caught) :=
    match f with
    | Rejects (Some msg) => (None, Some msg)
    | Rejects None => (None, Some "Unknown error")
    | Resolves true _ (Json v) => (Some v, error entered)
    | Resolves true _ (NotJson msg) => (None, Some msg)
    | Resolves false status b => (None, Some (not_ok_message status b))
    end in
  (result, {| loading := false; error := caught |}).

(** [startProcessing(videoNames)]: the body is present when [videoNames] is
    an array, empty or not. *)
Definition startProcessing_request (videoNames : option (list string)) :
  HttpRequest :=
  {| url := "/api/process/start";
     method := "POST";
     body := match videoNames with
             | Some names =>
                 Some (VObj {[ "video_names" := VArr (VStr <$> names) ]})
             | None => None
             end |}.

End Request.

End Api.

Module Settings.

Import Api.

(** The refs of the settings store that [updateSettings] touches. *)
Record SettingsState := {
  settings : Value;
  loading : bool;
  error : option string
}.

Definition updateSettings_request (update : Value) : HttpRequest :=
  {| url := "/api/settings"; method := "POST"; body := Some update |}.

(** [updateSettings]: the new state, and the error thrown on to the caller
    if any ([Some None]: a thrown value that is no [Error]). *)
Definition updateSettings (st : SettingsState) (f : FetchResult) :
  SettingsState * option (option string) :=
  match f with
  | Resolves true _ (Json v) =>
      ({| settings := v; loading := false; error := None |}, None)
  | Resolves true _ (NotJson msg) =>
      ({| settings := settings st; loading := false; error := Some msg |},
       Some (Some msg))
  | Resolves false _ _ =>
      ({| settings := settings st; loading := false;
          error := Some "Failed to update settings" |},
       Some (Some "Failed to update settings"))
  | Rejects (Some msg) =>
      ({| settings := settings st; loading := false; error := Some msg |},
       Some (Some msg))
  | Rejects None =>
      ({| settings := settings st; loading := false;
          error := Some "Unknown error" |},
       Some None)
  end.

End Settings.

Module App.

Import Api.

(** The part of the application [handleStartProcessing] works on:
    [selectedVideos] in insertion order, the settings store, the refs of
    [useApi], the [startingProcess] ref, and the requests sent so far. *)
Record AppState := {
  selectedVideos : list string;
  settingsStore : Settings.SettingsState;
  api : ApiState;
  startingProcess : bool;
  sent : list HttpRequest
}.

Section Handlers.

Variable String_of : Value -> string.
Variable null_property_message : string.

(** [handleStartProcessing]: [save] and [start] are what the two fetches
    settle to; the second component tells whether the handler's promise
    rejects. *)
Definition handleStartProcessing
    (app : AppState) (save start : FetchResult) : AppState * bool :=
  let saving := Settings.updateSettings_request
                  (Settings.settings (settingsStore app)) in
  let '(store, thrown) := Settings.updateSettings (settingsStore app) save in
  match thrown with
  | Some _ =>
      ({| selectedVideos := selectedVideos app; settingsStore := store;
          api := api app; startingProcess := false;
          sent := sent app ++ [saving] |}, true)
  | None =>
      let videoNames :=
        if (0 <? length (selectedVideos app))%nat
        then Some (selectedVideos app) else None in
      let '(_, api') :=
        request String_of null_property_message (api app) start in
      ({| selectedVideos := selectedVideos app; settingsStore := store;
          api := api'; startingProcess := false;
          sent := sent app ++ [saving; startProcessing_request videoNames] |},
       false)
  end.

End Handlers.

(** The calls of [videoStore.markVideoAsCaptioned] made by the watcher of
    [state.current_video] when the state goes from [old] to [new]. *)
Definition watch_current_video (old new : ProgressState) : list string :=
  if decide (current_video new = current_video old) then []
  else
    match current_video old with
    | Some oldVideo =>
        if truthy (Some oldVideo) && isProcessing new then [oldVideo] else []
    | None => []
    end.

(** The calls made by the watcher of [isComplete]. *)
Definition watch_isComplete (old new : ProgressState) : list string :=
  if Bool.eqb (isComplete new) (isComplete old) then []
  else if isComplete new && negb (isComplete old) then
    match current_video new with
    | Some v => if truthy (Some v) then [v] else []
    | None => []
    end
  else [].

(** Both watchers, in the order they were set up. *)
Definition marked (old new : ProgressState) : list string :=
  watch_current_video old new ++ watch_isComplete old new.

(** [processingVideoName] *)
Definition processingVideoName (s : ProgressState) : option string :=
  if isProcessing s then current_video s else None.

End App.

Section ApiClient.

(** X12: the calls that answer with a boolean never report success for a
    request that failed: with no usable response [loadModel], [unloadModel],
    [stopProcessing] and [deletePrompt] return [false] and so does
    [checkHealth]; and [true] comes only from an [ok] response whose body
    has [success: true], or [status: 'healthy'] for the health check. *)
Theorem failure_is_never_success (r : option HttpResponse) :
  (request r = None ->
   loadModel r = VBool false /\ unloadModel r = VBool false /\
   stopProcessing r = VBool false /\ deletePrompt r = VBool false /\
   checkHealth r = false) /\
  (stopProcessing r = VBool true ->
   exists o, r = Some {| ok := true; json := Some (VObj o) |} /\
             o !! "success" = Some (VBool true)) /\
  (checkHealth r = true ->
   exists o, r = Some {| ok := true; json := Some (VObj o) |} /\
             o !! "status" = Some (VStr "healthy")).
Proof.
  split; [|split].
  - intros Hr. unfold loadModel, unloadModel, deletePrompt, stopProcessing,
      checkHealth. rewrite Hr. repeat split.
  - unfold stopProcessing, request.
    destruct r as [[[] [[| | | | |o]|]]|]; try discriminate.
    cbn [ok json].
    destruct (o !! "success") as [[]|] eqn:Hs; try discriminate;
      intros H; exists o; (split; [reflexivity|congruence]).
  - unfold checkHealth, request.
    destruct r as [[[] [[| | | | |o]|]]|]; try discriminate.
    cbn [ok json].
    destruct (o !! "status") as [[| | |s| |]|] eqn:Hs; try discriminate.
    intros H. exists o. split; [reflexivity|].
    apply String.eqb_eq in H. congruence.
Qed.

Lemma failure_is_never_success_witness :
  loadModel (Some {| ok := false; json := Some (VObj {[
      "success" := VBool true ]}) |}) = VBool false.
Proof.
  apply (failure_is_never_success (Some {| ok := false; json := Some (VObj {[
      "success" := VBool true ]}) |})).
  reflexivity.
Defined.

Variable String_of : Value -> string.
Variable null_property_message : string.

Local Abbreviation api_request := (Api.request String_of null_property_message).

(** X13: whatever the refs held before, after [request] [loading] is
    false; a result is returned only for an [ok] response with a JSON body,
    and then [error] is [null]; in every other case (rejected fetch, status
    not ok, body that does not parse) the result is [null] and [error] is
    set; the result is the one the stateless reading gives. *)
Theorem request_contract (prev : Api.ApiState) (f : Api.FetchResult) :
  Api.loading (snd (api_request prev f)) = false /\
  (forall v, fst (api_request prev f) = Some v ->
     Api.error (snd (api_request prev f)) = None /\
     exists status, f = Api.Resolves true status (Api.Json v)) /\
  (fst (api_request prev f) = None ->
     exists msg, Api.error (snd (api_request prev f)) = Some msg) /\
  fst (api_request prev f) = request (Api.response_of f) /\
  (forall prev', api_request prev' f = api_request prev f).
Proof.
  destruct f as [[msg|]|[] status [v|msg]]; cbn;
    (split; [reflexivity|]);
    (split; [intros v' H; try discriminate H|]);
    try (split; [intros H; try discriminate H; eauto|]);
    try (split; [reflexivity|intros; reflexivity]).
  injection H as <-. split; [reflexivity|]. eauto.
Qed.

End ApiClient.

Section StartButton.

Import Api App.

Variable String_of : Value -> string.
Variable null_property_message : string.

Local Abbreviation handle :=
  (App.handleStartProcessing String_of null_property_message).

(** The settings were saved: an [ok] response with a JSON body. *)
Definition saved (f : FetchResult) : Prop :=
  exists status v, f = Resolves true status (Json v).

(** X14: [handleStartProcessing] first posts the current settings; if that
    fails in any way the start request is never sent, the handler's promise
    rejects, the stored settings and the refs of the API client stay as
    they were and the settings store holds an error; only after a
    successful save is the start request sent, as the second and last
    request.  In both cases [startingProcess] ends false and the selection
    is untouched. *)
Theorem start_needs_saved_settings
    (app : AppState) (save start : FetchResult) :
  let saving :=
    Settings.updateSettings_request (Settings.settings (settingsStore app)) in
  startingProcess (fst (handle app save start)) = false /\
  selectedVideos (fst (handle app save start)) = selectedVideos app /\
  (~ saved save ->
   snd (handle app save start) = true /\
   sent (fst (handle app save start)) = sent app ++ [saving] /\
   Settings.settings (settingsStore (fst (handle app save start)))
   = Settings.settings (settingsStore app) /\
   is_Some (Settings.error (settingsStore (fst (handle app save start)))) /\
   api (fst (handle app save start)) = api app) /\
  (forall status v, save = Resolves true status (Json v) ->
   snd (handle app save start) = false /\
   (exists r, sent (fst (handle app save start)) = sent app ++ [saving; r]
              /\ url r = "/api/process/start" /\ method r = "POST") /\
   Settings.settings (settingsStore (fst (handle app save start))) = v).
Proof.
  intros saving. unfold App.handleStartProcessing.
  destruct (request String_of null_property_message (api app) start)
    as [result api'].
  destruct save as [[msg|]|[] status [v|msg]]; cbn;
    (split; [reflexivity|]); (split; [reflexivity|]);
    (split; [intros Hns|intros status' v' Hs; try discriminate Hs]);
    try (repeat split; eauto; fail).
  - exfalso. apply Hns. now exists status, v.
  - injection Hs as _ <-. split; [reflexivity|]. split; [|reflexivity].
    eexists. split; [reflexivity|]. split; reflexivity.
Qed.

(** X15: the start request sent by [handleStartProcessing] has no body when
    nothing is selected and otherwise lists exactly the selected videos in
    their order; it never carries an empty [video_names] list, which
    [startProcessing] itself would send for an empty array. *)
Theorem start_request_body
    (app : AppState) (save start : FetchResult) (r : HttpRequest) :
  In r (sent (fst (handle app save start))) ->
  ~ In r (sent app) ->
  url r = "/api/process/start" ->
  (selectedVideos app = [] /\ body r = None) \/
  (selectedVideos app <> [] /\
   body r = Some (VObj {[ "video_names" :=
                            VArr (VStr <$> selectedVideos app) ]})) .
Proof.
  unfold App.handleStartProcessing.
  destruct (request String_of null_property_message (api app) start)
    as [result api'].
  destruct (Settings.updateSettings (settingsStore app) save)
    as [store [thrown|]]; cbn [fst sent]; intros Hin Hold Hurl.
  - apply in_app_or in Hin. destruct Hin as [Hin|[<-|[]]];
      [contradiction|discriminate Hurl].
  - apply in_app_or in Hin. destruct Hin as [Hin|[<-|[<-|[]]]];
      [contradiction|discriminate Hurl|].
    destruct (selectedVideos app) as [|x xs]; cbn; [left|right]; split;
      try reflexivity. discriminate.
Qed.

Lemma startProcessing_sends_empty_list :
  body (startProcessing_request (Some []))
  = Some (VObj {[ "video_names" := VArr [] ]}).
Proof. reflexivity. Qed.

End StartButton.

Definition two_selected : App.AppState := {|
  App.selectedVideos := ["a.mp4"; "b.mp4"];
  App.settingsStore := {| Settings.settings := VObj ∅;
                          Settings.loading := false;
                          Settings.error := None |};
  App.api := {| Api.loading := false; Api.error := None |};
  App.startingProcess := false;
  App.sent := []
|}.

Lemma start_request_body_witness :
  (App.selectedVideos two_selected = [] /\
   Api.body (Api.startProcessing_request (Some ["a.mp4"; "b.mp4"])) = None) \/
  (App.selectedVideos two_selected <> [] /\
   Api.body (Api.startProcessing_request (Some ["a.mp4"; "b.mp4"]))
   = Some (VObj {[ "video_names" :=
                     VArr (VStr <$> App.selectedVideos two_selected) ]})).
Proof.
  apply (start_request_body (fun _ => "") "" two_selected
           (Api.Resolves true 200 (Api.Json (VObj ∅)))
           (Api.Resolves true 200 (Api.Json (VObj ∅)))
           (Api.startProcessing_request (Some ["a.mp4"; "b.mp4"]))).
  - right. left. reflexivity.
  - intros [].
  - reflexivity.
Defined.

Section Watchers.

Import App.

(** X16: one update of the progress state marks at most one video as
    captioned, never one with an empty name, and none unless the new stage
    is processing or complete; while processing goes on the video marked is
    the one the state has just left, and on completion it is the one the
    completed state names. *)
Theorem marked_at_most_one (old new : ProgressState) :
  (length (marked old new) <= 1)%nat /\
  (forall v, In v (marked old new) ->
     v <> "" /\
     ((isProcessing new = true /\ current_video old = Some v
       /\ current_video new <> Some v) \/
      (isComplete new = true /\ isComplete old = false
       /\ current_video new = Some v))).
Proof.
  unfold marked, watch_current_video, watch_isComplete, isProcessing,
    isComplete, truthy.
  destruct (decide (current_video new = current_video old)) as [He|He];
    destruct (current_video old) as [a|] eqn:Ha;
    destruct (current_video new) as [b|] eqn:Hb;
    destruct (stage new), (stage old); cbn;
    try destruct (String.eqb_spec a "") as [->|Hna];
    try destruct (String.eqb_spec b "") as [->|Hnb]; cbn;
    (split; [lia|]); intros v Hv;
    repeat match goal with
           | H : _ \/ _ |- _ => destruct H as [<-|H]
           | H : False |- _ => destruct H
           end;
    (split; [assumption||congruence|]);
    try (left; repeat split; congruence);
    try (right; repeat split; congruence).
Qed.

(** X17: when the update that completes the run clears [current_video],
    no video is marked although one was being processed; the last video is
    marked only if the completed state still names it. *)
Theorem completion_marks_named_video (old new : ProgressState) :
  isComplete new = true -> isComplete old = false ->
  (current_video new = None -> marked old new = []) /\
  (forall v, current_video new = Some v -> v <> "" -> marked old new = [v]).
Proof.
  intros Hnew Hold.
  assert (Hproc : isProcessing new = false).
  { unfold isProcessing, isComplete in *. destruct (stage new);
      try discriminate Hnew; reflexivity. }
  unfold marked, watch_current_video, watch_isComplete.
  rewrite Hnew, Hold, Hproc. cbn [Bool.eqb negb andb].
  assert (Hfirst :
    (if decide (current_video new = current_video old) then []
     else match current_video old with
          | Some oldVideo =>
              if truthy (Some oldVideo) && false then [oldVideo] else []
          | None => []
          end) = @nil string).
  { destruct (decide _); [reflexivity|].
    destruct (current_video old); [|reflexivity].
    rewrite andb_false_r. reflexivity. }
  rewrite Hfirst. split.
  - intros ->. reflexivity.
  - intros v -> Hv. cbn [truthy app].
    destruct (String.eqb_spec v "") as [->|_]; [contradiction|reflexivity].
Qed.

(** The last video is lost when the completion message clears
    [current_video]. *)
Definition cleared_on_completion : ProgressState := {|
  stage := complete;
  current_video := None;
  video_index := 1;
  total_videos := 2;
  tokens_generated := 0;
  tokens_per_sec := 0;
  model_loaded := true;
  vram_used_gb := 0;
  substage := sub_idle;
  substage_progress := 0;
  error_message := None;
  elapsed_time := 251;
  batch_size := 1;
  workers := [];
  completed_videos := 2
|}.

Lemma completion_marks_named_video_witness :
  marked timed cleared_on_completion = [] /\
  marked timed timed_done = ["b.mp4"].
Proof.
  split.
  - apply (completion_marks_named_video timed cleared_on_completion);
      reflexivity.
  - apply (completion_marks_named_video timed timed_done);
      [reflexivity|reflexivity|reflexivity|discriminate].
Defined.

End Watchers.

(** * The resource WebSocket: reconnecting (composables/useResourceWebSocket.ts) *)

Module ResourceSocket.

Inductive ReadyState := CONNECTING | OPEN | CLOSING | CLOSED.

Definition maxReconnectAttempts : nat := 10.
Definition reconnectDelay : Z := 3000.

(** The state the closures of [useResourceWebSocket] share.  [sockets]
    holds the ready state of every [WebSocket] created so far (their
    handlers stay attached whether or not [ws] still points to them), [ws]
    the index of the one [ws.value] points to; [timers] are the pending
    timers with their delays and [next_timer] the handle the next
    [setTimeout] returns (handles are positive, so a stored handle is
    truthy); [reconnectTimeout] keeps the handle last stored, also after
    that timer has fired. *)
Record State := {
  sockets : list ReadyState;
  ws : option nat;
  connected : bool;
  reconnectAttempts : nat;
  reconnectTimeout : option nat;
  timers : list (nat * Z);
  next_timer : nat
}.

Definition initial : State := {|
  sockets := [];
  ws := None;
  connected := false;
  reconnectAttempts := 0;
  reconnectTimeout := None;
  timers := [];
  next_timer := 1
|}.

Definition clearTimeout (t : nat) (ts : list (nat * Z)) : list (nat * Z) :=
  List.filter (fun p => negb (fst p =? t)%nat) ts.

Definition setConnected (value : bool) (s : State) : State :=
  {| sockets := sockets s; ws := ws s; connected := value;
     reconnectAttempts := reconnectAttempts s;
     reconnectTimeout := reconnectTimeout s;
     timers := timers s; next_timer := next_timer s |}.

Definition cleanup (s : State) : State :=
  match reconnectTimeout s with
  | Some t =>
      {| sockets := sockets s; ws := ws s; connected := connected s;
         reconnectAttempts := reconnectAttempts s;
         reconnectTimeout := None;
         timers := clearTimeout t (timers s); next_timer := next_timer s |}
  | None => s
  end.

Definition attemptReconnect (s : State) : State :=
  if (maxReconnectAttempts <=? reconnectAttempts s)%nat then s
  else
    let attempts := S (reconnectAttempts s) in
    {| sockets := sockets s; ws := ws s; connected := connected s;
       reconnectAttempts := attempts;
       reconnectTimeout := Some (next_timer s);
       timers := timers s ++
                 [(next_timer s,
                   (reconnectDelay * Z.of_nat (Nat.min attempts 3))%Z)];
       next_timer := S (next_timer s) |}.

(** [connect]: [throws] tells whether [new WebSocket] throws. *)
Definition connect (throws : bool) (s : State) : State :=
  match ws s ≫= (fun i => sockets s !! i) with
  | Some OPEN => s
  | _ =>
      if throws then attemptReconnect s
      else
        {| sockets := sockets s ++ [CONNECTING];
           ws := Some (length (sockets s));
           connected := connected s;
           reconnectAttempts := reconnectAttempts s;
           reconnectTimeout := reconnectTimeout s;
           timers := timers s; next_timer := next_timer s |}
  end.

Definition onopen (s : State) : State :=
  let s := setConnected true s in
  {| sockets := sockets s; ws := ws s; connected := connected s;
     reconnectAttempts := 0;
     reconnectTimeout := reconnectTimeout s;
     timers := timers s; next_timer := next_timer s |}.

Definition onclose (s : State) : State :=
  attemptReconnect (cleanup (setConnected false s)).

(** [close()] of a socket. *)
Definition close (r : ReadyState) : ReadyState :=
  match r with
  | CONNECTING | OPEN => CLOSING
  | CLOSING | CLOSED => r
  end.

Definition disconnect (s : State) : State :=
  let s := cleanup s in
  let s :=
    match ws s with
    | Some i =>
        {| sockets := alter close i (sockets s); ws := None;
           connected := connected s;
           reconnectAttempts := reconnectAttempts s;
           reconnectTimeout := reconnectTimeout s;
           timers := timers s; next_timer := next_timer s |}
    | None => s
    end in
  setConnected false s.

Definition set_socket (i : nat) (r : ReadyState) (s : State) : State :=
  {| sockets := <[i := r]> (sockets s); ws := ws s;
     connected := connected s;
     reconnectAttempts := reconnectAttempts s;
     reconnectTimeout := reconnectTimeout s;
     timers := timers s; next_timer := next_timer s |}.

Definition fire (t : nat) (s : State) : State :=
  {| sockets := sockets s; ws := ws s; connected := connected s;
     reconnectAttempts := reconnectAttempts s;
     reconnectTimeout := reconnectTimeout s;
     timers := clearTimeout t (timers s); next_timer := next_timer s |}.

(** What can happen: the component calls [connect] or [disconnect]; the
    browser opens a connecting socket, closes a socket that is not closed
    yet, or fires a pending timer, and runs the handler. *)
Inductive Event :=
| Connect (throws : bool)
| Disconnect
| Opened (i : nat)
| Closed (i : nat)
| Fired (t : nat) (throws : bool).

Definition step (s : State) (e : Event) : State :=
  match e with
  | Connect throws => connect throws s
  | Disconnect => disconnect s
  | Opened i =>
      match sockets s !! i with
      | Some CONNECTING => onopen (set_socket i OPEN s)
      | _ => s
      end
  | Closed i =>
      match sockets s !! i with
      | Some CLOSED | None => s
      | Some _ => onclose (set_socket i CLOSED s)
      end
  | Fired t throws =>
      if existsb (fun p => fst p =? t)%nat (timers s)
      then connect throws (fire t s) else s
  end.

Definition run (s : State) (trace : list Event) : State :=
  fold_left step trace s.

Definition is_Opened (e : Event) : bool :=
  match e with Opened _ => true | _ => false end.

Definition is_Connect_throwing (e : Event) : bool :=
  match e with Connect true => true | _ => false end.

End ResourceSocket.

Section Reconnect.

Import ResourceSocket.

Definition delay_ok (d : Z) : Prop := d = 3000%Z \/ d = 6000%Z \/ d = 9000%Z.

Definition reconnect_inv (s : State) : Prop :=
  (reconnectAttempts s <= maxReconnectAttempts)%nat /\
  Forall (fun p => delay_ok (snd p) /\ (fst p < next_timer s)%nat) (timers s).

Lemma Forall_clearTimeout (P : nat * Z -> Prop) t ts :
  Forall P ts -> Forall P (clearTimeout t ts).
Proof.
  intros H. unfold clearTimeout. apply List.Forall_forall. intros x Hx.
  apply List.filter_In in Hx. destruct Hx as [Hx _].
  rewrite List.Forall_forall in H. now apply H.
Qed.

Lemma reconnect_inv_setConnected b s : reconnect_inv s -> reconnect_inv (setConnected b s).
Proof. intros H; exact H. Qed.

Lemma reconnect_inv_cleanup s : reconnect_inv s -> reconnect_inv (cleanup s).
Proof.
  intros [Ha Ht]. unfold cleanup. destruct (reconnectTimeout s); [|now split].
  split; [exact Ha|]. cbn. now apply Forall_clearTimeout.
Qed.

Lemma reconnect_inv_attemptReconnect s :
  reconnect_inv s -> reconnect_inv (attemptReconnect s).
Proof.
  unfold reconnect_inv, attemptReconnect, maxReconnectAttempts.
  intros [Ha Ht].
  destruct (Nat.leb_spec 10 (reconnectAttempts s)) as [Hge|Hlt]; [now split|].
  cbn [reconnectAttempts timers next_timer].
  split; [lia|]. apply Forall_app. split.
  - eapply Forall_impl; [exact Ht|]. cbn. intros p [Hd Hi].
    split; [exact Hd|lia].
  - constructor; [|constructor]. cbn [fst snd]. split; [|lia].
    unfold delay_ok, reconnectDelay.
    assert (Hm : Nat.min (S (reconnectAttempts s)) 3 = 1%nat \/
                 Nat.min (S (reconnectAttempts s)) 3 = 2%nat \/
                 Nat.min (S (reconnectAttempts s)) 3 = 3%nat) by lia.
    destruct Hm as [-> | [-> | ->]]; cbn; auto.
Qed.

Lemma reconnect_inv_connect b s : reconnect_inv s -> reconnect_inv (connect b s).
Proof.
  intros H. unfold connect.
  destruct (ws s ≫= _) as [[]|]; try exact H;
    (destruct b; [now apply reconnect_inv_attemptReconnect|exact H]).
Qed.

Lemma reconnect_inv_step s e : reconnect_inv s -> reconnect_inv (step s e).
Proof.
  intros H. destruct e as [b| |i|i|t b]; cbn.
  - now apply reconnect_inv_connect.
  - unfold disconnect. apply reconnect_inv_setConnected.
    pose proof (reconnect_inv_cleanup s H) as Hc.
    destruct (ws (cleanup s)); exact Hc.
  - destruct (sockets s !! i) as [[]|]; try exact H.
    destruct H as [Ha Ht]. split; [cbn; lia|exact Ht].
  - destruct (sockets s !! i) as [[]|]; try exact H;
      apply reconnect_inv_attemptReconnect, reconnect_inv_cleanup; exact H.
  - destruct (existsb _ _); [|exact H]. apply reconnect_inv_connect.
    destruct H as [Ha Ht]. split; [exact Ha|]. cbn.
    now apply Forall_clearTimeout.
Qed.

Lemma reconnect_inv_run trace : forall s, reconnect_inv s -> reconnect_inv (run s trace).
Proof.
  induction trace as [|e trace IH]; intros s H; [exact H|].
  cbn. apply IH, reconnect_inv_step, H.
Qed.

(** X18: whatever the component and the browser do, in any order, the
    attempt counter never exceeds 10 and every pending reconnect timer
    waits 3, 6 or 9 seconds. *)
Theorem reconnect_bounded (trace : list Event) :
  (reconnectAttempts (run initial trace) <= 10)%nat /\
  (forall t d, In (t, d) (timers (run initial trace)) ->
     d = 3000%Z \/ d = 6000%Z \/ d = 9000%Z).
Proof.
  destruct (reconnect_inv_run trace initial) as [Ha Ht].
  { split; [cbn; unfold maxReconnectAttempts; lia|constructor]. }
  split; [exact Ha|]. intros t d Hin.
  rewrite List.Forall_forall in Ht. apply (Ht (t, d) Hin).
Qed.


(** Timers set and attempts counted go together as long as no socket
    opens. *)
Lemma attemptReconnect_counts s :
  (next_timer (attemptReconnect s) + reconnectAttempts s
   = next_timer s + reconnectAttempts (attemptReconnect s))%nat.
Proof.
  unfold attemptReconnect. destruct (_ <=? _)%nat; cbn; lia.
Qed.

Lemma cleanup_counts s :
  next_timer (cleanup s) = next_timer s /\
  reconnectAttempts (cleanup s) = reconnectAttempts s.
Proof. unfold cleanup. destruct (reconnectTimeout s); now split. Qed.

Lemma connect_counts b s :
  (next_timer (connect b s) + reconnectAttempts s
   = next_timer s + reconnectAttempts (connect b s))%nat.
Proof.
  unfold connect.
  destruct (ws s ≫= _) as [[]|]; try lia;
    (destruct b; [apply attemptReconnect_counts|cbn; lia]).
Qed.

Lemma socket_step_counts s e :
  is_Opened e = false ->
  (next_timer (step s e) + reconnectAttempts s
   = next_timer s + reconnectAttempts (step s e))%nat.
Proof.
  intros He. destruct e as [b| |i|i|t b]; try discriminate He; cbn.
  - apply connect_counts.
  - unfold disconnect. destruct (cleanup_counts s) as [Hn Ha].
    destruct (ws (cleanup s)); cbn; lia.
  - destruct (sockets s !! i) as [[]|]; try lia;
      unfold onclose;
      pose proof (attemptReconnect_counts
                    (cleanup (setConnected false (set_socket i CLOSED s))))
        as Hc;
      destruct (cleanup_counts (setConnected false (set_socket i CLOSED s)))
        as [Hn Ha];
      rewrite Hn, Ha in Hc; exact Hc.
  - destruct (existsb _ _); [|lia]. apply (connect_counts b (fire t s)).
Qed.

Lemma socket_run_counts trace : forall s,
  forallb (fun e => negb (is_Opened e)) trace = true ->
  (next_timer (run s trace) + reconnectAttempts s
   = next_timer s + reconnectAttempts (run s trace))%nat.
Proof.
  induction trace as [|e trace IH]; intros s H; [reflexivity|].
  cbn in H. apply andb_prop in H. destruct H as [He H].
  apply negb_true_iff in He. cbn [run fold_left].
  pose proof (IH (step s e) H) as IH'. unfold run in IH'.
  pose proof (socket_step_counts s e He). lia.
Qed.

Lemma socket_run_app s tr1 tr2 : run s (tr1 ++ tr2) = run (run s tr1) tr2.
Proof. apply fold_left_app. Qed.

(** X19: as long as no socket opens, every timer set is counted as one
    attempt, so from any reachable state at most [10 - reconnectAttempts]
    further reconnects are scheduled, whatever else happens. *)
Theorem retries_bounded_without_open (before trace : list Event) :
  forallb (fun e => negb (is_Opened e)) trace = true ->
  let s := run initial before in
  let s' := run s trace in
  (next_timer s' - next_timer s
   = reconnectAttempts s' - reconnectAttempts s)%nat /\
  (next_timer s' - next_timer s <= 10 - reconnectAttempts s)%nat.
Proof.
  intros H s s'.
  pose proof (socket_run_counts trace s H) as Hc. fold s' in Hc.
  destruct (reconnect_inv_run (before ++ trace) initial) as [Ha _].
  { split; [cbn; unfold maxReconnectAttempts; lia|constructor]. }
  rewrite socket_run_app in Ha. fold s s' in Ha.
  unfold maxReconnectAttempts in Ha. lia.
Qed.

(** A single pending timer, the one [reconnectTimeout] names. *)
Definition single_timer (s : State) : Prop :=
  timers s = [] \/
  exists t d, reconnectTimeout s = Some t /\ timers s = [(t, d)].

Lemma single_timer_cleanup s :
  single_timer s -> timers (cleanup s) = [].
Proof.
  unfold cleanup. intros [H|(t & d & Ht & H)].
  - destruct (reconnectTimeout s); cbn; rewrite H; reflexivity.
  - rewrite Ht. cbn. rewrite H. cbn. rewrite Nat.eqb_refl. reflexivity.
Qed.

Lemma single_timer_attemptReconnect s :
  timers s = [] -> single_timer (attemptReconnect s).
Proof.
  intros H. unfold attemptReconnect.
  destruct (_ <=? _)%nat; [now left|]. right. cbn. rewrite H. eauto.
Qed.

Lemma single_timer_fire t s :
  single_timer s ->
  existsb (fun p => fst p =? t)%nat (timers s) = true ->
  timers (fire t s) = [].
Proof.
  intros [H|(t' & d & Ht & H)] Hex; unfold fire; cbn [timers]; rewrite H in *;
    [reflexivity|].
  cbn [existsb fst] in Hex. rewrite orb_false_r in Hex.
  cbn. rewrite Hex. reflexivity.
Qed.

Lemma single_timer_step s e :
  is_Connect_throwing e = false -> single_timer s -> single_timer (step s e).
Proof.
  intros He H. destruct e as [[]| |i|i|t b]; try discriminate He; cbn.
  - unfold connect. destruct (ws s ≫= _) as [[]|]; exact H.
  - left. unfold disconnect. pose proof (single_timer_cleanup s H) as Hc.
    destruct (ws (cleanup s)); exact Hc.
  - destruct (sockets s !! i) as [[]|]; exact H.
  - destruct (sockets s !! i) as [[]|]; try exact H;
      apply single_timer_attemptReconnect;
      apply (single_timer_cleanup (setConnected false (set_socket i CLOSED s)));
      exact H.
  - destruct (existsb _ _) eqn:Hex; [|exact H].
    pose proof (single_timer_fire t s H Hex) as Hf.
    unfold connect. destruct (ws (fire t s) ≫= _) as [[]|];
      try (now left);
      (destruct b; [now apply single_timer_attemptReconnect|now left]).
Qed.

(** X20: unless [connect] is called from outside while the [WebSocket]
    constructor throws, at most one reconnect timer is pending at any time,
    and it is the one [reconnectTimeout] holds. *)
Theorem one_timer_pending (trace : list Event) :
  forallb (fun e => negb (is_Connect_throwing e)) trace = true ->
  (length (timers (run initial trace)) <= 1)%nat /\
  (forall t d, In (t, d) (timers (run initial trace)) ->
     reconnectTimeout (run initial trace) = Some t).
Proof.
  intros H.
  assert (Hs : single_timer (run initial trace)).
  { assert (Hi : single_timer initial) by now left.
    revert H Hi. generalize initial.
    induction trace as [|e trace IH]; intros s H Hi; [exact Hi|].
    cbn in H. apply andb_prop in H. destruct H as [He H].
    apply negb_true_iff in He.
    apply (IH (step s e) H). now apply single_timer_step. }
  destruct Hs as [Hs|(t & d & Ht & Hs)]; rewrite Hs; cbn.
  - split; [lia|]. intros t d [].
  - split; [lia|]. intros t' d' [Heq|[]]. congruence.
Qed.

Lemma onclose_schedules s :
  (reconnectAttempts s < 10)%nat ->
  ws (onclose s) = ws s /\
  sockets (onclose s) = sockets s /\
  reconnectTimeout (onclose s) = Some (next_timer s) /\
  In (next_timer s,
      (3000 * Z.of_nat (Nat.min (S (reconnectAttempts s)) 3))%Z)
     (timers (onclose s)).
Proof.
  intros Hlt. unfold onclose, attemptReconnect, maxReconnectAttempts.
  assert (Hc : reconnectAttempts (cleanup (setConnected false s))
               = reconnectAttempts s /\
               next_timer (cleanup (setConnected false s)) = next_timer s /\
               ws (cleanup (setConnected false s)) = ws s /\
               sockets (cleanup (setConnected false s)) = sockets s).
  { unfold cleanup. cbn [reconnectTimeout setConnected].
    destruct (reconnectTimeout s); repeat split. }
  destruct Hc as (Ha & Hn & Hw & Hs).
  set (c := cleanup (setConnected false s)) in *. clearbody c.
  rewrite Ha, Hn.
  assert (Hleb : (10 <=? reconnectAttempts s)%nat = false)
    by (apply Nat.leb_gt; lia).
  rewrite Hleb. cbn [ws sockets reconnectTimeout timers].
  repeat split; try assumption.
  apply in_or_app. right. left. reflexivity.
Qed.

Lemma disconnect_closes s i :
  ws s = Some i ->
  ws (disconnect s) = None /\
  sockets (disconnect s) = alter close i (sockets s) /\
  reconnectAttempts (disconnect s) = reconnectAttempts s /\
  next_timer (disconnect s) = next_timer s.
Proof.
  intros Hws. unfold disconnect, cleanup.
  destruct (reconnectTimeout s) eqn:Hrt; cbn; rewrite Hws; cbn;
    repeat split.
Qed.

(** X21: [disconnect] does not stop the reconnecting: it closes the socket
    but leaves its handlers attached, so when the browser then reports the
    socket closed, [onclose] schedules a reconnect, and when that timer
    fires a new socket is created and stored in [ws]. *)
Theorem disconnect_does_not_stop_reconnecting (s : State) (i : nat) :
  ws s = Some i ->
  sockets s !! i = Some OPEN ->
  (reconnectAttempts s < 10)%nat ->
  let closed := run s [Disconnect; Closed i] in
  let t := next_timer s in
  let again := step closed (Fired t false) in
  ws closed = None /\
  reconnectTimeout closed = Some t /\
  In (t, (3000 * Z.of_nat (Nat.min (S (reconnectAttempts s)) 3))%Z)
     (timers closed) /\
  ws again = Some (length (sockets s)) /\
  sockets again !! length (sockets s) = Some CONNECTING.
Proof.
  intros Hws Hi Hlt closed t again. subst again closed t.
  assert (Hlen : (i < length (sockets s))%nat)
    by (apply lookup_lt_is_Some; eauto).
  cbn [run fold_left step].
  destruct (disconnect_closes s i Hws) as (Hw & Hs & Ha & Hn).
  set (s1 := disconnect s) in *. clearbody s1.
  assert (Hl : sockets s1 !! i = Some CLOSING).
  { rewrite Hs, list_lookup_alter_eq, Hi. reflexivity. }
  rewrite Hl.
  destruct (onclose_schedules (set_socket i CLOSED s1))
    as (Hw2 & Hs2 & Hr2 & Ht2).
  { cbn. lia. }
  cbn [ws sockets reconnectAttempts next_timer set_socket] in Hw2, Hs2, Hr2, Ht2.
  rewrite Ha, Hn in *.
  set (s2 := onclose (set_socket i CLOSED s1)) in *. clearbody s2.
  split; [congruence|]. split; [exact Hr2|]. split; [exact Ht2|].
  assert (Hex : existsb (fun p => (fst p =? next_timer s)%nat) (timers s2)
                = true).
  { apply existsb_exists. eexists. split; [exact Ht2|]. cbn.
    apply Nat.eqb_refl. }
  rewrite Hex. unfold connect, fire. cbn [ws sockets]. rewrite Hw2, Hw.
  cbn [mbind option_bind ws sockets]. rewrite Hs2, Hs.
  rewrite length_insert, length_alter.
  split; [reflexivity|].
  rewrite lookup_app_r by (rewrite length_insert, length_alter; lia).
  rewrite length_insert, length_alter, Nat.sub_diag. reflexivity.
Qed.

End Reconnect.


Definition open_connection : ResourceSocket.State :=
  ResourceSocket.run ResourceSocket.initial
    [ResourceSocket.Connect false; ResourceSocket.Opened 0].

Lemma retries_bounded_without_open_witness :
  (ResourceSocket.next_timer
     (ResourceSocket.run open_connection
        [ResourceSocket.Closed 0; ResourceSocket.Fired 1 false;
         ResourceSocket.Closed 1])
   - ResourceSocket.next_timer open_connection
   <= 10 - ResourceSocket.reconnectAttempts open_connection)%nat.
Proof.
  exact (proj2 (retries_bounded_without_open
                  [ResourceSocket.Connect false; ResourceSocket.Opened 0]
                  [ResourceSocket.Closed 0; ResourceSocket.Fired 1 false;
                   ResourceSocket.Closed 1] eq_refl)).
Defined.

Lemma one_timer_pending_witness :
  (length (ResourceSocket.timers
             (ResourceSocket.run ResourceSocket.initial
                [ResourceSocket.Connect false; ResourceSocket.Closed 0;
                 ResourceSocket.Fired 1 true])) <= 1)%nat.
Proof.
  exact (proj1 (one_timer_pending
                  [ResourceSocket.Connect false; ResourceSocket.Closed 0;
                   ResourceSocket.Fired 1 true] eq_refl)).
Defined.

(** With a throwing constructor two calls of [connect] leave two timers. *)
Example throwing_connect_leaves_two_timers :
  ResourceSocket.timers
    (ResourceSocket.run ResourceSocket.initial
       [ResourceSocket.Connect true; ResourceSocket.Connect true])
  = [(1%nat, 3000%Z); (2%nat, 6000%Z)].
Proof. reflexivity. Qed.

Lemma disconnect_does_not_stop_reconnecting_witness :
  ResourceSocket.ws
    (ResourceSocket.step
       (ResourceSocket.run open_connection
          [ResourceSocket.Disconnect; ResourceSocket.Closed 0])
       (ResourceSocket.Fired 1 false)) = Some 1%nat.
Proof.
  apply (disconnect_does_not_stop_reconnecting open_connection 0);
    [reflexivity|reflexivity|cbn; lia].
Defined.

Local Open Scope Q_scope.

(** * The selection buttons of the toolbar (components/video/VideoGridToolbar.vue) *)

Module Toolbar.

(** The fields of [VideoInfo] the toolbar reads. *)
Record VideoInfo := {
  name : string;
  has_caption : bool
}.

Definition isAllSelected (videos : list VideoInfo) (selectedVideos : gset string)
  : bool :=
  (0 <? length videos)%nat && (size selectedVideos =? length videos)%nat.

Definition isNoneSelected (selectedVideos : gset string) : bool :=
  (size selectedVideos =? 0)%nat.

(** [new Set(videos.filter(v => !v.has_caption).map(v => v.name))] *)
Definition pendingNames (videos : list VideoInfo) : gset string :=
  list_to_set (name <$> List.filter (fun v => negb (has_caption v)) videos).

(** The loop over [selectedVideos] answers [false] at the first name that
    is not pending, whatever the order of iteration. *)
Definition isPendingSelected
    (videos : list VideoInfo) (selectedVideos : gset string) : bool :=
  if (size selectedVideos =? 0)%nat then false
  else
    let pendingNames := pendingNames videos in
    if (size pendingNames =? 0)%nat then false
    else if negb (size selectedVideos =? size pendingNames)%nat then false
    else forallb (fun name => bool_decide (name ∈ pendingNames))
                 (elements selectedVideos).

Definition isCustomSelected
    (videos : list VideoInfo) (selectedVideos : gset string) : bool :=
  (0 <? size selectedVideos)%nat
  && negb (isAllSelected videos selectedVideos)
  && negb (isPendingSelected videos selectedVideos).

End Toolbar.

Section SelectionButtons.

Import Toolbar.

Lemma forallb_elements (P : string -> bool) (X : gset string) :
  forallb P (elements X) = true <-> forall x, x ∈ X -> P x = true.
Proof.
  rewrite List.forallb_forall. split; intros H x Hx; apply H.
  - apply list_elem_of_In, elem_of_elements, Hx.
  - apply elem_of_elements, list_elem_of_In, Hx.
Qed.

(** X22: the Pending button is highlighted exactly when the selection is
    not empty and is the set of names of the videos without a caption: the
    size test and the loop together decide equality of the two sets. *)
Theorem isPendingSelected_spec
    (videos : list VideoInfo) (selectedVideos : gset string) :
  isPendingSelected videos selectedVideos = true <->
  selectedVideos <> ∅ /\ selectedVideos = pendingNames videos.
Proof.
  unfold isPendingSelected.
  destruct (Nat.eqb_spec (size selectedVideos) 0) as [H0|H0].
  { apply size_empty_inv in H0. apply leibniz_equiv in H0.
    split; [discriminate|]. intros [Hne _]. contradiction. }
  assert (Hne : selectedVideos <> ∅).
  { intros ->. apply H0. apply size_empty. }
  destruct (Nat.eqb_spec (size (pendingNames videos)) 0) as [Hp|Hp].
  { split; [discriminate|]. intros [_ Heq]. rewrite Heq in H0. contradiction. }
  destruct (Nat.eqb_spec (size selectedVideos) (size (pendingNames videos)))
    as [Hs|Hs]; cbn [negb].
  - rewrite forallb_elements. split.
    + intros Hall. split; [exact Hne|].
      apply set_subseteq_size_eq; [|lia].
      intros x Hx. specialize (Hall x Hx).
      now apply bool_decide_eq_true in Hall.
    + intros [_ Heq] x Hx. apply bool_decide_eq_true. now rewrite <- Heq.
  - split; [discriminate|]. intros [_ Heq]. rewrite <- Heq in Hs.
    contradiction.
Qed.

(** X23: the All button compares sizes only.  When the videos have
    distinct names and every selected name is the name of a video, it is
    highlighted exactly when there is a video and all are selected. *)
Theorem isAllSelected_spec
    (videos : list VideoInfo) (selectedVideos : gset string) :
  NoDup (name <$> videos) ->
  selectedVideos ⊆ list_to_set (name <$> videos) ->
  (isAllSelected videos selectedVideos = true <->
   videos <> [] /\ selectedVideos = list_to_set (name <$> videos)).
Proof.
  intros Hnd Hsub. unfold isAllSelected.
  assert (Hsize : size (list_to_set (name <$> videos) : gset string)
                  = length videos).
  { rewrite size_list_to_set by exact Hnd. apply length_fmap. }
  rewrite andb_true_iff, Nat.ltb_lt, Nat.eqb_eq. split.
  - intros [Hpos Heq]. split; [destruct videos; [cbn in Hpos; lia|discriminate]|].
    apply set_subseteq_size_eq; [exact Hsub|]. lia.
  - intros [Hne ->]. split; [destruct videos; [contradiction|cbn; lia]|].
    exact Hsize.
Qed.

(** Without those conditions All is highlighted for a selection of the
    right size that names none of the videos. *)
Example isAllSelected_stale_selection :
  isAllSelected [{| name := "a.mp4"; has_caption := false |}] {[ "b.mp4" ]}
  = true.
Proof. reflexivity. Qed.

Lemma isAllSelected_spec_witness :
  isAllSelected [{| name := "a.mp4"; has_caption := false |};
                 {| name := "b.mp4"; has_caption := true |}]
                {[ "a.mp4"; "b.mp4" ]} = true.
Proof.
  apply (isAllSelected_spec
           [{| name := "a.mp4"; has_caption := false |};
            {| name := "b.mp4"; has_caption := true |}]
           {[ "a.mp4"; "b.mp4" ]}).
  - apply (bool_decide_unpack _). vm_compute. exact I.
  - apply (bool_decide_unpack _). vm_compute. exact I.
  - split; [discriminate|]. apply (bool_decide_unpack _). vm_compute. exact I.
Defined.

End SelectionButtons.

(** * Percentages shown as bars (stores/resourceStore.ts,
      components/layout/ResourceMonitor.vue, components/base/BaseSlider.vue) *)

(** [Math.round] of a finite number: to the nearest integer, halves up. *)
Definition Math_round (x : Q) : Z := Qfloor (x + (1 # 2)).

Module Resources.

(** The fields of the snapshot the percentages read. *)
Record GPUMetrics := {
  utilization_percent : Q;
  vram_used_gb : Q;
  vram_total_gb : Q;
  temperature_c : Q
}.

Record ResourceSnapshot := {
  cpu_percent : Q;
  ram_used_gb : Q;
  ram_total_gb : Q;
  gpus : list GPUMetrics
}.

(** [ramPercent] of the resource store; [None] would be a division by
    zero. *)
Definition ramPercent (snapshot : ResourceSnapshot) : option Z :=
  if Qeq_bool (ram_total_gb snapshot) 0 then Some 0%Z
  else
    q ← js_div (ram_used_gb snapshot) (ram_total_gb snapshot);
    Some (Math_round (q * 100)).

Definition primaryGpu (snapshot : ResourceSnapshot) : option GPUMetrics :=
  if (0 <? length (gpus snapshot))%nat then gpus snapshot !! 0%nat else None.

(** [vramPercent] of the resource monitor. *)
Definition vramPercent (snapshot : ResourceSnapshot) : option Z :=
  match primaryGpu snapshot with
  | None => Some 0%Z
  | Some gpu =>
      if Qeq_bool (vram_total_gb gpu) 0 then Some 0%Z
      else
        q ← js_div (vram_used_gb gpu) (vram_total_gb gpu);
        Some (Math_round (q * 100))
  end.

End Resources.

Module Slider.

(** [percentage] of the slider, with the defaults of [min] and [max]
    filled in by the caller. *)
Definition percentage (modelValue min max : Q) : option Q :=
  q ← js_div (modelValue - min) (max - min);
  Some (q * 100).

End Slider.

Section Percentages.

Import Resources.

Lemma ratio_in_unit (used total : Q) :
  0 <= used -> used <= total -> ~ total == 0 ->
  0 <= used / total * 100 /\ used / total * 100 <= 100.
Proof.
  intros H0 H1 Hne.
  assert (Hpos : 0 < total) by (destruct (Qlt_le_dec 0 total); [assumption|lra]).
  assert (Hq0 : 0 <= used / total).
  { apply Qle_shift_div_l; [exact Hpos|]. lra. }
  assert (Hq1 : used / total <= 1).
  { apply Qle_shift_div_r; [exact Hpos|]. lra. }
  split; lra.
Qed.

Lemma Math_round_percent (x : Q) :
  0 <= x -> x <= 100 -> (0 <= Math_round x <= 100)%Z.
Proof.
  intros H0 H1. unfold Math_round. split.
  - change 0%Z with (Qfloor (1 # 2)). apply Qfloor_resp_le. lra.
  - change 100%Z with (Qfloor (100 + (1 # 2))). apply Qfloor_resp_le. lra.
Qed.

Lemma rounded_percent (used total : Q) :
  0 <= used -> used <= total -> ~ total == 0 ->
  exists p, (q ← js_div used total; Some (Math_round (q * 100))) = Some p /\
            (0 <= p <= 100)%Z.
Proof.
  intros H0 H1 Hne. rewrite js_div_defined by exact Hne.
  eexists. split; [reflexivity|].
  destruct (ratio_in_unit used total H0 H1 Hne).
  now apply Math_round_percent.
Qed.

(** X24: [ramPercent] and [vramPercent] never divide by zero: each always
    gives a number, 0 when the total is 0 (or there is no GPU); and when
    the used amount lies between 0 and the total the number is a whole
    percentage between 0 and 100. *)
Theorem resource_percent_range (snapshot : ResourceSnapshot) :
  is_Some (ramPercent snapshot) /\
  is_Some (vramPercent snapshot) /\
  (0 <= ram_used_gb snapshot <= ram_total_gb snapshot ->
   exists p, ramPercent snapshot = Some p /\ (0 <= p <= 100)%Z) /\
  (forall gpu, primaryGpu snapshot = Some gpu ->
   0 <= vram_used_gb gpu <= vram_total_gb gpu ->
   exists p, vramPercent snapshot = Some p /\ (0 <= p <= 100)%Z) /\
  (ram_total_gb snapshot == 0 -> ramPercent snapshot = Some 0%Z) /\
  (gpus snapshot = [] -> vramPercent snapshot = Some 0%Z).
Proof.
  unfold ramPercent, vramPercent.
  repeat split.
  - destruct (Qeq_bool (ram_total_gb snapshot) 0) eqn:E; [eauto|].
    apply Qeq_bool_neq in E. rewrite js_div_defined by exact E. cbn. eauto.
  - destruct (primaryGpu snapshot) as [gpu|]; [|eauto].
    destruct (Qeq_bool (vram_total_gb gpu) 0) eqn:E; [eauto|].
    apply Qeq_bool_neq in E. rewrite js_div_defined by exact E. cbn. eauto.
  - intros [H0 H1].
    destruct (Qeq_bool (ram_total_gb snapshot) 0) eqn:E;
      [exists 0%Z; split; [reflexivity|lia]|].
    apply Qeq_bool_neq in E. now apply rounded_percent.
  - intros gpu -> [H0 H1].
    destruct (Qeq_bool (vram_total_gb gpu) 0) eqn:E;
      [exists 0%Z; split; [reflexivity|lia]|].
    apply Qeq_bool_neq in E. now apply rounded_percent.
  - intros H. apply Qeq_bool_iff in H. rewrite H. reflexivity.
  - intros H. unfold primaryGpu. rewrite H. reflexivity.
Qed.

(** X25: the slider's [percentage] has no guard: it lies between 0 and 100
    when [min < max] and the value is within the bounds, 0 at [min] and
    100 at [max]; with [min] equal to [max] the division is by zero and
    there is no percentage to draw. *)
Theorem slider_percentage_range (modelValue min max : Q) :
  min <= modelValue -> modelValue <= max ->
  (min < max ->
   exists p, Slider.percentage modelValue min max = Some p /\
             0 <= p /\ p <= 100 /\
             (modelValue == min -> p == 0) /\
             (modelValue == max -> p == 100)) /\
  (min == max -> Slider.percentage modelValue min max = None).
Proof.
  intros Hlo Hhi. unfold Slider.percentage. split.
  - intros Hlt.
    assert (Hne : ~ max - min == 0) by lra.
    rewrite js_div_defined by exact Hne. eexists. split; [reflexivity|].
    assert (Hpos : 0 < max - min) by lra.
    set (q := (modelValue - min) / (max - min)).
    assert (Hq : q * (max - min) == modelValue - min).
    { unfold q. field. exact Hne. }
    assert (Hq0 : 0 <= q).
    { apply Qle_shift_div_l; [exact Hpos|]. lra. }
    assert (Hq1 : q <= 1).
    { apply Qle_shift_div_r; [exact Hpos|]. lra. }
    repeat split; try lra.
    + intros Hm. assert (Hz : q * (max - min) == 0) by lra.
      apply Qmult_integral in Hz. destruct Hz as [Hz|Hz]; [lra|contradiction].
    + intros Hm. assert (Hz : (q - 1) * (max - min) == 0) by lra.
      apply Qmult_integral in Hz. destruct Hz as [Hz|Hz]; [lra|contradiction].
  - intros Heq. unfold js_div.
    assert (E : Qeq_bool (max - min) 0 = true) by (apply Qeq_bool_iff; lra).
    rewrite E. reflexivity.
Qed.

Lemma slider_percentage_range_witness :
  exists p, Slider.percentage 3 0 12 = Some p /\ 0 <= p /\ p <= 100 /\
            (3 == 0 -> p == 0) /\ (3 == 12 -> p == 100).
Proof.
  apply (slider_percentage_range 3 0 12); [lra|lra|reflexivity].
Defined.

End Percentages.
